(** * cf-abacus: usage renewer, plan resolvers and plan mappings

    A shallow embedding of
      - lib/cf/renewer/src/index.js        (the usage renewal engine),
      - lib/plugins/provisioning/src/index.js (plan resolvers),
      - lib/config/mappings/src/index.js   (plan mapping resolvers),
    the properties the design document states about them, and further
    properties of the code: what a cycle fetches, posts and counts, its
    schedule and scan window, the slack setting, and the routes of the
    provisioning plugin. *)

From Stdlib Require Import ZArith Lia Ascii String List.
From stdpp Require Import base option list gmap strings fin_maps.

Local Open Scope Z_scope.

(** ** Time-bucketed keys: ['t/' + dbclient.pad16(time)] *)

Module Encoder.

(** JavaScript compares strings code unit by code unit; on the ASCII keys
    built here that is [String.compare]. *)
Definition str_lt (a b : string) : Prop := String.compare a b = Lt.

Definition digitChar (d : Z) : ascii := ascii_of_N (48 + Z.to_N d).

Fixpoint decimal_fuel (fuel : nat) (n : Z) : string :=
  match fuel with
  | O => EmptyString
  | S f =>
      if n <? 10 then String (digitChar n) EmptyString
      else String.append (decimal_fuel f (n / 10))
                         (String (digitChar (n mod 10)) EmptyString)
  end.

(** [Number.prototype.toString] on a non-negative integer: its decimal
    digits, most significant first, no leading zero.  A number has no more
    decimal digits than binary ones, which bounds the recursion. *)
Definition toString (n : Z) : string :=
  decimal_fuel (S (Z.to_nat (Z.log2 n))) n.

Fixpoint zeros (k : nat) : string :=
  match k with
  | O => EmptyString
  | S k' => String "0"%char (zeros k')
  end.

Definition padTo (w : nat) (s : string) : string :=
  String.append (zeros (w - String.length s)) s.

(** Modelled from the spec: [dbclient.pad16] lives in abacus-dbclient, which
    is not part of the sources at hand.  The design document describes its
    result as a fixed-width, 16-digit, zero-padded decimal string. *)
Definition pad16 (t : Z) : string := padTo 16 (toString t).

(** [renewUsage]: ['t/' + dbclient.pad16(time.valueOf())]. *)
Definition encode (t : Z) : string := String.append "t/" (pad16 t).

(** The [w] low decimal digits of [n], most significant first. *)
Fixpoint fixedWidth (w : nat) (n : Z) : string :=
  match w with
  | O => EmptyString
  | S w' => String.append (fixedWidth w' (n / 10))
                          (String (digitChar (n mod 10)) EmptyString)
  end.

End Encoder.

(** ** A small JavaScript store: values, objects, exceptions *)

Module Js.

Definition loc := positive.

Inductive value :=
  | VUndefined
  | VNull
  | VBool (b : bool)
  | VNum (n : Z)
  | VStr (s : string)
  | VRef (l : loc).

(** A plain object is a map from property names to values; an array has its
    elements and, like every object, may carry named properties too. *)
Inductive object :=
  | OObj (props : gmap string value)
  | OArr (elems : list value) (props : gmap string value).

Abbreviation heap := (gmap loc object).

Inductive exn :=
  | TypeError (msg : string)
  | Error (msg : string)
  | DanglingRef (l : loc).

(** Outcome of running a piece of code from a state: a value, an uncaught
    exception, or no answer (the recursion budget is used up, or the code
    waits for something that does not come). *)
Inductive result (S A : Type) :=
  | Ok (a : A) (s : S)
  | Throw (e : exn) (s : S)
  | Pending.
Arguments Ok {S A} a s.
Arguments Throw {S A} e s.
Arguments Pending {S A}.

Definition M (S A : Type) : Type := S -> result S A.

Definition ret {S A} (a : A) : M S A := fun s => Ok a s.

Definition bind {S A B} (m : M S A) (k : A -> M S B) : M S B :=
  fun s => match m s with
           | Ok a s' => k a s'
           | Throw e s' => Throw e s'
           | Pending => Pending
           end.

Definition throw {S A} (e : exn) : M S A := fun s => Throw e s.
Definition get {S} : M S S := fun s => Ok s s.
Definition modify {S} (f : S -> S) : M S unit := fun s => Ok tt (f s).

Notation "'let*' x ':=' c 'in' k" := (bind c (fun x => k))
  (at level 10, x pattern, c at level 100, k at level 200).
Notation "c ';;' k" := (bind c (fun _ => k))
  (at level 100, k at level 200, right associativity).

(** [for (let x of xs) body(x)] *)
Fixpoint forEach {S A} (body : A -> M S unit) (xs : list A) : M S unit :=
  match xs with
  | [] => ret tt
  | x :: xs' => body x;; forEach body xs'
  end.

(** Run a computation on a component of a larger state. *)
Definition zoom {S T A} (proj : S -> T) (inj : T -> S -> S) (m : M T A) : M S A :=
  fun s => match m (proj s) with
           | Ok a t => Ok a (inj t s)
           | Throw e t => Throw e (inj t s)
           | Pending => Pending
           end.

(** What an observer sees of an outcome that is a value. *)
Definition observe {S A B} (f : A -> S -> B) (r : result S A) : option B :=
  match r with
  | Ok a s => Some (f a s)
  | _ => None
  end.

(** JavaScript truthiness. *)
Definition truthy (v : value) : bool :=
  match v with
  | VUndefined | VNull => false
  | VBool b => b
  | VNum n => negb (n =? 0)
  | VStr s => negb (String.eqb s EmptyString)
  | VRef _ => true
  end.

Definition alloc (o : object) : M heap value :=
  fun h => let l := fresh (dom h) in Ok (VRef l) (<[l := o]> h).

Definition deref (l : loc) : M heap object :=
  fun h => match h !! l with
           | Some o => Ok o h
           | None => Throw (DanglingRef l) h
           end.

Definition propsOf (o : object) : gmap string value :=
  match o with
  | OObj props => props
  | OArr _ props => props
  end.

Definition withProps (o : object) (props : gmap string value) : object :=
  match o with
  | OObj _ => OObj props
  | OArr elems _ => OArr elems props
  end.

(** [v[k]] for a named property [k] (never an array index or [length] in
    the code modelled here).  Primitives own none of the names used. *)
Definition getProp (v : value) (k : string) : M heap value :=
  match v with
  | VUndefined | VNull => throw (TypeError "Cannot read property of undefined")
  | VBool _ | VNum _ | VStr _ => ret VUndefined
  | VRef l => let* o := deref l in ret (default VUndefined (propsOf o !! k))
  end.

(** [v[k] = x] in strict mode. *)
Definition setProp (v : value) (k : string) (x : value) : M heap unit :=
  match v with
  | VUndefined | VNull => throw (TypeError "Cannot set property of undefined")
  | VBool _ | VNum _ | VStr _ =>
      throw (TypeError "Cannot create property on primitive")
  | VRef l =>
      let* o := deref l in
      modify (fun h : heap => <[l := withProps o (<[k := x]> (propsOf o))]> h)
  end.

(** The values a [for ... of] loop visits. *)
Definition iterate (v : value) : M heap (list value) :=
  match v with
  | VRef l =>
      let* o := deref l in
      match o with
      | OArr elems _ => ret elems
      | OObj _ => throw (TypeError "object is not iterable")
      end
  | VStr s => ret ((fun c => VStr (String c EmptyString)) <$> list_ascii_of_string s)
  | _ => throw (TypeError "value is not iterable")
  end.

(** [v.startsWith(p)]: only strings have the method. *)
Definition startsWith (v : value) (p : string) : M heap bool :=
  match v with
  | VStr s => ret (String.prefix p s)
  | VUndefined | VNull => throw (TypeError "Cannot read property of undefined")
  | _ => throw (TypeError "startsWith is not a function")
  end.

(** The enumerable keys underscore copies from a source: the named
    properties, and for an array its indices as well. *)
Definition enumerable (o : object) : gmap string value :=
  match o with
  | OObj props => props
  | OArr elems props =>
      props ∪ list_to_map (imap (fun i x => (Encoder.toString (Z.of_nat i), x)) elems)
  end.

(** [_.extend({}, src)]: a new object with the enumerable properties of
    [src]; a source that is not an object contributes nothing. *)
Definition extend_new (src : value) : M heap value :=
  match src with
  | VRef l => let* o := deref l in alloc (OObj (enumerable o))
  | _ => alloc (OObj ∅)
  end.

(** [_.pick(obj, keys)]: a new object with those of [keys] that are in
    [obj]. *)
Definition pick (obj : value) (keys : list string) : M heap value :=
  match obj with
  | VUndefined | VNull => alloc (OObj ∅)
  | VRef l =>
      let* o := deref l in
      alloc (OObj (filter (fun kv => kv.1 ∈ keys) (enumerable o)))
  | _ => alloc (OObj ∅)
  end.

End Js.

(** ** The usage transformation of the renewer *)

Module Usage.
Import Js.

Definition msPerDay : Z := 86400000.

(** Day of the month (1..31) of a day count since 1970-01-01, in the
    proleptic Gregorian calendar. *)
Definition dayOfMonth (days : Z) : Z :=
  let z := days + 719468 in
  let era := z / 146097 in
  let doe := z - era * 146097 in
  let yoe := (doe - doe / 1460 + doe / 36524 - doe / 146096) / 365 in
  let doy := doe - (365 * yoe + yoe / 4 - yoe / 100) in
  let mp := (5 * doy + 2) / 153 in
  doy - (153 * mp + 2) / 5 + 1.

(** Modelled from the spec: [moment().utc().startOf('month').valueOf()] at
    clock reading [now] (moment is a third-party library): the epoch
    milliseconds of the beginning of the UTC month that contains [now]. *)
Definition utcStartOfMonth (now : Z) : Z :=
  let days := now / msPerDay in
  (days - (dayOfMonth days - 1)) * msPerDay.

Definition zeroUsage (usage : value) : M heap value :=
  let* clonedUsage := extend_new usage in
  let* measured_usage := getProp clonedUsage "measured_usage" in
  let* entries := iterate measured_usage in
  forEach (fun measureObject =>
             let* measure := getProp measureObject "measure" in
             let* previous := startsWith measure "previous" in
             if previous then setProp measureObject "quantity" (VNum 0)
             else ret tt) entries;;
  ret clonedUsage.

Definition refreshUsage (now : Z) (usage : value) : M heap value :=
  let monthStart := utcStartOfMonth now in
  setProp usage "start" (VNum monthStart);;
  setProp usage "end" (VNum monthStart);;
  zeroUsage usage.

(** [sanitizeUsageDoc]; [schemaProps] stands for the property names of
    [usageSchemas.resourceUsage], which abacus-usage-schemas declares. *)
Definition sanitizeUsageDoc (schemaProps : list string) (doc : value) : M heap value :=
  pick doc schemaProps.

(** Reading a document back from the store, for stating properties. *)
Definition field (h : heap) (v : value) (k : string) : option value :=
  match v with
  | VRef l => o ← h !! l; Some (default VUndefined (propsOf o !! k))
  | _ => None
  end.

Definition elements (h : heap) (v : value) : option (list value) :=
  match v with
  | VRef l => match h !! l with
              | Some (OArr elems _) => Some elems
              | _ => None
              end
  | _ => None
  end.

Definition quantities (h : heap) (doc : value) : option (list value) :=
  mu ← field h doc "measured_usage";
  es ← elements h mu;
  mapM (fun e => field h e "quantity") es.

(** The body of the loop of [zeroUsage], named for the loop invariant. *)
Definition zeroBody (measureObject : value) : M heap unit :=
  let* measure := getProp measureObject "measure" in
  let* previous := startsWith measure "previous" in
  if previous then setProp measureObject "quantity" (VNum 0) else ret tt.

Definition measureObject (h : heap) (e : loc) : Prop :=
  ∃ eprops name, h !! e = Some (OObj eprops) ∧ eprops !! "measure" = Some (VStr name).

(** What the loop of [zeroUsage] does to one measure object. *)
Definition zeroed (o : object) : object :=
  match propsOf o !! "measure" with
  | Some (VStr name) =>
      if String.prefix "previous" name
      then withProps o (<["quantity" := VNum 0]> (propsOf o))
      else o
  | _ => o
  end.

(** A usage document as the collector returns it: an object whose
    [measured_usage] is an array of objects, each with a string [measure].
    [props] are the document's fields and [entries] the array's elements. *)
Definition usageDoc (h : heap) (d : loc) (props : gmap string value)
    (entries : list loc) : Prop :=
  h !! d = Some (OObj props) ∧
  ∃ a aprops,
    props !! "measured_usage" = Some (VRef a) ∧
    h !! a = Some (OArr (VRef <$> entries) aprops) ∧
    ∀ e, e ∈ entries → measureObject h e.

(** Two versions of an object that agree on what makes a usage document:
    the kind, the elements of an array, and the [measured_usage] and
    [measure] properties. *)
Definition sameShape (o o' : object) : Prop :=
  match o, o' with
  | OObj p, OObj p' =>
      p' !! "measured_usage" = p !! "measured_usage" ∧
      p' !! "measure" = p !! "measure"
  | OArr es _, OArr es' _ => es' = es
  | _, _ => False
  end.

Definition grows (h h' : heap) : Prop :=
  ∀ l o, h !! l = Some o → ∃ o', h' !! l = Some o' ∧ sameShape o o'.

(** Two stores that differ, on the objects of the first, in [quantity]
    properties at most. *)
Definition quantityFrame (h h' : heap) : Prop :=
  ∀ l o, h !! l = Some o →
    ∃ o', h' !! l = Some o' ∧ ∀ k, k ≠ "quantity" → propsOf o' !! k = propsOf o !! k.

(** The example of the design document: a document with one carried and one
    current measure. *)
Definition exampleDocProps : gmap string value :=
  <["id" := VStr "U1"]> (<["start" := VNum 5]> (<["end" := VNum 9]>
  (<["measured_usage" := VRef 2%positive]> ∅))).

Definition exampleHeap : heap :=
  <[1%positive := OObj exampleDocProps]>
  (<[2%positive := OArr [VRef 3%positive; VRef 4%positive] ∅]>
  (<[3%positive := OObj (<["measure" := VStr "previous_instances"]>
                         (<["quantity" := VNum 5]> ∅))]>
  (<[4%positive := OObj (<["measure" := VStr "current_instances"]>
                         (<["quantity" := VNum 2]> ∅))]> ∅))).

(** 2024-03-15T10:00Z and 2024-03-01T00:00Z in epoch milliseconds. *)
Definition exampleNow : Z := 1710496800000.
Definition exampleMonthStart : Z := 1709251200000.

End Usage.

(** ** The renewer: lib/cf/renewer/src/index.js

    Asynchronous calls are run to completion in place: a request is answered
    by the environment at once and its callback runs on the answer, so the
    records of a page are handled one after the other, each fetched and
    then reported.  The code sends the fetches of a page in its loop and
    runs their callbacks on later turns of the event loop; the order of the
    events within a page, and what follows a callback that throws, are
    therefore those of the embedding, and the properties stated of a page
    are those that do not depend on them: which requests are made and how
    many, the pages read, the counters, and which of [failure] and
    [success] is called.  Calls to [debug], [edebug] and [perf] only log and
    are left out. *)

Module Renewer.
Import Js Usage.

Definition err := string.

Record response := { statusCode : Z; body : value }.

(** What a request callback receives: [(error, response)]. *)
Definition httpResult : Type := option err * option response.

(** A row of the carry-over database and the document it holds. *)
Record carryOver := { collector_id : string }.
Record row := { doc : carryOver }.

(** ** Statistics and last-error state *)

Record dbStatistics := { readSuccess : nat; readFailure : nat; docsRead : nat }.

Record usageStatistics := {
  missingToken : nat;
  getFailures : nat;
  getSuccess : nat;
  reportFailures : nat;
  reportSuccess : nat;
  reportConflict : nat
}.

Record planStatistics := { plan_getFailures : nat; plan_getSuccess : nat }.

Record retryStatistics := { count : nat }.

Record statistics := {
  db : dbStatistics;
  usage : usageStatistics;
  plan : planStatistics;
  retries : retryStatistics
}.

(** The messages [util.format] builds at the call sites of
    [registerError]. *)
Inductive message :=
  | FailedGettingUsage (doc : value)
  | FailedReportingUsage (usage : value)
  | FailedReadingUsageData (startId endId : string) (limit : nat)
  | MissingToken.

(** [errors.lastError]: the empty string at first, then the message, with
    the error and the response formatted in when there is one. *)
Inductive errorMessage :=
  | NoMessage
  | Plain (m : message)
  | Formatted (m : message) (error : option err) (response : option response).

Record errors := {
  errors_missingToken : bool;
  noGetEverHappened : bool;
  noReportEverHappened : bool;
  consecutiveGetFailures : nat;
  consecutiveReportFailures : nat;
  lastError : errorMessage;
  lastErrorTimestamp : option Z
}.

(** ** What a cycle does to the outside *)

(** First argument of the [failure] callback: the scan error as it came,
    or the record [buildError] makes. *)
Inductive errorDoc :=
  | CollectorId (collector_id : string)
  | Doc (doc : value).

Inductive cycleError :=
  | MissingTokenError
  | ScanError (error : err)
  | OpError (op : string) (doc : errorDoc) (error : option err)
            (response : option response).

(** Second argument of the [failure] callback: the page at the scan call
    site, the response at the others. *)
Inductive failureDetail :=
  | NoDetail
  | Page (usage : option (list row))
  | Response (response : option response).

Inductive event :=
  | AllDocs (startkey endkey : string) (limit skip : nat)
  | Get (usage_id : string) (authorization : option string)
  | Post (body : value) (authorization : option string)
  | Failure (error : cycleError) (detail : failureDetail)
  | Success.

Record world := {
  store : heap;                 (* objects: usage documents *)
  cells : gmap loc nat;          (* closure variables: [numDocs] of a page *)
  requests : nat;                (* requests sent to the collector so far *)
  stats : statistics;
  errs : errors;
  timer : option Z;              (* delay of the pending [module.usageRenewer] *)
  events : list event            (* oldest first *)
}.

(** The environment of a cycle.  Requests are numbered in the order they
    are sent; scans are told apart by their arguments. *)
Record env := {
  pageSize : nat;
  secured : bool;
  retryInterval : Z;
  slackLimit : Z;
  now : Z;
  schemaProps : list string;
  allDocs : string -> string -> nat -> nat -> err + list row;
  collectorGet : nat -> string -> httpResult;
  collectorPost : nat -> value -> httpResult
}.

(** *** State updates *)

Definition with_store (f : heap -> heap) (w : world) : world :=
  {| store := f (store w); cells := cells w; requests := requests w;
     stats := stats w; errs := errs w; timer := timer w; events := events w |}.

Definition with_cells (f : gmap loc nat -> gmap loc nat) (w : world) : world :=
  {| store := store w; cells := f (cells w); requests := requests w;
     stats := stats w; errs := errs w; timer := timer w; events := events w |}.

Definition with_requests (f : nat -> nat) (w : world) : world :=
  {| store := store w; cells := cells w; requests := f (requests w);
     stats := stats w; errs := errs w; timer := timer w; events := events w |}.

Definition with_stats (f : statistics -> statistics) (w : world) : world :=
  {| store := store w; cells := cells w; requests := requests w;
     stats := f (stats w); errs := errs w; timer := timer w; events := events w |}.

Definition with_errs (f : errors -> errors) (w : world) : world :=
  {| store := store w; cells := cells w; requests := requests w;
     stats := stats w; errs := f (errs w); timer := timer w; events := events w |}.

Definition with_timer (f : option Z -> option Z) (w : world) : world :=
  {| store := store w; cells := cells w; requests := requests w;
     stats := stats w; errs := errs w; timer := f (timer w); events := events w |}.

Definition with_events (f : list event -> list event) (w : world) : world :=
  {| store := store w; cells := cells w; requests := requests w;
     stats := stats w; errs := errs w; timer := timer w; events := f (events w) |}.

Definition emit (e : event) : M world unit :=
  modify (with_events (fun es => es ++ [e])).

Definition with_db (f : dbStatistics -> dbStatistics) (s : statistics) : statistics :=
  {| db := f (db s); usage := usage s; plan := plan s; retries := retries s |}.

Definition with_usage (f : usageStatistics -> usageStatistics) (s : statistics)
  : statistics :=
  {| db := db s; usage := f (usage s); plan := plan s; retries := retries s |}.

Definition incr_readSuccess (d : dbStatistics) : dbStatistics :=
  {| readSuccess := S (readSuccess d); readFailure := readFailure d;
     docsRead := docsRead d |}.

Definition incr_readFailure (d : dbStatistics) : dbStatistics :=
  {| readSuccess := readSuccess d; readFailure := S (readFailure d);
     docsRead := docsRead d |}.

Definition add_docsRead (n : nat) (d : dbStatistics) : dbStatistics :=
  {| readSuccess := readSuccess d; readFailure := readFailure d;
     docsRead := docsRead d + n |}.

Definition incr_missingToken (u : usageStatistics) : usageStatistics :=
  {| missingToken := S (missingToken u); getFailures := getFailures u;
     getSuccess := getSuccess u; reportFailures := reportFailures u;
     reportSuccess := reportSuccess u; reportConflict := reportConflict u |}.

Definition incr_retries (s : statistics) : statistics :=
  {| db := db s; usage := usage s; plan := plan s;
     retries := {| count := S (count (retries s)) |} |}.

Definition incr_getSuccess (u : usageStatistics) : usageStatistics :=
  {| missingToken := missingToken u; getFailures := getFailures u;
     getSuccess := S (getSuccess u); reportFailures := reportFailures u;
     reportSuccess := reportSuccess u; reportConflict := reportConflict u |}.

Definition incr_getFailures (u : usageStatistics) : usageStatistics :=
  {| missingToken := missingToken u; getFailures := S (getFailures u);
     getSuccess := getSuccess u; reportFailures := reportFailures u;
     reportSuccess := reportSuccess u; reportConflict := reportConflict u |}.

Definition incr_reportSuccess (u : usageStatistics) : usageStatistics :=
  {| missingToken := missingToken u; getFailures := getFailures u;
     getSuccess := getSuccess u; reportFailures := reportFailures u;
     reportSuccess := S (reportSuccess u); reportConflict := reportConflict u |}.

Definition incr_reportFailures (u : usageStatistics) : usageStatistics :=
  {| missingToken := missingToken u; getFailures := getFailures u;
     getSuccess := getSuccess u; reportFailures := S (reportFailures u);
     reportSuccess := reportSuccess u; reportConflict := reportConflict u |}.

Definition incr_reportConflict (u : usageStatistics) : usageStatistics :=
  {| missingToken := missingToken u; getFailures := getFailures u;
     getSuccess := getSuccess u; reportFailures := reportFailures u;
     reportSuccess := reportSuccess u; reportConflict := S (reportConflict u) |}.

Definition set_consecutiveGetFailures (f : nat -> nat) (e : errors) : errors :=
  {| errors_missingToken := errors_missingToken e;
     noGetEverHappened := noGetEverHappened e;
     noReportEverHappened := noReportEverHappened e;
     consecutiveGetFailures := f (consecutiveGetFailures e);
     consecutiveReportFailures := consecutiveReportFailures e;
     lastError := lastError e; lastErrorTimestamp := lastErrorTimestamp e |}.

Definition set_consecutiveReportFailures (f : nat -> nat) (e : errors) : errors :=
  {| errors_missingToken := errors_missingToken e;
     noGetEverHappened := noGetEverHappened e;
     noReportEverHappened := noReportEverHappened e;
     consecutiveGetFailures := consecutiveGetFailures e;
     consecutiveReportFailures := f (consecutiveReportFailures e);
     lastError := lastError e; lastErrorTimestamp := lastErrorTimestamp e |}.

Definition set_noGetEverHappened (b : bool) (e : errors) : errors :=
  {| errors_missingToken := errors_missingToken e;
     noGetEverHappened := b;
     noReportEverHappened := noReportEverHappened e;
     consecutiveGetFailures := consecutiveGetFailures e;
     consecutiveReportFailures := consecutiveReportFailures e;
     lastError := lastError e; lastErrorTimestamp := lastErrorTimestamp e |}.

Definition set_noReportEverHappened (b : bool) (e : errors) : errors :=
  {| errors_missingToken := errors_missingToken e;
     noGetEverHappened := noGetEverHappened e;
     noReportEverHappened := b;
     consecutiveGetFailures := consecutiveGetFailures e;
     consecutiveReportFailures := consecutiveReportFailures e;
     lastError := lastError e; lastErrorTimestamp := lastErrorTimestamp e |}.

Definition set_missingToken (b : bool) (e : errors) : errors :=
  {| errors_missingToken := b;
     noGetEverHappened := noGetEverHappened e;
     noReportEverHappened := noReportEverHappened e;
     consecutiveGetFailures := consecutiveGetFailures e;
     consecutiveReportFailures := consecutiveReportFailures e;
     lastError := lastError e; lastErrorTimestamp := lastErrorTimestamp e |}.

Definition set_lastError (m : errorMessage) (t : Z) (e : errors) : errors :=
  {| errors_missingToken := errors_missingToken e;
     noGetEverHappened := noGetEverHappened e;
     noReportEverHappened := noReportEverHappened e;
     consecutiveGetFailures := consecutiveGetFailures e;
     consecutiveReportFailures := consecutiveReportFailures e;
     lastError := m; lastErrorTimestamp := Some t |}.

(** Run store code in the world. *)
Definition inStore {A} (m : M heap A) : M world A :=
  zoom store (fun h w => with_store (fun _ => h) w) m.

(** An optional object ([undefined] when absent) is truthy when present. *)
Definition present {A} (o : option A) : bool :=
  match o with
  | Some _ => true
  | None => false
  end.

(** Closure variables live in cells of their own. *)
Definition newCell (n : nat) : M world loc :=
  fun w => let c := fresh (dom (cells w)) in Ok c (with_cells (insert c n) w).

Definition readCell (c : loc) : M world nat :=
  fun w => Ok (default 0%nat (cells w !! c)) w.

Definition incrCell (c : loc) : M world unit :=
  modify (with_cells (alter S c)).

(** [reliableRequest.get] / [.post] (abacus-request and its wrappers are
    not among the sources): the environment answers the request with the
    next number by [(error, response)]. *)
Definition request (answer : nat -> httpResult) : M world httpResult :=
  fun w => Ok (answer (requests w)) (with_requests S w).

(** The delay [setTimeout] keeps: one of 1 to 2^31 - 1 milliseconds as it
    is, any other becomes 1. *)
Definition timeoutDelay (interval : Z) : Z :=
  if (1 <=? interval) && (interval <=? 2147483647) then interval else 1.

(** [systemToken()] is a string or [undefined]: truthy when there is one
    and it is not empty. *)
Definition hasToken (token : option string) : bool :=
  match token with
  | Some t => negb (String.eqb t EmptyString)
  | None => false
  end.

Definition statusIs (response : option response) (code : Z) : bool :=
  match response with
  | Some r => statusCode r =? code
  | None => false
  end.

Section Engine.
Context (E : env).

Definition registerError (m : message) (error : option err)
    (response : option response) : M world unit :=
  let errorMessage :=
    if present error || present response then Formatted m error response
    else Plain m in
  modify (with_errs (set_lastError errorMessage (now E))).

(** [authHeader]: the token, when there is one. *)
Definition authHeader (token : option string) : option string := token.

(** The callback [getUsageDoc] gives to [reliableRequest.get]. *)
Definition getUsageDocResponse
    (cb : value -> option err -> option response -> M world unit)
    (error : option err) (response : option response) : M world unit :=
  let doc := match response with Some r => body r | None => VUndefined end in
  if negb (present error) && present response && statusIs response 200 then
    modify (with_stats (with_usage incr_getSuccess));;
    modify (with_errs (set_consecutiveGetFailures (fun _ => 0%nat)));;
    modify (with_errs (set_noGetEverHappened false));;
    cb doc None None
  else
    modify (with_stats (with_usage incr_getFailures));;
    modify (with_errs (set_consecutiveGetFailures S));;
    registerError (FailedGettingUsage doc) error response;;
    cb VUndefined error response.

Definition getUsageDoc (id : string) (systemToken : option string)
    (cb : value -> option err -> option response -> M world unit) : M world unit :=
  emit (Get id (authHeader systemToken));;
  let* (error, response) := request (fun n => collectorGet E n id) in
  getUsageDocResponse cb error response.

(** The callback [reportUsage] gives to [reliableRequest.post]. *)
Definition reportUsageResponse (usage : value)
    (cb : option err -> option response -> M world unit)
    (error : option err) (response : option response) : M world unit :=
  if negb (present error) && present response && statusIs response 201 then
    modify (with_stats (with_usage incr_reportSuccess));;
    modify (with_errs (set_consecutiveReportFailures (fun _ => 0%nat)));;
    modify (with_errs (set_noReportEverHappened false));;
    cb None None
  else if negb (present error) && present response && statusIs response 409 then
    modify (with_stats (with_usage incr_reportConflict));;
    modify (with_errs (set_noReportEverHappened false));;
    cb None None
  else
    modify (with_stats (with_usage incr_reportFailures));;
    modify (with_errs (set_consecutiveReportFailures S));;
    registerError (FailedReportingUsage usage) error response;;
    cb error response.

Definition reportUsage (doc : value) (token : option string)
    (cb : option err -> option response -> M world unit) : M world unit :=
  inStore (getProp doc "id");;
  let* usage := inStore (let* refreshed := refreshUsage (now E) doc in
                         sanitizeUsageDoc (schemaProps E) refreshed) in
  emit (Post usage (authHeader token));;
  let* (error, response) := request (fun n => collectorPost E n usage) in
  reportUsageResponse usage cb error response.

(** [clearTimeout(module.usageRenewer); module.usageRenewer =
    setTimeout(fn, interval)]: the timer holds the delay the runtime keeps. *)
Definition setRenewTimeout (interval : Z) : M world unit :=
  modify (with_timer (fun _ => Some (timeoutDelay interval)));;
  modify (with_stats incr_retries).

Definition buildError (op : string) (doc : errorDoc) (error : option err)
    (response : option response) : cycleError :=
  OpError op doc error response.

(** [extractUsageDocs]: underscore's [map] of something that is not a
    collection is the empty array. *)
Definition extractUsageDocs (usageDocs : option (list row)) : list carryOver :=
  match usageDocs with
  | Some rows => map doc rows
  | None => []
  end.

(** [usage.length] *)
Definition lengthOf (usage : option (list row)) : M world nat :=
  match usage with
  | Some rows => ret (length rows)
  | None => throw (TypeError "Cannot read property 'length' of undefined")
  end.

(** The callbacks [renewUsagePage] hands to [getUsageDoc] and
    [reportUsage] for one record. *)
Definition reported (failure : cycleError -> failureDetail -> M world unit)
    (countReportedDocs : M world unit) (doc : value)
    (error : option err) (response : option response) : M world unit :=
  if present error || present response then
    failure (buildError "report" (Doc doc) error response) (Response response)
  else countReportedDocs.

Definition fetched (systemToken : option string)
    (failure : cycleError -> failureDetail -> M world unit)
    (countReportedDocs : M world unit) (id : string) (doc : value)
    (error : option err) (response : option response) : M world unit :=
  if present error || present response then
    failure (buildError "get" (CollectorId id) error response) (Response response)
  else reportUsage doc systemToken (reported failure countReportedDocs doc).

Fixpoint renewUsagePage (fuel : nat) (systemToken : option string)
    (startId endId : string) (skip : nat)
    (failure : cycleError -> failureDetail -> M world unit)
    (success : M world unit) : M world unit :=
  match fuel with
  | O => fun _ => Pending
  | S fuel' =>
      emit (AllDocs startId endId (pageSize E) skip);;
      let* (error, usage) :=
        match allDocs E startId endId (pageSize E) skip with
        | inr rows =>
            modify (with_stats (with_db (add_docsRead (length rows))));;
            modify (with_stats (with_db incr_readSuccess));;
            ret (None, Some rows)
        | inl e => ret (Some e, None)
        end in
      match error with
      | Some e =>
          modify (with_stats (with_db incr_readFailure));;
          registerError (FailedReadingUsageData startId endId (pageSize E))
                        error None;;
          failure (ScanError e) (Page usage)
      | None => ret tt
      end;;
      let references := extractUsageDocs usage in
      let* len := lengthOf usage in
      if (len =? 0)%nat then success
      else
        let* numDocs := newCell 0%nat in
        let countReportedDocs : M world unit :=
          incrCell numDocs;;
          let* n := readCell numDocs in
          if (n =? len)%nat then
            if (len <? pageSize E)%nat then success
            else renewUsagePage fuel' systemToken startId endId (skip + n)%nat
                                failure success
          else ret tt in
        forEach (fun ref =>
                   let id := collector_id ref in
                   getUsageDoc id systemToken
                     (fetched systemToken failure countReportedDocs id))
                references
  end.

(** [response || error && error.response || undefined] in the [failure]
    callback of [renewUsage]. *)
Definition failureResponse (error : cycleError) (detail : failureDetail)
  : failureDetail :=
  match detail with
  | Page (Some rows) => detail
  | Response (Some r) => detail
  | _ => match error with
         | OpError _ _ _ (Some r) => Response (Some r)
         | _ => NoDetail
         end
  end.

Definition renewUsage (fuel : nat) (systemToken : option string)
    (failure : cycleError -> failureDetail -> M world unit)
    (success : M world unit) : M world unit :=
  if secured E && negb (hasToken systemToken) then
    setRenewTimeout 5000;;
    modify (with_stats (with_usage incr_missingToken));;
    modify (with_errs (set_missingToken true));;
    registerError MissingToken None None;;
    failure MissingTokenError NoDetail
  else
    setRenewTimeout (retryInterval E);;
    let monthStart := utcStartOfMonth (now E) in
    let startTime := utcStartOfMonth (monthStart - 1) - slackLimit E in
    let endTime := monthStart - 1 in
    let startId := Encoder.encode startTime in
    let endId := Encoder.encode endTime in
    renewUsagePage fuel systemToken startId endId 0
      (fun error response => failure error (failureResponse error response))
      (success).

End Engine.

(** The callbacks a caller observes the cycle with. *)
Definition onFailure (error : cycleError) (detail : failureDetail) : M world unit :=
  emit (Failure error detail).

Definition onSuccess : M world unit := emit Success.

(** A carry-over database holding [rows] in key order between the two
    keys: a scan returns at most [limit] of them after the first [skip]. *)
Definition scanOf (rows : list row) (limit skip : nat) : err + list row :=
  inr (take limit (drop skip rows)).

Definition isAllDocs (e : event) : bool :=
  match e with
  | AllDocs _ _ _ _ => true
  | _ => false
  end.

(** The number of page reads among some events. *)
Definition pageReads (es : list event) : nat := length (List.filter isAllDocs es).

(** *** Shapes of the store, for stating what a cycle needs and keeps *)

(** Every fetch is answered 200 with a usage document of the store. *)
Definition fetchesSucceed (E : env) (h : heap) : Prop :=
  ∀ n id, ∃ r d props entries,
    collectorGet E n id = (None, Some r) ∧ statusCode r = 200 ∧
    body r = VRef d ∧ usageDoc h d props entries.

(** Every report is answered 201 or 409. *)
Definition reportsSucceed (E : env) : Prop :=
  ∀ n usage, ∃ r,
    collectorPost E n usage = (None, Some r) ∧
    (statusCode r = 201 ∨ statusCode r = 409).

(** The world once [reportUsage] has sent its request: the store after the
    transformation, the request logged and counted. *)
Definition posted (u : value) (token : option string) (h' : heap) (w : world) : world :=
  with_requests S (with_events (fun es => es ++ [Post u token])
                     (with_store (fun _ => h') w)).

(** The closure [countReportedDocs] of a page of [len] records whose
    counter is the cell [c]; [final] is what it does at the last record. *)
Definition counting (c : loc) (len : nat) (final : nat -> M world unit) : M world unit :=
  incrCell c;;
  let* n := readCell c in
  if (n =? len)%nat then final n else ret tt.

(** Events of a page that goes well: requests to the collector only. *)
Definition isRequest (e : event) : bool :=
  match e with
  | Get _ _ | Post _ _ => true
  | _ => false
  end.

(** Events before the verdict of a cycle that goes well: scans and
    requests, no [Failure] and no [Success]. *)
Definition isProgress (e : event) : bool := isAllDocs e || isRequest e.

(** The transformation [reportUsage] applies before posting. *)
Definition renewed (E : env) (doc : value) : M heap value :=
  let* refreshed := refreshUsage (now E) doc in
  sanitizeUsageDoc (schemaProps E) refreshed.

(** *** A small run, for concrete instances *)

(** [statistics] and [errors] as the module creates them. *)
Definition initialStatistics : statistics :=
  {| db := {| readSuccess := 0; readFailure := 0; docsRead := 0 |};
     usage := {| missingToken := 0; getFailures := 0; getSuccess := 0;
                 reportFailures := 0; reportSuccess := 0; reportConflict := 0 |};
     plan := {| plan_getFailures := 0; plan_getSuccess := 0 |};
     retries := {| count := 0 |} |}.

Definition initialErrors : errors :=
  {| errors_missingToken := false; noGetEverHappened := true;
     noReportEverHappened := true; consecutiveGetFailures := 0;
     consecutiveReportFailures := 0; lastError := NoMessage;
     lastErrorTimestamp := None |}.

Definition exampleWorld : world :=
  {| store := exampleHeap; cells := ∅; requests := 0; stats := initialStatistics;
     errs := initialErrors; timer := None; events := [] |}.

(** The same after three reports in a row have failed. *)
Definition streakWorld : world :=
  with_errs (set_consecutiveReportFailures (fun _ => 3%nat)) exampleWorld.

Definition exampleRow : row := {| doc := {| collector_id := "U1" |} |}.

(** A collector that serves the example document and answers every report
    with [code]; a carry-over database that holds [scan]. *)
Definition exampleEnv (scan : nat -> nat -> err + list row) (code : Z) : env :=
  {| pageSize := 2; secured := false; retryInterval := 86400000;
     slackLimit := 600000; now := exampleNow;
     schemaProps := ["start"; "end"; "measured_usage"]%string;
     allDocs := fun _ _ => scan;
     collectorGet := fun _ _ =>
       (None, Some {| statusCode := 200; body := VRef 1%positive |});
     collectorPost := fun _ _ =>
       (None, Some {| statusCode := code; body := VUndefined |}) |}.

End Renewer.

(** ** Cache, database and lock of a resolver

    Each resolver of the provisioning plugin and of the plan mappings owns
    an LRU cache, a database and a lock.  The cache is a map (its capacity
    and expiry only make [get] miss more often and are left out), the
    database a map from document ids to documents, or nothing when it cannot
    be reached; a lock is held per key. *)

Module Resolver.
Import Js.

Inductive access :=
  | Locked (id : string)
  | Unlocked (id : string)
  | CacheGet (id : string)
  | CacheSet (id : string)
  | LocalResource (id : string)
  | DbGet (id : string)
  | DbPut (id : string).

Record resolver (V D : Type) := {
  cache : gmap string V;
  db : option (gmap string D);
  held : gset string;
  log : list access               (* oldest first *)
}.
Arguments cache {V D} r.
Arguments db {V D} r.
Arguments held {V D} r.
Arguments log {V D} r.

Section Operations.
Context {V D : Type}.

Definition logged (a : access) (s : resolver V D) : resolver V D :=
  {| cache := cache s; db := db s; held := held s; log := log s ++ [a] |}.

(** [unlock()] *)
Definition unlock (id : string) : M (resolver V D) unit :=
  modify (fun s => {| cache := cache s; db := db s; held := held s ∖ {[id]};
                      log := log s ++ [Unlocked id] |}).

(** Modelled from the spec: abacus-lock is not among the sources; the
    design document describes a per-key mutual-exclusion section.
    [yield lock(id)]: on a free lock it takes the lock and returns the
    function that releases it.  A caller that finds the lock taken waits
    for the holder to release it and then proceeds; with one caller at a
    time nobody is there to release it, so here that call does not come
    back, and the properties are stated of calls that find the lock
    free. *)
Definition lock (id : string) : M (resolver V D) (M (resolver V D) unit) :=
  fun s =>
    if decide (id ∈ held s) then Pending
    else Ok (unlock id)
            {| cache := cache s; db := db s; held := held s ∪ {[id]};
               log := log s ++ [Locked id] |}.

(** Modelled from the spec: abacus-lrucache is not among the sources; the
    design document describes a cache entry as [(key -> value)].
    [cache.get(k)] *)
Definition cacheGet (k : string) : M (resolver V D) (option V) :=
  fun s => Ok (cache s !! k) (logged (CacheGet k) s).

(** [cache.set(k, v); return v] *)
Definition cacheSet (k : string) (v : V) : M (resolver V D) V :=
  fun s => Ok v {| cache := <[k := v]> (cache s); db := db s; held := held s;
                   log := log s ++ [CacheSet k] |}.

(** Modelled from the spec: abacus-dbclient is not among the sources; the
    design document describes a key-value document store with [get(id)]
    and [put(doc)].  [yield db.get(id)]: the document, [undefined] when
    there is none. *)
Definition dbGet (id : string) : M (resolver V D) (option D) :=
  fun s => match db s with
           | Some docs => Ok (docs !! id) (logged (DbGet id) s)
           | None => Throw (Error "database unavailable") (logged (DbGet id) s)
           end.

(** Modelled from the spec: [yield db.put(doc)] with [doc._id = id]; the
    design document gives the original behaviour as last write wins. *)
Definition dbPut (id : string) (doc : D) : M (resolver V D) unit :=
  fun s => match db s with
           | Some docs =>
               Ok tt {| cache := cache s; db := Some (<[id := doc]> docs);
                        held := held s; log := log s ++ [DbPut id] |}
           | None => Throw (Error "database unavailable") (logged (DbPut id) s)
           end.

End Operations.

(** [try { body } finally { cleanup }] *)
Definition try_finally {S A} (body : M S A) (cleanup : M S unit) : M S A :=
  fun s =>
    match body s with
    | Ok a s' =>
        match cleanup s' with
        | Ok _ s'' => Ok a s''
        | Throw e s'' => Throw e s''
        | Pending => Pending
        end
    | Throw e s' =>
        match cleanup s' with
        | Ok _ s'' => Throw e s''
        | Throw e' s'' => Throw e' s''
        | Pending => Pending
        end
    | Pending => Pending
    end.

(** [parts.join('/')] *)
Definition join (parts : list string) : string := String.concat "/" parts.

(** The state a lookup of [key] leaves: the lock taken and released around
    the accesses [evs], the cache as given. *)
Definition released {V D} (key : string) (evs : list access) (c : gmap string V)
    (s : resolver V D) : resolver V D :=
  {| cache := c; db := db s; held := (held s ∪ {[key]}) ∖ {[key]};
     log := log s ++ [Locked key] ++ evs ++ [Unlocked key] |}.

(** The resolver as the design document words it, for a key whose lock is
    free: the cache first, and a hit is returned; else the bundled static
    resource, and a find is cached and returned; else the database, and a
    find is cached and returned; else absent, and nothing is cached. *)
Definition resolveSpec {V D} (static : string -> option V) (undbify : D -> V)
    (docId : string -> string) (key : string) (s : resolver V D)
  : result (resolver V D) (option V) :=
  match cache s !! key with
  | Some v => Ok (Some v) (released key [CacheGet key] (cache s) s)
  | None =>
      match static key with
      | Some v =>
          Ok (Some v) (released key [CacheGet key; CacheSet key]
                                (<[key := v]> (cache s)) s)
      | None =>
          match db s with
          | Some docs =>
              match docs !! docId key with
              | Some d =>
                  Ok (Some (undbify d))
                     (released key [CacheGet key; DbGet (docId key); CacheSet key]
                               (<[key := undbify d]> (cache s)) s)
              | None =>
                  Ok None (released key [CacheGet key; DbGet (docId key)] (cache s) s)
              end
          | None =>
              Throw (Error "database unavailable")
                    (released key [CacheGet key; DbGet (docId key)] (cache s) s)
          end
      end
  end.

End Resolver.

(** ** Plan resolvers: lib/plugins/provisioning/src/index.js *)

Module Provisioning.
Import Js Resolver.

Section Plans.
Context {Plan : Type}.

(** What the plugin bundles for one kind of plan: the module
    [require('./plans/<kind>/' + id)] finds, if any, and the schema's
    [validate], which throws on a plan that does not conform. *)
Record bundle := {
  required : string -> option Plan;
  valid : Plan -> bool
}.

Context (meteringPlans ratingPlans pricingPlans : bundle).

(** [try { return schema.validate(require(path)) } catch(e) {}] *)
Definition localResource (b : bundle) (id : string) : option Plan :=
  match required b id with
  | Some p => if valid b p then Some p else None
  | None => None
  end.

(** [dbclient.undbify]: the stored plan without its [_id]. *)
Definition undbify (doc : Plan) : Plan := doc.

Definition mcache (k : string) (mp : Plan) : M (resolver Plan Plan) Plan := cacheSet k mp.
Definition mcached (k : string) : M (resolver Plan Plan) (option Plan) := cacheGet k.
Definition rcache (k : string) (r : Plan) : M (resolver Plan Plan) Plan := cacheSet k r.
Definition rcached (k : string) : M (resolver Plan Plan) (option Plan) := cacheGet k.
Definition pcache (k : string) (p : Plan) : M (resolver Plan Plan) Plan := cacheSet k p.
Definition pcached (k : string) : M (resolver Plan Plan) (option Plan) := cacheGet k.

Definition newMetering (mpid : string) (mp : Plan) : M (resolver Plan Plan) unit :=
  if valid meteringPlans mp then dbPut (join ["k"; mpid]) mp
  else throw (Error "invalid metering plan").

Definition newRating (rpid : string) (rp : Plan) : M (resolver Plan Plan) unit :=
  if valid ratingPlans rp then dbPut (join ["k"; rpid]) rp
  else throw (Error "invalid rating plan").

Definition newPricing (ppid : string) (pp : Plan) : M (resolver Plan Plan) unit :=
  if valid pricingPlans pp then dbPut (join ["k"; ppid]) pp
  else throw (Error "invalid pricing plan").

(** A plan is an object, so a cached plan is truthy. *)
Definition metering (mpid : string) : M (resolver Plan Plan) (option Plan) :=
  let* unlock := lock mpid in
  try_finally
    (let* cp := mcached mpid in
     match cp with
     | Some cp => ret (Some cp)
     | None =>
         match localResource meteringPlans mpid with
         | Some p => let* p := mcache mpid p in ret (Some p)
         | None =>
             let* doc := dbGet (join ["k"; mpid]) in
             match doc with
             | Some doc => let* p := mcache mpid (undbify doc) in ret (Some p)
             | None => ret None
             end
         end
     end)
    unlock.

Definition rating (rpid : string) : M (resolver Plan Plan) (option Plan) :=
  let* unlock := lock rpid in
  try_finally
    (let* crp := rcached rpid in
     match crp with
     | Some crp => ret (Some crp)
     | None =>
         match localResource ratingPlans rpid with
         | Some p => let* p := rcache rpid p in ret (Some p)
         | None =>
             let* doc := dbGet (join ["k"; rpid]) in
             match doc with
             | Some doc => let* p := rcache rpid (undbify doc) in ret (Some p)
             | None => ret None
             end
         end
     end)
    unlock.

Definition pricing (ppid : string) : M (resolver Plan Plan) (option Plan) :=
  let* unlock := lock ppid in
  try_finally
    (let* cpp := pcached ppid in
     match cpp with
     | Some cpp => ret (Some cpp)
     | None =>
         match localResource pricingPlans ppid with
         | Some p => let* p := pcache ppid p in ret (Some p)
         | None =>
             let* doc := dbGet (join ["k"; ppid]) in
             match doc with
             | Some doc => let* p := pcache ppid (undbify doc) in ret (Some p)
             | None => ret None
             end
         end
     end)
    unlock.

End Plans.

(** *** A small instance: no bundled plan, every plan conforms *)

Definition noBundle : @bundle string :=
  {| required := fun _ => None; valid := fun _ => true |}.

Definition emptyPlans : resolver string string :=
  {| cache := ∅; db := Some ∅; held := ∅; log := [] |}.

End Provisioning.

(** ** Plan mappings: lib/config/mappings/src/index.js *)

Module Mappings.
Import Js Resolver.

(** A stored mapping: [{ planId, _id }] under its [_id]. *)
Record mappingDoc := { planId : string }.

#[global] Instance mappingDoc_eq_dec : EqDecision mappingDoc.
Proof. solve_decision. Defined.

(** The default maps from [(resource_type, plan_name)] to [plan_id], as
    [JSON.parse] reads them from [plans/*.json]: objects of objects, in
    key order. *)
Definition mapping : Type := list (string * list (string * string)).

(** [mapping[resourceType][planName]] *)
Definition defaultPlan (m : mapping) (resourceType planName : string) : option string :=
  plans ← (list_to_map m : gmap string (list (string * string))) !! resourceType;
  (list_to_map plans : gmap string string) !! planName.

(** A plan id is a string: truthy when not empty. *)
Definition nonEmpty (s : string) : bool := negb (String.eqb s EmptyString).

Definition truthyId (o : option string) : bool :=
  match o with
  | Some s => nonEmpty s
  | None => false
  end.

Abbreviation mappings := (resolver string mappingDoc).

Definition meteringMappingCache (key planId : string) : M mappings string :=
  cacheSet key planId.
Definition meteringMappingCached (key : string) : M mappings (option string) :=
  cacheGet key.
Definition ratingMappingCache (key planId : string) : M mappings string :=
  cacheSet key planId.
Definition ratingMappingCached (key : string) : M mappings (option string) :=
  cacheGet key.
Definition pricingMappingCache (key planId : string) : M mappings string :=
  cacheSet key planId.
Definition pricingMappingCached (key : string) : M mappings (option string) :=
  cacheGet key.

Definition newMeteringMapping (resourceType planName planId : string)
  : M mappings unit :=
  let id := join ["k"; resourceType; planName] in
  dbPut id {| planId := planId |}.

Definition newRatingMapping (resourceType planName planId : string)
  : M mappings unit :=
  let id := join ["k"; resourceType; planName] in
  dbPut id {| planId := planId |}.

Definition newPricingMapping (resourceType planName planId : string)
  : M mappings unit :=
  let id := join ["k"; resourceType; planName] in
  dbPut id {| planId := planId |}.

(** [dbclient.undbify(doc).planId] *)
Definition undbifyPlanId (doc : mappingDoc) : string := planId doc.

Definition mappedMeteringPlan (resourceType planName : string)
  : M mappings (option string) :=
  let id := join ["k"; resourceType; planName] in
  let* unlock := lock id in
  try_finally
    (let* cachedPlanId := meteringMappingCached id in
     if truthyId cachedPlanId then ret cachedPlanId
     else
       let* doc := dbGet id in
       match doc with
       | Some doc => let* p := meteringMappingCache id (undbifyPlanId doc) in ret (Some p)
       | None => ret None
       end)
    unlock.

Definition mappedRatingPlan (resourceType planName : string)
  : M mappings (option string) :=
  let id := join ["k"; resourceType; planName] in
  let* unlock := lock id in
  try_finally
    (let* cachedPlanId := ratingMappingCached id in
     if truthyId cachedPlanId then ret cachedPlanId
     else
       let* doc := dbGet id in
       match doc with
       | Some doc => let* p := ratingMappingCache id (undbifyPlanId doc) in ret (Some p)
       | None => ret None
       end)
    unlock.

Definition mappedPricingPlan (resourceType planName : string)
  : M mappings (option string) :=
  let id := join ["k"; resourceType; planName] in
  let* unlock := lock id in
  try_finally
    (let* cachedPlanId := pricingMappingCached id in
     if truthyId cachedPlanId then ret cachedPlanId
     else
       let* doc := dbGet id in
       match doc with
       | Some doc => let* p := pricingMappingCache id (undbifyPlanId doc) in ret (Some p)
       | None => ret None
       end)
    unlock.

(** [storeMapping(type, db, readFn, createFn, mapping, cb)]: the generator
    runs to its end, then the callback of [yieldable.functioncb] runs. *)
Definition storeMapping {S} (readFn : string -> string -> M S (option string))
    (createFn : string -> string -> string -> M S unit)
    (m : mapping) (cb : M S unit) : M S unit :=
  fun s =>
    match forEach (fun '(resourceType, plans) =>
             forEach (fun '(planName, planId) =>
                        let* found := readFn resourceType planName in
                        if truthyId found then ret tt
                        else createFn resourceType planName planId)
                     plans) m s with
    | Ok _ s' => cb s'
    | Throw _ s' => Throw (Error "Failed to store default mappings") s'
    | Pending => Pending
    end.

(** The three default maps, read from [plans/metering.json],
    [plans/pricing.json] and [plans/rating.json]. *)
Record defaults := {
  defaultMeteringMapping : mapping;
  defaultPricingMapping : mapping;
  defaultRatingMapping : mapping
}.

(** The state of the module: a resolver per kind of mapping, and the cells
    of closure variables ([callCount]). *)
Record stores := {
  meteringMappings : mappings;
  ratingMappings : mappings;
  pricingMappings : mappings;
  counters : gmap loc nat
}.

(** The state with one resolver replaced. *)
Definition setMetering (r : mappings) (s : stores) : stores :=
  {| meteringMappings := r; ratingMappings := ratingMappings s;
     pricingMappings := pricingMappings s; counters := counters s |}.

Definition setRating (r : mappings) (s : stores) : stores :=
  {| meteringMappings := meteringMappings s; ratingMappings := r;
     pricingMappings := pricingMappings s; counters := counters s |}.

Definition setPricing (r : mappings) (s : stores) : stores :=
  {| meteringMappings := meteringMappings s; ratingMappings := ratingMappings s;
     pricingMappings := r; counters := counters s |}.

(** Run the code of one resolver on its part of the state. *)
Definition onMetering {A} (m : M mappings A) : M stores A :=
  zoom meteringMappings setMetering m.

Definition onRating {A} (m : M mappings A) : M stores A :=
  zoom ratingMappings setRating m.

Definition onPricing {A} (m : M mappings A) : M stores A :=
  zoom pricingMappings setPricing m.

Definition with_counters (f : gmap loc nat -> gmap loc nat) (s : stores) : stores :=
  {| meteringMappings := meteringMappings s; ratingMappings := ratingMappings s;
     pricingMappings := pricingMappings s; counters := f (counters s) |}.

(** [countCb]: [if (++callCount == 3) cb()] *)
Definition countCb (callCount : loc) (cb : M stores unit) : M stores unit :=
  modify (with_counters (alter S callCount));;
  let* s := get in
  if (default 0%nat (counters s !! callCount) =? 3)%nat then cb else ret tt.

(** The three calls each run to their end before the next starts: they
    share nothing but [callCount], so the order in which the event loop
    interleaves them does not show as long as each ends in its callback.
    When one fails, the code has started the other two all the same and
    the error surfaces in the callback of the one that failed, where this
    sequence stops; the definition stands for runs without such a
    failure. *)
Definition storeDefaultMappings (d : defaults) (cb : M stores unit) : M stores unit :=
  let* callCount :=
    (fun s => let c := fresh (dom (counters s)) in
              Ok c (with_counters (insert c 0%nat) s)) in
  storeMapping (fun rt pn => onMetering (mappedMeteringPlan rt pn))
               (fun rt pn id => onMetering (newMeteringMapping rt pn id))
               (defaultMeteringMapping d) (countCb callCount cb);;
  storeMapping (fun rt pn => onRating (mappedRatingPlan rt pn))
               (fun rt pn id => onRating (newRatingMapping rt pn id))
               (defaultRatingMapping d) (countCb callCount cb);;
  storeMapping (fun rt pn => onPricing (mappedPricingPlan rt pn))
               (fun rt pn id => onPricing (newPricingMapping rt pn id))
               (defaultPricingMapping d) (countCb callCount cb).

(** *** What seeding needs and keeps *)

(** The document ids of the pairs of a default map. *)
Definition mappingIds (m : mapping) : list string :=
  '(resourceType, plans) ← m;
  '(planName, _) ← plans;
  [join ["k"; resourceType; planName]].

(** Plan ids are not empty, in a default map and in a database. *)
Definition properMapping (m : mapping) : Prop :=
  ∀ resourceType plans planName planId,
    (resourceType, plans) ∈ m → (planName, planId) ∈ plans → nonEmpty planId = true.

Definition properDocs (docs : gmap string mappingDoc) : Prop :=
  ∀ id doc, docs !! id = Some doc → nonEmpty (planId doc) = true.

(** A pair is resolvable when its id has a plan id in the cache or a
    document in the database. *)
Definition resolvable (r : mappings) (id : string) : Prop :=
  truthyId (cache r !! id) = true ∨
  ∃ docs doc, db r = Some docs ∧ docs !! id = Some doc.

(** A resolver at rest: its database can be reached and holds proper
    documents, and no lookup is under way. *)
Definition atRest (r : mappings) : Prop :=
  held r = ∅ ∧ ∃ docs, db r = Some docs ∧ properDocs docs.

Definition isDbPut (a : access) : bool :=
  match a with
  | DbPut _ => true
  | _ => false
  end.

(** The state [r] of a resolver that started seeding the pairs [ids] in
    state [r0]: at rest, its log longer by [evs], where every write is for
    one of the pairs, one that was not resolvable in [r0]; what was
    resolvable still is; a document differs only where one was written. *)
Definition seeding (ids : list string) (r0 r : mappings) (evs : list access) : Prop :=
  atRest r ∧
  log r = log r0 ++ evs ∧
  (∀ id, DbPut id ∈ evs → id ∈ ids ∧ ¬ resolvable r0 id) ∧
  (∀ id, resolvable r0 id → resolvable r id) ∧
  (∀ docs0 docs, db r0 = Some docs0 → db r = Some docs →
     ∀ id, docs !! id ≠ docs0 !! id → DbPut id ∈ evs).

(** What seeding the pairs [ids] makes of a resolver: writes only for
    pairs that were not resolvable, and no write at all, the database as it
    was, when every pair was resolvable. *)
Definition seeded (ids : list string) (r0 r : mappings) : Prop :=
  ∃ evs,
    log r = log r0 ++ evs ∧
    (∀ id, DbPut id ∈ evs → id ∈ ids ∧ ¬ resolvable r0 id) ∧
    ((∀ id, id ∈ ids → resolvable r0 id) →
       db r = db r0 ∧ ∀ id, DbPut id ∉ evs).

(** *** A small instance *)

Definition exampleMapping : mapping :=
  [("object-storage",
    [("basic", "basic-object-storage"); ("standard", "standard-object-storage")])]%string.

Definition exampleDefaults : defaults :=
  {| defaultMeteringMapping := exampleMapping;
     defaultPricingMapping := exampleMapping;
     defaultRatingMapping := exampleMapping |}.

(** Nothing cached, an empty database, no lock held. *)
Definition emptyMappings : mappings :=
  {| cache := ∅; db := Some ∅; held := ∅; log := [] |}.

(** The database that holds the example's mappings. *)
Definition seededMappings : mappings :=
  {| cache := ∅;
     db := Some (<["k/object-storage/basic"%string := {| planId := "basic-object-storage" |}]>
                 (<["k/object-storage/standard"%string :=
                      {| planId := "standard-object-storage" |}]> ∅));
     held := ∅; log := [] |}.

Definition exampleStores (r : mappings) : stores :=
  {| meteringMappings := r; ratingMappings := r; pricingMappings := r;
     counters := ∅ |}.

End Mappings.

(** ** What seeding leaves behind *)

Module Seeding.
Import Js Resolver Mappings.

(** [(resourceType, planName) -> planId] is a pair of the default map. *)
Definition inTable (m : mapping) (resourceType planName planId : string) : Prop :=
  ∃ plans, (resourceType, plans) ∈ m ∧ (planName, planId) ∈ plans.

(** No two pairs of the default map with one document id and two plan ids. *)
Definition oneIdOnePlan (m : mapping) : Prop :=
  ∀ rt pn pid rt' pn' pid',
    inTable m rt pn pid → inTable m rt' pn' pid' →
    join ["k"; rt; pn] = join ["k"; rt'; pn'] → pid = pid'.

(** The state [r] of a resolver while the default map [m] is seeded from
    [r0]: at rest; what was resolvable still is; a document is one of [r0]
    or the default of a pair that was not resolvable; a cached plan id is
    one cached in [r0] or the one of the stored document. *)
Definition settled (m : mapping) (r0 r : mappings) : Prop :=
  atRest r ∧
  (∀ id, resolvable r0 id → resolvable r id) ∧
  (∀ docs0 docs id d,
     db r0 = Some docs0 → db r = Some docs → docs !! id = Some d →
     docs0 !! id = Some d ∨
     (¬ resolvable r0 id ∧
      ∃ rt pn, id = join ["k"; rt; pn] ∧ inTable m rt pn (planId d))) ∧
  (∀ id v, cache r !! id = Some v →
     cache r0 !! id = Some v ∨
     ∃ docs d, db r = Some docs ∧ docs !! id = Some d ∧ v = planId d).

(** What seeding the default map [m] makes of a resolver, from [r0] to [r],
    [evs] being the accesses it adds to the log:
    - a mapping is written only for a pair of the map that was not
      resolvable;
    - every pair of the map that was not resolvable is written, and its
      document is in the database, with a plan id that is not empty (the
      default of the pair, when no two pairs share a document id with
      different plan ids);
    - every pair of the map is resolvable afterwards;
    - a document that was not written is as it was;
    - when every pair was resolvable, nothing is written and the database
      is as it was. *)
Definition seedsDefaults (m : mapping) (r0 r : mappings) : Prop :=
  ∃ evs,
    log r = log r0 ++ evs ∧
    (∀ id, DbPut id ∈ evs → id ∈ mappingIds m ∧ ¬ resolvable r0 id) ∧
    (∀ rt pn pid,
       inTable m rt pn pid → ¬ resolvable r0 (join ["k"; rt; pn]) →
       DbPut (join ["k"; rt; pn]) ∈ evs ∧
       ∃ docs d, db r = Some docs ∧ docs !! join ["k"; rt; pn] = Some d ∧
                 nonEmpty (planId d) = true ∧ (oneIdOnePlan m → planId d = pid)) ∧
    (∀ rt pn pid, inTable m rt pn pid → resolvable r (join ["k"; rt; pn])) ∧
    (∀ docs0 docs id,
       db r0 = Some docs0 → db r = Some docs → DbPut id ∉ evs →
       docs !! id = docs0 !! id) ∧
    ((∀ id, id ∈ mappingIds m → resolvable r0 id) →
       db r = db r0 ∧ ∀ id, DbPut id ∉ evs).

(** From [r] to [r'] nothing was written: the database is the same and the
    accesses added to the log have no write among them. *)
Definition unwritten (r r' : mappings) : Prop :=
  db r' = db r ∧ ∀ id, DbPut id ∉ drop (length (log r)) (log r').


(** After seeding [m] from [r0], in [r]: [resolve] answers every pair of
    the default map with a plan id that is not empty, and to its own default when
    the resolver started with nothing cached and nothing stored. *)
Definition resolvesDefaults (resolve : string -> string -> M mappings (option string))
    (m : mapping) (r0 r : mappings) : Prop :=
  ∀ rt pn pid,
    inTable m rt pn pid →
    ∃ v r',
      resolve rt pn r = Ok (Some v) r' ∧ nonEmpty v = true ∧
      (cache r0 = ∅ → db r0 = Some ∅ → oneIdOnePlan m → v = pid).

End Seeding.

(** ** What a cycle leaves in the trace and in the counters *)

Module Cycle.
Import Js Usage Renewer.

(** The answer [getUsageDoc] takes for a document: no error and a response
    with status 200. *)
Definition fetchedOk (answer : httpResult) : bool :=
  negb (present answer.1) && present answer.2 && statusIs answer.2 200.

(** The answers [reportUsage] takes for done: no error and a response with
    status 201 or 409. *)
Definition reportedOk (answer : httpResult) : bool :=
  negb (present answer.1) && present answer.2 &&
  (statusIs answer.2 201 || statusIs answer.2 409).

(** [response ? response.body : undefined] *)
Definition bodyOf (response : option response) : value :=
  match response with
  | Some r => body r
  | None => VUndefined
  end.

(** The ids fetched from the collector, in the order of the requests. *)
Definition fetchedIds (es : list event) : list string :=
  omap (fun e => match e with Get id _ => Some id | _ => None end) es.

Definition isPost (e : event) : bool :=
  match e with
  | Post _ _ => true
  | _ => false
  end.

Definition isFailure (e : event) : bool :=
  match e with
  | Failure _ _ => true
  | _ => false
  end.

Definition posts (es : list event) : nat := length (List.filter isPost es).

Definition failures (es : list event) : nat := length (List.filter isFailure es).

(** The trace this embedding gives a page none of whose fetches gives a
    document, the first of them being request number [n]: for each record
    the fetch and the failure signalled for it.  (The code sends the
    fetches of a page first and signals the failures afterwards; the
    properties stated of a page do not depend on that order.) *)
Fixpoint fetchFailures (E : env) (token : option string) (n : nat)
    (refs : list carryOver) : list event :=
  match refs with
  | [] => []
  | ref :: refs' =>
      let answer := collectorGet E n (collector_id ref) in
      Get (collector_id ref) (authHeader token)
      :: Failure (buildError "get" (CollectorId (collector_id ref)) answer.1 answer.2)
                 (Response answer.2)
      :: fetchFailures E token (S n) refs'
  end.

(** An answer to a fetch that makes [renewUsagePage] signal a failure: not
    a document, and an error or a response to show. *)
Definition fetchFailed (answer : httpResult) : bool :=
  negb (fetchedOk answer) && (present answer.1 || present answer.2).

(** The counters of [w'] are those of [w] after [k] more records fetched
    and reported: two requests each, a fetch that succeeded and a report that
    was accepted or found in conflict, and no failure. *)
Definition advanced (k : nat) (w w' : world) : Prop :=
  requests w' = (requests w + 2 * k)%nat ∧
  getSuccess (usage (stats w')) = (getSuccess (usage (stats w)) + k)%nat ∧
  (reportSuccess (usage (stats w')) + reportConflict (usage (stats w')) =
   reportSuccess (usage (stats w)) + reportConflict (usage (stats w)) + k)%nat ∧
  getFailures (usage (stats w')) = getFailures (usage (stats w)) ∧
  reportFailures (usage (stats w')) = reportFailures (usage (stats w)) ∧
  errors_missingToken (errs w') = errors_missingToken (errs w) ∧
  timer w' = timer w.

(** [m] leaves the pending timer and the retry counter alone, however it
    ends. *)
Definition keepsSchedule {A} (m : M world A) : Prop :=
  ∀ w, match m w with
       | Ok _ w' | Throw _ w' =>
           timer w' = timer w ∧ retries (stats w') = retries (stats w)
       | Pending => True
       end.

(** The scan window of a cycle that starts at clock reading [now]. *)
Definition windowStart (now slack : Z) : Z :=
  utcStartOfMonth (utcStartOfMonth now - 1) - slack.

Definition windowEnd (now : Z) : Z := utcStartOfMonth now - 1.

(** A collector that answers nothing: neither an error nor a response. *)
Definition silentEnv : env :=
  {| pageSize := 2; secured := true; retryInterval := 86400000;
     slackLimit := 600000; now := exampleNow;
     schemaProps := ["start"; "end"; "measured_usage"]%string;
     allDocs := fun _ _ => scanOf [exampleRow; exampleRow; exampleRow];
     collectorGet := fun _ _ => (None, None);
     collectorPost := fun _ _ => (None, None) |}.

(** A collector that answers every fetch with status [code]. *)
Definition failingEnv (rows : list row) (code : Z) : env :=
  {| pageSize := 2; secured := false; retryInterval := 86400000;
     slackLimit := 600000; now := exampleNow;
     schemaProps := ["start"; "end"; "measured_usage"]%string;
     allDocs := fun _ _ => scanOf rows;
     collectorGet := fun _ _ =>
       (None, Some {| statusCode := code; body := VUndefined |});
     collectorPost := fun _ _ =>
       (None, Some {| statusCode := 201; body := VUndefined |}) |}.

End Cycle.

(** ** The slack window of the renewer: [SLACK], [msDimensions], [slackLimit] *)

Module Slack.

Definition isDigit (c : ascii) : bool :=
  ((48 <=? N_of_ascii c) && (N_of_ascii c <=? 57))%N.

(** [[MDhms]] *)
Definition isScale (c : ascii) : bool :=
  match c with
  | "M" | "D" | "h" | "m" | "s" => true
  | _ => false
  end%char.

(** [/^[0-9]+[MDhms]$/.test(s)] *)
Fixpoint wellFormed (s : string) : bool :=
  match s with
  | EmptyString => false
  | String d rest =>
      isDigit d &&
      match rest with
      | String c EmptyString => isScale c
      | _ => wellFormed rest
      end
  end.

(** [s.charAt(s.length - 1)] *)
Fixpoint lastChar (s : string) : ascii :=
  match s with
  | EmptyString => "000"%char
  | String c EmptyString => c
  | String _ rest => lastChar rest
  end.

(** The number that [s.match(/[0-9]+/)[0]] stands for in a product, for a
    string that starts with a digit: the value of its leading digits
    (exact as long as it is below 2^53). *)
Fixpoint digitsValue (acc : Z) (s : string) : Z :=
  match s with
  | EmptyString => acc
  | String c rest =>
      if isDigit c then digitsValue (10 * acc + (Z.of_N (N_of_ascii c) - 48)) rest
      else acc
  end.

(** [[0-9]*] *)
Fixpoint allDigits (s : string) : bool :=
  match s with
  | EmptyString => true
  | String c rest => isDigit c && allDigits rest
  end.

Record slackWindow := { scale : ascii; width : Z }.

(** [slack]; an unset [SLACK] is tested as the string ["undefined"]. *)
Definition slack (SLACK : option string) : slackWindow :=
  match SLACK with
  | Some s =>
      if wellFormed s then {| scale := lastChar s; width := digitsValue 0 s |}
      else {| scale := "m"; width := 10 |}
  | None => {| scale := "m"; width := 10 |}
  end.

(** [msDimensions[scale]], [undefined] for any other property name. *)
Definition msDimensions (scale : ascii) : option Z :=
  match scale with
  | "M" => Some 2678400000
  | "D" => Some 86400000
  | "h" => Some 3600000
  | "m" => Some 60000
  | "s" => Some 1000
  | _ => None
  end%char.

(** [slackLimit]: the product, [NaN] (here [None]) if the scale had no
    dimension. *)
Definition slackLimit (SLACK : option string) : option Z :=
  d ← msDimensions (scale (slack SLACK)); Some (d * width (slack SLACK)).

End Slack.

(** ** The routes of the provisioning plugin

    A handler runs on the state of the plugin: its three plan resolvers and
    the resolvers of abacus-plan-mappings.  It returns the reply, or throws,
    which the router turns into an error response. *)

Module Routes.
Import Js Resolver Provisioning Mappings.

Record reply (B : Type) := { status : Z; content : option B }.
Arguments status {B} r.
Arguments content {B} r.

Section Handlers.
Context {Plan Path : Type}.
Context (meteringPlans ratingPlans pricingPlans : @bundle Plan).

Record plugin := {
  meteringStore : resolver Plan Plan;
  ratingStore : resolver Plan Plan;
  pricingStore : resolver Plan Plan;
  planMappings : stores
}.

Definition onMeteringStore {A} (m : M (resolver Plan Plan) A) : M plugin A :=
  zoom meteringStore
       (fun r s => {| meteringStore := r; ratingStore := ratingStore s;
                      pricingStore := pricingStore s; planMappings := planMappings s |}) m.

Definition onRatingStore {A} (m : M (resolver Plan Plan) A) : M plugin A :=
  zoom ratingStore
       (fun r s => {| meteringStore := meteringStore s; ratingStore := r;
                      pricingStore := pricingStore s; planMappings := planMappings s |}) m.

Definition onPricingStore {A} (m : M (resolver Plan Plan) A) : M plugin A :=
  zoom pricingStore
       (fun r s => {| meteringStore := meteringStore s; ratingStore := ratingStore s;
                      pricingStore := r; planMappings := planMappings s |}) m.

Definition onMappings {A} (m : M stores A) : M plugin A :=
  zoom planMappings
       (fun t s => {| meteringStore := meteringStore s; ratingStore := ratingStore s;
                      pricingStore := pricingStore s; planMappings := t |}) m.

(** [rtype]: the resource id itself. *)
Definition rtype (rid : string) : M plugin string := ret rid.

(** The parameters of the resource instance route that the handler looks
    at, and [path], the object it makes of all of them. *)
Record instanceRequest := {
  resource_id : string;
  plan_id : string;
  path : Path
}.

(** GET .../resources/:resource_id/plans/:plan_id/instances/... *)
Definition getInstance (req : instanceRequest) : M plugin (reply Path) :=
  let* resourceType := rtype (resource_id req) in
  let* id := onMappings (onMetering (mappedMeteringPlan resourceType (plan_id req))) in
  match id with
  | Some id =>
      if nonEmpty id then
        let* mp := onMeteringStore (metering meteringPlans id) in
        match mp with
        | Some _ => ret {| status := 200; content := Some (path req) |}
        | None => ret {| status := 404; content := Some (path req) |}
        end
      else ret {| status := 404; content := None |}
  | None => ret {| status := 404; content := None |}
  end.

(** POST /v1/metering/plans/:metering_plan_id and its two siblings *)
Definition postMeteringPlan (metering_plan_id : string) (body : Plan)
  : M plugin (reply Plan) :=
  onMeteringStore (newMetering meteringPlans metering_plan_id body);;
  ret {| status := 201; content := None |}.

Definition postRatingPlan (rating_plan_id : string) (body : Plan)
  : M plugin (reply Plan) :=
  onRatingStore (newRating ratingPlans rating_plan_id body);;
  ret {| status := 201; content := None |}.

Definition postPricingPlan (pricing_plan_id : string) (body : Plan)
  : M plugin (reply Plan) :=
  onPricingStore (newPricing pricingPlans pricing_plan_id body);;
  ret {| status := 201; content := None |}.

(** GET /v1/metering/plans/:metering_plan_id and its two siblings *)
Definition getMeteringPlan (metering_plan_id : string) : M plugin (reply Plan) :=
  let* mp := onMeteringStore (metering meteringPlans metering_plan_id) in
  match mp with
  | Some mp => ret {| status := 200; content := Some mp |}
  | None => ret {| status := 404; content := None |}
  end.

Definition getRatingPlan (rating_plan_id : string) : M plugin (reply Plan) :=
  let* rp := onRatingStore (rating ratingPlans rating_plan_id) in
  match rp with
  | Some rp => ret {| status := 200; content := Some rp |}
  | None => ret {| status := 404; content := None |}
  end.

Definition getPricingPlan (pricing_plan_id : string) : M plugin (reply Plan) :=
  let* pp := onPricingStore (pricing pricingPlans pricing_plan_id) in
  match pp with
  | Some pp => ret {| status := 200; content := Some pp |}
  | None => ret {| status := 404; content := None |}
  end.

(** POST /v1/provisioning/mappings/metering/resources/:resource_type/plans/:plan_name/:plan_id *)
Definition postMeteringMapping (resource_type plan_name plan_id : string)
  : M plugin (reply string) :=
  onMappings (onMetering (newMeteringMapping resource_type plan_name plan_id));;
  ret {| status := 200; content := None |}.

(** GET /v1/provisioning/mappings/metering/resources/:resource_type/plans/:plan_name/ *)
Definition getMeteringMapping (resource_type plan_name : string)
  : M plugin (reply string) :=
  let* meteringPlanId :=
    onMappings (onMetering (mappedMeteringPlan resource_type plan_name)) in
  if truthyId meteringPlanId then ret {| status := 200; content := meteringPlanId |}
  else ret {| status := 404; content := None |}.

(** What a plan resolver serves for [id] once [p] is stored under it, from
    state [s]: the plan it had cached, else the bundled one, else [p]. *)
Definition served (b : @bundle Plan) (id : string) (p : Plan)
    (s : resolver Plan Plan) : Plan :=
  match cache s !! id with
  | Some cached => cached
  | None =>
      match localResource b id with
      | Some bundled => bundled
      | None => p
      end
  end.

(** The accesses a call added to the log. *)
Definition added (s s' : resolver Plan Plan) : list access :=
  drop (length (log s)) (log s').

End Handlers.

Arguments plugin : clear implicits.
Arguments instanceRequest : clear implicits.

(** *** A small instance *)

Definition examplePlugin : plugin string :=
  {| meteringStore := emptyPlans; ratingStore := emptyPlans;
     pricingStore := emptyPlans; planMappings := exampleStores emptyMappings |}.

Definition exampleRequest : instanceRequest string :=
  {| resource_id := "object-storage"; plan_id := "basic";
     path := "object-storage/basic" |}.

(** A bundle with one plan, [basic]. *)
Definition basicBundle : @bundle string :=
  {| required := fun id => if String.eqb id "basic" then Some "bundled basic"%string
                           else None;
     valid := fun _ => true |}.

End Routes.

(** * Properties *)

Module EncoderFacts.
Import Encoder.

Lemma app_nil_s (t : string) : String.append EmptyString t = t.
Proof. reflexivity. Qed.

Lemma app_cons_s c (s t : string) :
  String.append (String c s) t = String c (String.append s t).
Proof. reflexivity. Qed.

Ltac sapp := rewrite ?app_cons_s, ?app_nil_s.

Lemma length_zeros k : String.length (zeros k) = k.
Proof. induction k; simpl; congruence. Qed.

Lemma string_length_app (s1 s2 : string) :
  String.length (String.append s1 s2) = (String.length s1 + String.length s2)%nat.
Proof. induction s1 as [|c s1 IH]; sapp; simpl; [reflexivity | now rewrite IH]. Qed.

Lemma string_app_assoc (s1 s2 s3 : string) :
  String.append (String.append s1 s2) s3 = String.append s1 (String.append s2 s3).
Proof. induction s1 as [|c s1 IH]; sapp; [reflexivity | now rewrite IH]. Qed.

Lemma string_app_nil_r (s : string) : String.append s EmptyString = s.
Proof. induction s as [|c s IH]; sapp; [reflexivity | now rewrite IH]. Qed.

Lemma zeros_snoc k :
  String.append (zeros k) (String "0"%char EmptyString) = zeros (S k).
Proof.
  induction k as [|k IH]; [reflexivity|].
  cbn [zeros] in *. sapp. now rewrite IH.
Qed.

Lemma length_fixedWidth w n : String.length (fixedWidth w n) = w.
Proof.
  revert n; induction w as [|w IH]; intros n; simpl; [reflexivity|].
  rewrite string_length_app, IH; simpl; lia.
Qed.

Lemma fixedWidth_zero w : fixedWidth w 0 = zeros w.
Proof.
  induction w as [|w IH]; [reflexivity|].
  cbn [fixedWidth]. rewrite Z.div_0_l, Z.mod_0_l, IH by lia.
  apply zeros_snoc.
Qed.

(** Zero padding the decimal digits of [n] to width [w] gives its [w] low
    digits, as soon as [n] fits in [w] digits and the fuel covers them. *)
Lemma padTo_decimal_fuel f : forall w n,
  0 <= n < 10 ^ Z.of_nat w -> n < 10 ^ Z.of_nat f -> (1 <= w)%nat ->
  padTo w (decimal_fuel f n) = fixedWidth w n /\
  (String.length (decimal_fuel f n) <= w)%nat.
Proof.
  induction f as [|f IH]; intros w n Hn Hf Hw.
  - assert (n = 0) as -> by (simpl in Hf; lia).
    unfold padTo. cbn [decimal_fuel String.length].
    rewrite Nat.sub_0_r, string_app_nil_r, fixedWidth_zero.
    split; [reflexivity | lia].
  - destruct w as [|w]; [lia|]. cbn [decimal_fuel fixedWidth].
    destruct (Z.ltb_spec n 10) as [Hlt|Hge].
    + unfold padTo. simpl String.length. rewrite Nat.sub_succ, Nat.sub_0_r.
      rewrite (Z.div_small n 10), (Z.mod_small n 10), fixedWidth_zero by lia.
      split; [reflexivity | lia].
    + assert (Hw' : (1 <= w)%nat).
      { destruct w; [|lia]. simpl in Hn. lia. }
      assert (Hdiv : 0 <= n / 10 < 10 ^ Z.of_nat w).
      { split; [apply Z.div_pos; lia|].
        apply Z.div_lt_upper_bound; [lia|].
        replace (10 * 10 ^ Z.of_nat w) with (10 ^ Z.of_nat (S w)); [lia|].
        rewrite Nat2Z.inj_succ, Z.pow_succ_r; lia. }
      assert (Hdivf : n / 10 < 10 ^ Z.of_nat f).
      { apply Z.div_lt_upper_bound; [lia|].
        replace (10 * 10 ^ Z.of_nat f) with (10 ^ Z.of_nat (S f)); [lia|].
        rewrite Nat2Z.inj_succ, Z.pow_succ_r; lia. }
      destruct (IH w (n / 10) Hdiv Hdivf Hw') as [Hpad Hlen].
      rewrite <- Hpad. unfold padTo.
      rewrite string_length_app, string_app_assoc. simpl String.length.
      replace (S w - (String.length (decimal_fuel f (n / 10)) + 1))%nat
        with (w - String.length (decimal_fuel f (n / 10)))%nat by lia.
      split; [reflexivity | lia].
Qed.

Lemma toString_fuel n : 0 <= n -> n < 10 ^ Z.of_nat (S (Z.to_nat (Z.log2 n))).
Proof.
  intros Hn. destruct (Z.eq_dec n 0) as [->|Hne]; [reflexivity|].
  assert (Hlog := Z.log2_nonneg n).
  assert (Hspec : n < 2 ^ Z.succ (Z.log2 n)) by (apply Z.log2_spec; lia).
  rewrite Nat2Z.inj_succ, Z2Nat.id by lia.
  eapply Z.lt_le_trans; [exact Hspec|].
  apply Z.pow_le_mono_l; lia.
Qed.

Lemma pad16_fixedWidth t : 0 <= t < 10 ^ 16 -> pad16 t = fixedWidth 16 t.
Proof.
  intros Ht. unfold pad16, toString.
  apply (padTo_decimal_fuel _ 16%nat t); [exact Ht | apply toString_fuel; lia | lia].
Qed.

Lemma ascii_compare_refl c : Ascii.compare c c = Eq.
Proof. unfold Ascii.compare. apply N.compare_refl. Qed.

Lemma string_compare_refl s : String.compare s s = Eq.
Proof. induction s; simpl; [reflexivity|]. now rewrite ascii_compare_refl. Qed.

Lemma compare_snoc (x y : string) c d :
  String.length x = String.length y ->
  String.compare (String.append x (String c EmptyString))
                 (String.append y (String d EmptyString)) =
  match String.compare x y with
  | Eq => Ascii.compare c d
  | r => r
  end.
Proof.
  revert y; induction x as [|a x IH]; intros [|b y] Hlen; sapp; simpl in *;
    try discriminate.
  - destruct (Ascii.compare c d); reflexivity.
  - destruct (Ascii.compare a b); [apply IH; congruence | reflexivity | reflexivity].
Qed.

Lemma digitChar_compare a b :
  0 <= a < 10 -> 0 <= b < 10 -> a < b ->
  Ascii.compare (digitChar a) (digitChar b) = Lt.
Proof.
  intros Ha Hb Hab. unfold Ascii.compare, digitChar.
  rewrite !N_ascii_embedding by lia.
  apply N.compare_lt_iff. lia.
Qed.

Lemma fixedWidth_lt w : forall a b,
  0 <= a -> a < b -> b < 10 ^ Z.of_nat w ->
  String.compare (fixedWidth w a) (fixedWidth w b) = Lt.
Proof.
  induction w as [|w IH]; intros a b Ha Hab Hb.
  - simpl in Hb. lia.
  - cbn [fixedWidth].
    rewrite compare_snoc by (now rewrite !length_fixedWidth).
    assert (Hle : a / 10 <= b / 10) by (apply Z.div_le_mono; lia).
    destruct (Z.eq_dec (a / 10) (b / 10)) as [Heq|Hne].
    + rewrite Heq, string_compare_refl.
      apply digitChar_compare; try (apply Z.mod_pos_bound; lia).
      rewrite (Z.div_mod a 10), (Z.div_mod b 10) in Hab by lia. lia.
    + rewrite IH; [reflexivity | apply Z.div_pos; lia | lia |].
      apply Z.div_lt_upper_bound; [lia|].
      replace (10 * 10 ^ Z.of_nat w) with (10 ^ Z.of_nat (S w)); [lia|].
      rewrite Nat2Z.inj_succ, Z.pow_succ_r; lia.
Qed.

(** C8: for timestamps [0 <= a < b] of at most 16 decimal digits the keys
    ['t/' + pad16(a)] and ['t/' + pad16(b)] are in strictly increasing
    lexicographic order, and every such key is 18 characters long. *)
Theorem encode_monotone_fixed_length (a b : Z) :
  0 <= a -> a < b -> b < 10 ^ 16 ->
  str_lt (encode a) (encode b) /\
  String.length (encode a) = 18%nat /\ String.length (encode b) = 18%nat.
Proof.
  intros Ha Hab Hb. unfold str_lt, encode.
  rewrite !pad16_fixedWidth by lia.
  split; [|split].
  - change (String.compare (fixedWidth 16 a) (fixedWidth 16 b) = Lt).
    apply fixedWidth_lt; [lia | lia | exact Hb].
  - rewrite string_length_app, length_fixedWidth. reflexivity.
  - rewrite string_length_app, length_fixedWidth. reflexivity.
Qed.

Lemma encode_monotone_fixed_length_witness :
  str_lt (encode 1709251200000) (encode 1711929599999) /\
  String.length (encode 1709251200000) = 18%nat /\
  String.length (encode 1711929599999) = 18%nat.
Proof.
  apply (encode_monotone_fixed_length 1709251200000 1711929599999); lia.
Defined.

Example encode_example : encode 1709251200000 = "t/0001709251200000"%string.
Proof. vm_compute. reflexivity. Qed.

End EncoderFacts.

Module UsageFacts.
Import Js Usage.

Lemma bind_ok {S A B} (m : M S A) (k : A -> M S B) s a s' :
  m s = Ok a s' -> bind m k s = k a s'.
Proof. intros H. unfold bind. now rewrite H. Qed.

Lemma deref_ok (h : heap) l o : h !! l = Some o -> deref l h = Ok o h.
Proof. intros H. unfold deref. now rewrite H. Qed.

Lemma getProp_ok (h : heap) l o k :
  h !! l = Some o ->
  getProp (VRef l) k h = Ok (default VUndefined (propsOf o !! k)) h.
Proof. intros H. unfold getProp. now rewrite (bind_ok _ _ _ _ _ (deref_ok _ _ _ H)). Qed.

Lemma setProp_ok (h : heap) l o k x :
  h !! l = Some o ->
  setProp (VRef l) k x h = Ok tt (<[l := withProps o (<[k := x]> (propsOf o))]> h).
Proof. intros H. unfold setProp. now rewrite (bind_ok _ _ _ _ _ (deref_ok _ _ _ H)). Qed.

Lemma alloc_fresh (h : heap) : h !! fresh (dom h) = None.
Proof. apply not_elem_of_dom, is_fresh. Qed.

Lemma zeroed_measure o : propsOf (zeroed o) !! "measure" = propsOf o !! "measure".
Proof.
  unfold zeroed. destruct (propsOf o !! "measure") as [[| | | |name|]|] eqn:E; try exact E.
  destruct (String.prefix "previous" name); [|exact E].
  destruct o; simpl in *; rewrite lookup_insert_ne by discriminate; exact E.
Qed.

Lemma zeroed_other o k : k ≠ "quantity" -> propsOf (zeroed o) !! k = propsOf o !! k.
Proof.
  intros Hk. unfold zeroed.
  destruct (propsOf o !! "measure") as [[| | | |name|]|]; try reflexivity.
  destruct (String.prefix "previous" name); [|reflexivity].
  destruct o; simpl; now rewrite lookup_insert_ne by congruence.
Qed.

Lemma zeroed_idem o : zeroed (zeroed o) = zeroed o.
Proof.
  unfold zeroed at 1. rewrite zeroed_measure. unfold zeroed.
  destruct (propsOf o !! "measure") as [[| | | |name|]|]; try reflexivity.
  destruct (String.prefix "previous" name); [|reflexivity].
  destruct o; simpl; now rewrite insert_insert_eq.
Qed.

Lemma zeroed_OObj props : zeroed (OObj props) = OObj (propsOf (zeroed (OObj props))).
Proof.
  unfold zeroed; simpl.
  destruct (props !! "measure") as [[| | | |name|]|]; try reflexivity.
  now destruct (String.prefix "previous" name).
Qed.

Lemma zeroBody_step (h : heap) e :
  measureObject h e ->
  ∃ o, h !! e = Some o ∧ zeroBody (VRef e) h = Ok tt (<[e := zeroed o]> h).
Proof.
  intros (eprops & name & He & Hm). exists (OObj eprops). split; [exact He|].
  unfold zeroBody. rewrite (bind_ok _ _ _ _ _ (getProp_ok _ _ _ _ He)).
  simpl. rewrite Hm. simpl. unfold bind at 1, startsWith, ret.
  unfold zeroed. simpl. rewrite Hm.
  destruct (String.prefix "previous" name).
  - exact (setProp_ok _ _ _ "quantity" (VNum 0) He).
  - now rewrite insert_id.
Qed.

Lemma measureObject_insert_zeroed (h : heap) e o l :
  h !! e = Some o -> measureObject h l -> measureObject (<[e := zeroed o]> h) l.
Proof.
  intros He (lprops & name & Hl & Hm).
  destruct (decide (e = l)) as [->|Hne].
  - rewrite He in Hl. injection Hl as ->.
    exists (propsOf (zeroed (OObj lprops))), name.
    rewrite lookup_insert_eq, <- zeroed_OObj. split; [reflexivity|].
    now rewrite zeroed_measure.
  - exists lprops, name. now rewrite lookup_insert_ne.
Qed.

(** The whole loop: every listed measure object is [zeroed], nothing else
    in the store changes. *)
Lemma zeroLoop_spec (es : list loc) : forall h : heap,
  (∀ e, e ∈ es -> measureObject h e) ->
  ∃ h' : heap,
    forEach zeroBody (VRef <$> es) h = Ok tt h' ∧
    ∀ l, h' !! l = if decide (l ∈ es) then zeroed <$> h !! l else h !! l.
Proof.
  induction es as [|e es IH]; intros h Hes.
  - exists h. split; [reflexivity|]. intros l.
    destruct (decide (l ∈ [])) as [Hin|_]; [inversion Hin | reflexivity].
  - destruct (zeroBody_step h e) as (o & He & Hstep); [apply Hes; left|].
    destruct (IH (<[e := zeroed o]> h)) as (h' & Hrun & Hlook).
    { intros l Hl. apply measureObject_insert_zeroed; [exact He|]. apply Hes. now right. }
    exists h'. split.
    + cbn [fmap list_fmap forEach]. now rewrite (bind_ok _ _ _ _ _ Hstep).
    + intros l. rewrite Hlook.
      destruct (decide (l = e)) as [->|Hne].
      * rewrite lookup_insert_eq, He.
        rewrite (decide_True (P := e ∈ e :: es)) by left.
        destruct (decide (e ∈ es)); simpl; [now rewrite zeroed_idem | reflexivity].
      * rewrite lookup_insert_ne by congruence.
        destruct (decide (l ∈ es)) as [Hin|Hnin].
        -- now rewrite (decide_True (P := l ∈ e :: es)) by now right.
        -- rewrite (decide_False (P := l ∈ e :: es)); [reflexivity|].
           intros Hc. apply elem_of_cons in Hc as [?|?]; contradiction.
Qed.

(** [zeroUsage] on a usage document: a new object with the document's
    fields, the measure objects of the (shared) array [zeroed]. *)
Lemma zeroUsage_spec (h : heap) d props entries :
  usageDoc h d props entries ->
  ∃ h' : heap,
    zeroUsage (VRef d) h = Ok (VRef (fresh (dom h))) h' ∧
    h' !! fresh (dom h) = Some (OObj props) ∧
    ∀ l, l ≠ fresh (dom h) ->
         h' !! l = if decide (l ∈ entries) then zeroed <$> h !! l else h !! l.
Proof.
  intros (Hd & a & aprops & Hmu & Ha & Hent).
  set (c := fresh (dom h)).
  assert (Hc : h !! c = None) by apply alloc_fresh.
  set (h1 := <[c := OObj props]> h).
  assert (Hother : ∀ l o, h !! l = Some o -> h1 !! l = Some o).
  { intros l o Hl. unfold h1. rewrite lookup_insert_ne; [exact Hl | congruence]. }
  destruct (zeroLoop_spec entries h1) as (h' & Hloop & Hlook).
  { intros e He. destruct (Hent e He) as (eprops & name & Hl & Hm).
    exists eprops, name. split; [now apply Hother | exact Hm]. }
  exists h'. split; [|split].
  - unfold zeroUsage.
    assert (Hext : extend_new (VRef d) h = Ok (VRef c) h1).
    { unfold extend_new. now rewrite (bind_ok _ _ _ _ _ (deref_ok _ _ _ Hd)). }
    rewrite (bind_ok _ _ _ _ _ Hext).
    assert (Hc1 : h1 !! c = Some (OObj props)) by apply lookup_insert_eq.
    rewrite (bind_ok _ _ _ _ _ (getProp_ok _ _ _ "measured_usage" Hc1)).
    simpl propsOf. rewrite Hmu. simpl default.
    assert (Hit : iterate (VRef a) h1 = Ok (VRef <$> entries) h1).
    { unfold iterate. now rewrite (bind_ok _ _ _ _ _ (deref_ok _ _ _ (Hother _ _ Ha))). }
    rewrite (bind_ok _ _ _ _ _ Hit).
    change (bind (forEach zeroBody (VRef <$> entries)) (fun _ => ret (VRef c)) h1
            = Ok (VRef c) h').
    now rewrite (bind_ok _ _ _ _ _ Hloop).
  - rewrite Hlook. rewrite decide_False; [apply lookup_insert_eq|].
    intros Hin. destruct (Hent _ Hin) as (? & ? & Hl & _). fold c in Hl. congruence.
  - intros l Hl. rewrite Hlook. unfold h1. now rewrite lookup_insert_ne by congruence.
Qed.

Lemma zeroed_quantity o name :
  propsOf o !! "measure" = Some (VStr name) ->
  propsOf (zeroed o) !! "quantity" =
    if String.prefix "previous" name then Some (VNum 0) else propsOf o !! "quantity".
Proof.
  intros Hm. unfold zeroed. rewrite Hm.
  destruct (String.prefix "previous" name); [|reflexivity].
  destruct o; simpl; apply lookup_insert_eq.
Qed.

Lemma usageDoc_array_not_entry (h : heap) a elems aprops (entries : list loc) :
  h !! a = Some (OArr elems aprops) ->
  (∀ e, e ∈ entries -> measureObject h e) -> a ∉ entries.
Proof.
  intros Ha Hent Hin. destruct (Hent _ Hin) as (? & ? & He & _). congruence.
Qed.

(** C6: [zeroUsage] returns a new object with the fields of the input
    document; in its [measured_usage] every entry whose measure name starts
    with "previous" has quantity 0, every other entry keeps its quantity, no
    entry changes in another field, and nothing else in the store changes. *)
Theorem zeroUsage_zeroes_previous (h : heap) d props entries :
  usageDoc h d props entries ->
  ∃ c (h' : heap),
    zeroUsage (VRef d) h = Ok (VRef c) h' ∧
    h !! c = None ∧
    h' !! c = Some (OObj props) ∧
    (∃ mu, props !! "measured_usage" = Some mu ∧
           elements h' mu = Some (VRef <$> entries)) ∧
    (∀ e eprops name,
        e ∈ entries -> h !! e = Some (OObj eprops) ->
        eprops !! "measure" = Some (VStr name) ->
        field h' (VRef e) "quantity" =
          (if String.prefix "previous" name then Some (VNum 0)
           else field h (VRef e) "quantity") ∧
        ∀ k, k ≠ "quantity" -> field h' (VRef e) k = field h (VRef e) k) ∧
    (∀ l, l ∉ entries -> l ≠ c -> h' !! l = h !! l).
Proof.
  intros Hdoc. destruct (zeroUsage_spec h d props entries Hdoc) as (h' & Hrun & Hc & Hlook).
  destruct Hdoc as (Hd & a & aprops & Hmu & Ha & Hent).
  exists (fresh (dom h)), h'. split; [exact Hrun|].
  split; [apply alloc_fresh|]. split; [exact Hc|].
  assert (Hfresh : ∀ l o, h !! l = Some o -> l ≠ fresh (dom h)).
  { intros l o Hl ->. rewrite alloc_fresh in Hl. discriminate. }
  split; [|split].
  - exists (VRef a). split; [exact Hmu|]. unfold elements.
    rewrite Hlook by eauto.
    rewrite decide_False by eauto using usageDoc_array_not_entry.
    now rewrite Ha.
  - intros e eprops name He Hl Hm. unfold field.
    rewrite Hlook by eauto. rewrite decide_True by exact He.
    rewrite Hl. simpl. split.
    + rewrite (zeroed_quantity (OObj eprops) name Hm). simpl.
      now destruct (String.prefix "previous" name).
    + intros k Hk. now rewrite zeroed_other.
  - intros l Hnin Hl. rewrite Hlook by exact Hl. now rewrite decide_False.
Qed.

Lemma exampleHeap_usageDoc :
  usageDoc exampleHeap 1%positive exampleDocProps [3%positive; 4%positive].
Proof.
  split; [reflexivity|].
  exists 2%positive, ∅. split; [reflexivity|]. split; [reflexivity|].
  intros e He. apply elem_of_cons in He as [->|He].
  { eexists _, _. split; reflexivity. }
  apply elem_of_cons in He as [->|He].
  { eexists _, _. split; reflexivity. }
  inversion He.
Defined.

Lemma zeroUsage_zeroes_previous_witness :
  ∃ c (h' : heap),
    zeroUsage (VRef 1%positive) exampleHeap = Ok (VRef c) h' ∧
    h' !! c = Some (OObj exampleDocProps).
Proof.
  destruct (zeroUsage_zeroes_previous exampleHeap 1%positive exampleDocProps
              [3%positive; 4%positive] exampleHeap_usageDoc)
    as (c & h' & Hrun & _ & Hc & _).
  exists c, h'. split; assumption.
Defined.

(** The example of the design document: quantities [5, 2] become [0, 2],
    the other fields stay. *)
Example zeroUsage_example :
  quantities exampleHeap (VRef 1%positive) = Some [VNum 5; VNum 2] ∧
  observe (fun c h' => (quantities h' c, field h' c "id", field h' c "start",
                        field h' c "end"))
          (zeroUsage (VRef 1%positive) exampleHeap)
  = Some (Some [VNum 0; VNum 2], Some (VStr "U1"), Some (VNum 5), Some (VNum 9)).
Proof. split; vm_compute; reflexivity. Qed.

Lemma usageDoc_set (h : heap) d props entries k x :
  usageDoc h d props entries -> k ≠ "measured_usage" -> k ≠ "measure" ->
  usageDoc (<[d := OObj (<[k := x]> props)]> h) d (<[k := x]> props) entries.
Proof.
  intros (Hd & a & aprops & Hmu & Ha & Hent) Hk1 Hk2.
  split; [apply lookup_insert_eq|].
  exists a, aprops. split; [now rewrite lookup_insert_ne by congruence|].
  split; [rewrite lookup_insert_ne; [exact Ha | congruence]|].
  intros e He. destruct (Hent e He) as (eprops & name & Hl & Hm).
  destruct (decide (d = e)) as [->|Hne].
  - rewrite Hd in Hl. injection Hl as ->.
    exists (<[k := x]> eprops), name. split; [apply lookup_insert_eq|].
    now rewrite lookup_insert_ne by congruence.
  - exists eprops, name. split; [now rewrite lookup_insert_ne | exact Hm].
Qed.

(** [refreshUsage] on a usage document: the input object gets the month
    start written into [start] and [end], then [zeroUsage] runs on it. *)
Lemma refreshUsage_spec (h : heap) d props entries now :
  usageDoc h d props entries ->
  let monthStart := utcStartOfMonth now in
  let props2 := <["end" := VNum monthStart]> (<["start" := VNum monthStart]> props) in
  let h2 : heap := <[d := OObj props2]> h in
  ∃ h' : heap,
    refreshUsage now (VRef d) h = Ok (VRef (fresh (dom h))) h' ∧
    h' !! fresh (dom h) = Some (OObj props2) ∧
    ∀ l, l ≠ fresh (dom h) ->
         h' !! l = if decide (l ∈ entries) then zeroed <$> h2 !! l else h2 !! l.
Proof.
  intros Hdoc monthStart props2 h2.
  assert (Hd : h !! d = Some (OObj props)) by apply Hdoc.
  assert (Hdoc2 : usageDoc h2 d props2 entries).
  { unfold h2, props2.
    pose proof (usageDoc_set h d props entries "start" (VNum monthStart) Hdoc) as H1.
    specialize (H1 ltac:(discriminate) ltac:(discriminate)).
    pose proof (usageDoc_set _ d _ entries "end" (VNum monthStart) H1) as H2.
    specialize (H2 ltac:(discriminate) ltac:(discriminate)).
    now rewrite insert_insert_eq in H2. }
  assert (Hdom : dom h2 = dom h).
  { unfold h2. apply dom_insert_lookup_L. eauto. }
  destruct (zeroUsage_spec h2 d props2 entries Hdoc2) as (h' & Hrun & Hc & Hlook).
  rewrite Hdom in Hrun, Hc, Hlook.
  exists h'. split; [|split; assumption].
  unfold refreshUsage. fold monthStart.
  rewrite (bind_ok _ _ _ _ _ (setProp_ok _ _ _ "start" (VNum monthStart) Hd)).
  simpl withProps. simpl propsOf.
  assert (Hd1 : (<[d := OObj (<["start" := VNum monthStart]> props)]> h : heap) !! d
                = Some (OObj (<["start" := VNum monthStart]> props)))
    by apply lookup_insert_eq.
  rewrite (bind_ok _ _ _ _ _ (setProp_ok _ _ _ "end" (VNum monthStart) Hd1)).
  simpl withProps. simpl propsOf. rewrite insert_insert_eq. exact Hrun.
Qed.

(** *** Whatever the input is *)

Lemma quantityFrame_refl (h : heap) : quantityFrame h h.
Proof. intros l o Hl. exists o. auto. Qed.

Lemma quantityFrame_trans (h1 h2 h3 : heap) :
  quantityFrame h1 h2 -> quantityFrame h2 h3 -> quantityFrame h1 h3.
Proof.
  intros H12 H23 l o Hl.
  destruct (H12 l o Hl) as (o2 & Hl2 & Hk2).
  destruct (H23 l o2 Hl2) as (o3 & Hl3 & Hk3).
  exists o3. split; [exact Hl3|]. intros k Hk. now rewrite Hk3, Hk2.
Qed.

Lemma zeroBody_frame v (h h' : heap) :
  zeroBody v h = Ok tt h' -> quantityFrame h h'.
Proof.
  unfold zeroBody, bind. destruct v as [| | | | |l0]; try discriminate.
  cbn [getProp]. unfold bind, deref.
  destruct (h !! l0) as [o0|] eqn:Hl0; [|discriminate].
  cbn [ret]. destruct (default VUndefined (propsOf o0 !! "measure")) as [| | | |name|];
    try discriminate.
  cbn [startsWith ret]. destruct (String.prefix "previous" name).
  - rewrite (setProp_ok _ _ _ "quantity" (VNum 0) Hl0). intros [= <-].
    intros l o Hl. destruct (decide (l0 = l)) as [<-|Hne].
    + rewrite Hl0 in Hl. injection Hl as <-. rewrite lookup_insert_eq.
      eexists. split; [reflexivity|]. intros k Hk.
      destruct o0; simpl; now rewrite lookup_insert_ne by congruence.
    + rewrite lookup_insert_ne by exact Hne. exists o. auto.
  - intros [= <-]. apply quantityFrame_refl.
Qed.

Lemma zeroLoop_frame vs : forall h h' : heap,
  forEach zeroBody vs h = Ok tt h' -> quantityFrame h h'.
Proof.
  induction vs as [|v vs IH]; intros h h' Hrun.
  - injection Hrun as <-. apply quantityFrame_refl.
  - cbn [forEach] in Hrun. unfold bind in Hrun.
    destruct (zeroBody v h) as [[] h1| |] eqn:Hv; try discriminate.
    eapply quantityFrame_trans; [eapply zeroBody_frame; exact Hv | now apply IH].
Qed.

(** Whenever [zeroUsage] returns, it returns a new object that has, in
    every property but [quantity], what [_.extend] copied from the input. *)
Lemma zeroUsage_returns l0 o0 (h : heap) c (h' : heap) :
  h !! l0 = Some o0 ->
  zeroUsage (VRef l0) h = Ok c h' ->
  ∀ k, k ≠ "quantity" -> field h' c k = Some (default VUndefined (enumerable o0 !! k)).
Proof.
  intros Hl0 Hrun k Hk. unfold zeroUsage in Hrun.
  assert (Hext : extend_new (VRef l0) h
                 = Ok (VRef (fresh (dom h))) (<[fresh (dom h) := OObj (enumerable o0)]> h)).
  { unfold extend_new. now rewrite (bind_ok _ _ _ _ _ (deref_ok _ _ _ Hl0)). }
  rewrite (bind_ok _ _ _ _ _ Hext) in Hrun.
  set (cl := fresh (dom h)) in *.
  set (h1 := <[cl := OObj (enumerable o0)]> h) in *.
  assert (Hc1 : h1 !! cl = Some (OObj (enumerable o0))) by apply lookup_insert_eq.
  rewrite (bind_ok _ _ _ _ _ (getProp_ok _ _ _ "measured_usage" Hc1)) in Hrun.
  unfold bind at 1 in Hrun.
  destruct (iterate _ h1) as [vs h2| |] eqn:Hit; try discriminate.
  assert (h2 = h1) as ->.
  { revert Hit. unfold iterate.
    destruct (default VUndefined _) as [| | | |str|l]; try discriminate.
    - now intros [= _ <-].
    - unfold bind, deref. destruct (h1 !! l) as [[|es ps]|]; try discriminate.
      now intros [= _ <-]. }
  change (bind (forEach zeroBody vs) (fun _ => ret (VRef cl)) h1 = Ok c h') in Hrun.
  unfold bind in Hrun.
  destruct (forEach zeroBody vs h1) as [[] h3| |] eqn:Hloop; try discriminate.
  injection Hrun as <- <-.
  destruct (zeroLoop_frame _ _ _ Hloop cl _ Hc1) as (o' & Hl' & Hsame).
  unfold field. rewrite Hl'. simpl. now rewrite (Hsame k Hk).
Qed.

(** C7: the document [refreshUsage] produces has [start] and [end] both
    equal to the epoch milliseconds of the beginning of the UTC month that
    contains the clock reading: on a usage document it does produce one,
    and on any input whatsoever the document it returns, if it returns, has
    them so. *)
Theorem refreshUsage_start_end (h : heap) now :
  (∀ d props entries,
      usageDoc h d props entries ->
      ∃ c (h' : heap),
        refreshUsage now (VRef d) h = Ok c h' ∧
        field h' c "start" = Some (VNum (utcStartOfMonth now)) ∧
        field h' c "end" = Some (VNum (utcStartOfMonth now))) ∧
  (∀ usage c (h' : heap),
      refreshUsage now usage h = Ok c h' ->
      field h' c "start" = Some (VNum (utcStartOfMonth now)) ∧
      field h' c "end" = Some (VNum (utcStartOfMonth now))).
Proof.
  assert (Hany : ∀ usage c (h' : heap),
             refreshUsage now usage h = Ok c h' ->
             field h' c "start" = Some (VNum (utcStartOfMonth now)) ∧
             field h' c "end" = Some (VNum (utcStartOfMonth now))).
  { intros usage c h' Hrun. unfold refreshUsage in Hrun.
    destruct usage as [| | | | |l0]; try (unfold bind in Hrun; discriminate).
    destruct (h !! l0) as [o0|] eqn:Hl0;
      [|unfold bind, setProp, bind, deref in Hrun; rewrite Hl0 in Hrun; discriminate].
    rewrite (bind_ok _ _ _ _ _ (setProp_ok _ _ _ "start" _ Hl0)) in Hrun.
    match type of Hrun with
    | bind _ _ ?h1 = _ =>
        assert (Hl1 : h1 !! l0 = Some (withProps o0 (<["start" := VNum (utcStartOfMonth now)]>
                                                      (propsOf o0))))
          by apply lookup_insert_eq
    end.
    rewrite (bind_ok _ _ _ _ _ (setProp_ok _ _ _ "end" _ Hl1)) in Hrun.
    match type of Hrun with
    | zeroUsage _ ?h2 = _ =>
        assert (Hl2 : h2 !! l0 =
                      Some (withProps o0 (<["end" := VNum (utcStartOfMonth now)]>
                                          (<["start" := VNum (utcStartOfMonth now)]>
                                             (propsOf o0)))))
          by (rewrite lookup_insert_eq; now destruct o0)
    end.
    pose proof (zeroUsage_returns _ _ _ _ _ Hl2 Hrun) as Hfield.
    rewrite (Hfield "start"), (Hfield "end") by discriminate.
    destruct o0 as [p|es p]; cbn [withProps enumerable].
    - rewrite lookup_insert_eq, lookup_insert_ne, lookup_insert_eq by discriminate.
      split; reflexivity.
    - rewrite (lookup_union_Some_l _ _ "start" (VNum (utcStartOfMonth now)))
        by (now rewrite lookup_insert_ne, lookup_insert_eq by discriminate).
      rewrite (lookup_union_Some_l _ _ "end" (VNum (utcStartOfMonth now)))
        by apply lookup_insert_eq.
      split; reflexivity. }
  split; [|exact Hany].
  intros d props entries Hdoc.
  destruct (refreshUsage_spec h d props entries now Hdoc) as (h' & Hrun & _ & _).
  exists (VRef (fresh (dom h))), h'. split; [exact Hrun|]. exact (Hany _ _ _ Hrun).
Qed.

Lemma refreshUsage_start_end_witness :
  ∃ c (h' : heap),
    refreshUsage exampleNow (VRef 1%positive) exampleHeap = Ok c h' ∧
    field h' c "start" = Some (VNum (utcStartOfMonth exampleNow)) ∧
    field h' c "end" = Some (VNum (utcStartOfMonth exampleNow)).
Proof.
  exact (proj1 (refreshUsage_start_end exampleHeap exampleNow) 1%positive
           exampleDocProps [3%positive; 4%positive] exampleHeap_usageDoc).
Defined.

(** The example of the design document: at 2024-03-15T10:00Z the month
    starts at 2024-03-01T00:00Z. *)
Example utcStartOfMonth_example : utcStartOfMonth exampleNow = exampleMonthStart.
Proof. reflexivity. Qed.

Lemma field_zeroed_or_not (h' : heap) d o (entries : list loc) k :
  h' !! d = (if decide (d ∈ entries) then zeroed <$> Some o else Some o) ->
  k ≠ "quantity" ->
  field h' (VRef d) k = Some (default VUndefined (propsOf o !! k)).
Proof.
  intros Hd Hk. unfold field. rewrite Hd.
  destruct (decide (d ∈ entries)); simpl; [now rewrite zeroed_other | reflexivity].
Qed.

(** C1, as the code has it: [refreshUsage] writes the month start into the
    [start] and [end] fields of the input document itself and returns a
    distinct, newly allocated object; no other field of the input document,
    [quantity] apart, changes.  [zeroUsage] on its own returns a new object
    and leaves [start], [end] and every field but [quantity] of its input
    as they were. *)
Theorem refreshUsage_input_effect (h : heap) d props entries now :
  usageDoc h d props entries ->
  (∃ c (h' : heap),
      refreshUsage now (VRef d) h = Ok (VRef c) h' ∧
      c ≠ d ∧ h !! c = None ∧
      field h' (VRef d) "start" = Some (VNum (utcStartOfMonth now)) ∧
      field h' (VRef d) "end" = Some (VNum (utcStartOfMonth now)) ∧
      ∀ k, k ≠ "start" -> k ≠ "end" -> k ≠ "quantity" ->
           field h' (VRef d) k = field h (VRef d) k) ∧
  (∃ c (h' : heap),
      zeroUsage (VRef d) h = Ok (VRef c) h' ∧
      c ≠ d ∧ h !! c = None ∧
      ∀ k, k ≠ "quantity" -> field h' (VRef d) k = field h (VRef d) k).
Proof.
  intros Hdoc.
  assert (Hd : h !! d = Some (OObj props)) by apply Hdoc.
  assert (Hfresh : fresh (dom h) ≠ d).
  { intros Heq. pose proof (alloc_fresh h) as Hf. rewrite Heq in Hf. congruence. }
  assert (Hfld : ∀ k, field h (VRef d) k = Some (default VUndefined (props !! k))).
  { intros k. unfold field. now rewrite Hd. }
  split.
  - destruct (refreshUsage_spec h d props entries now Hdoc) as (h' & Hrun & _ & Hlook).
    exists (fresh (dom h)), h'. split; [exact Hrun|].
    split; [exact Hfresh|]. split; [apply alloc_fresh|].
    specialize (Hlook d ltac:(congruence)). rewrite lookup_insert_eq in Hlook.
    split; [|split].
    + rewrite (field_zeroed_or_not _ _ _ _ "start" Hlook) by discriminate. simpl.
      now rewrite lookup_insert_ne, lookup_insert_eq by discriminate.
    + rewrite (field_zeroed_or_not _ _ _ _ "end" Hlook) by discriminate. simpl.
      now rewrite lookup_insert_eq.
    + intros k Hk1 Hk2 Hk3. rewrite Hfld.
      rewrite (field_zeroed_or_not _ _ _ _ k Hlook) by exact Hk3. simpl.
      now rewrite !lookup_insert_ne by congruence.
  - destruct (zeroUsage_spec h d props entries Hdoc) as (h' & Hrun & _ & Hlook).
    exists (fresh (dom h)), h'. split; [exact Hrun|].
    split; [exact Hfresh|]. split; [apply alloc_fresh|].
    specialize (Hlook d ltac:(congruence)). rewrite Hd in Hlook.
    intros k Hk. rewrite Hfld.
    now rewrite (field_zeroed_or_not _ _ _ _ k Hlook) by exact Hk.
Qed.

Lemma refreshUsage_input_effect_witness :
  ∃ c (h' : heap),
    refreshUsage exampleNow (VRef 1%positive) exampleHeap = Ok (VRef c) h' ∧
    c ≠ 1%positive ∧
    field h' (VRef 1%positive) "start" = Some (VNum (utcStartOfMonth exampleNow)).
Proof.
  destruct (refreshUsage_input_effect exampleHeap 1%positive exampleDocProps
              [3%positive; 4%positive] exampleNow exampleHeap_usageDoc)
    as [(c & h' & Hrun & Hne & _ & Hstart & _) _].
  exists c, h'. repeat split; assumption.
Defined.

(** C1 as stated fails: on the example document [refreshUsage] changes the
    input's [start] (and [end], and the quantity of its first entry, which
    the copy shares with it). *)
Lemma refreshUsage_mutates_input :
  ¬ (∀ now (h : heap) d props entries c (h' : heap),
        usageDoc h d props entries ->
        refreshUsage now (VRef d) h = Ok c h' ->
        field h' (VRef d) "start" = field h (VRef d) "start" ∧
        field h' (VRef d) "end" = field h (VRef d) "end" ∧
        quantities h' (VRef d) = quantities h (VRef d)).
Proof.
  intros Hclaim.
  destruct (refreshUsage_spec exampleHeap 1%positive exampleDocProps
              [3%positive; 4%positive] exampleNow exampleHeap_usageDoc)
    as (h' & Hrun & _ & Hlook).
  destruct (Hclaim _ _ _ _ _ _ _ exampleHeap_usageDoc Hrun) as (Hstart & _).
  specialize (Hlook 1%positive ltac:(vm_compute; discriminate)).
  rewrite lookup_insert_eq in Hlook.
  rewrite decide_False in Hlook
    by (intros Hin; repeat (apply elem_of_cons in Hin as [Hin|Hin]; [discriminate|]);
        inversion Hin).
  unfold field in Hstart. rewrite Hlook in Hstart. revert Hstart.
  vm_compute. discriminate.
Qed.

(** What the shared [measured_usage] array means on the example: after
    [refreshUsage] the input document itself reads quantities [0, 2]. *)
Example refreshUsage_example_input :
  quantities exampleHeap (VRef 1%positive) = Some [VNum 5; VNum 2] ∧
  observe (fun _ h' => (quantities h' (VRef 1%positive),
                        field h' (VRef 1%positive) "start",
                        field h' (VRef 1%positive) "end"))
          (refreshUsage exampleNow (VRef 1%positive) exampleHeap)
  = Some (Some [VNum 0; VNum 2], Some (VNum exampleMonthStart),
          Some (VNum exampleMonthStart)).
Proof. split; vm_compute; reflexivity. Qed.

(** *** The transformation keeps usage documents usage documents *)

Lemma sameShape_refl o : sameShape o o.
Proof. destruct o; simpl; auto. Qed.

Lemma sameShape_trans o1 o2 o3 : sameShape o1 o2 -> sameShape o2 o3 -> sameShape o1 o3.
Proof.
  destruct o1, o2, o3; simpl; try tauto.
  - intros [? ?] [? ?]. split; congruence.
  - congruence.
Qed.

Lemma sameShape_zeroed o : sameShape o (zeroed o).
Proof.
  unfold zeroed.
  destruct (propsOf o !! "measure") as [[| | | |name|]|]; try apply sameShape_refl.
  destruct (String.prefix "previous" name); [|apply sameShape_refl].
  destruct o as [p|es p]; simpl; [|reflexivity].
  now rewrite !lookup_insert_ne by discriminate.
Qed.

Lemma grows_refl (h : heap) : grows h h.
Proof. intros l o Hl. exists o. split; [exact Hl | apply sameShape_refl]. Qed.

Lemma grows_trans (h1 h2 h3 : heap) : grows h1 h2 -> grows h2 h3 -> grows h1 h3.
Proof.
  intros H12 H23 l o Hl.
  destruct (H12 l o Hl) as (o2 & Hl2 & Hs2).
  destruct (H23 l o2 Hl2) as (o3 & Hl3 & Hs3).
  exists o3. split; [exact Hl3 | eapply sameShape_trans; eassumption].
Qed.

Lemma grows_alloc (h : heap) o : grows h (<[fresh (dom h) := o]> h).
Proof.
  intros l o' Hl. exists o'. split; [|apply sameShape_refl].
  rewrite lookup_insert_ne; [exact Hl|].
  intros Heq. rewrite <- Heq, alloc_fresh in Hl. discriminate.
Qed.

Lemma usageDoc_grows (h h' : heap) d props entries :
  grows h h' -> usageDoc h d props entries ->
  ∃ props', usageDoc h' d props' entries.
Proof.
  intros Hg (Hd & a & aprops & Hmu & Ha & Hent).
  destruct (Hg _ _ Hd) as ([props'|] & Hd' & Hs); [|contradiction].
  destruct Hs as [Hmu' _].
  destruct (Hg _ _ Ha) as ([|elems aprops'] & Ha' & Hs); [contradiction|].
  simpl in Hs. subst elems.
  exists props'. split; [exact Hd'|]. exists a, aprops'.
  split; [congruence|]. split; [exact Ha'|].
  intros e He. destruct (Hent e He) as (eprops & name & Hl & Hm).
  destruct (Hg _ _ Hl) as ([eprops'|] & Hl' & Hs); [|contradiction].
  destruct Hs as [_ Hm']. exists eprops', name. split; [exact Hl' | congruence].
Qed.

Lemma refreshUsage_grows (h : heap) d props entries now :
  usageDoc h d props entries ->
  ∃ (h' : heap) props',
    refreshUsage now (VRef d) h = Ok (VRef (fresh (dom h))) h' ∧
    h' !! fresh (dom h) = Some (OObj props') ∧
    grows h h'.
Proof.
  intros Hdoc.
  destruct (refreshUsage_spec h d props entries now Hdoc) as (h' & Hrun & Hc & Hlook).
  eexists h', _. split; [exact Hrun|]. split; [exact Hc|].
  assert (Hd : h !! d = Some (OObj props)) by apply Hdoc.
  intros l o Hl.
  assert (Hne : l ≠ fresh (dom h)).
  { intros ->. rewrite alloc_fresh in Hl. discriminate. }
  rewrite (Hlook l Hne).
  set (monthStart := utcStartOfMonth now).
  assert (H2 : ∃ o2, (<[d := OObj (<["end" := VNum monthStart]>
                                    (<["start" := VNum monthStart]> props))]> h : heap) !! l
                     = Some o2 ∧ sameShape o o2).
  { destruct (decide (d = l)) as [->|Hdl].
    - rewrite Hd in Hl. injection Hl as <-. rewrite lookup_insert_eq.
      eexists. split; [reflexivity|]. simpl.
      now rewrite !lookup_insert_ne by discriminate.
    - rewrite lookup_insert_ne by exact Hdl. exists o. split; [exact Hl | apply sameShape_refl]. }
  destruct H2 as (o2 & -> & Hs).
  destruct (decide (l ∈ entries)); simpl.
  - eexists. split; [reflexivity|]. eapply sameShape_trans; [exact Hs | apply sameShape_zeroed].
  - exists o2. split; [reflexivity | exact Hs].
Qed.

Lemma pick_grows (h : heap) c o keys :
  h !! c = Some o ->
  ∃ h' : heap, pick (VRef c) keys h = Ok (VRef (fresh (dom h))) h' ∧ grows h h'.
Proof.
  intros Hc. eexists. split.
  - unfold pick. rewrite (bind_ok _ _ _ _ _ (deref_ok _ _ _ Hc)). reflexivity.
  - apply grows_alloc.
Qed.

End UsageFacts.


Module RenewerFacts.
Import Js Usage Renewer UsageFacts.

Lemma bind_ret_tt {S} (m : M S unit) s : bind m (fun _ => ret tt) s = m s.
Proof. unfold bind, ret. destruct (m s) as [[] ?| |]; reflexivity. Qed.

Lemma with_store_same w : with_store (fun _ => store w) w = w.
Proof. now destruct w. Qed.

Lemma inStore_ok {A} (m : M heap A) w a h' :
  m (store w) = Ok a h' -> inStore m w = Ok a (with_store (fun _ => h') w).
Proof. intros H. unfold inStore, zoom. now rewrite H. Qed.

Section Reporting.
Context (E : env).

(** *** The response handler of [reportUsage] *)

Lemma reportUsageResponse_201 usage cb r w :
  statusCode r = 201 ->
  reportUsageResponse E usage cb None (Some r) w =
  cb None None
     (with_errs (set_noReportEverHappened false)
        (with_errs (set_consecutiveReportFailures (fun _ => 0%nat))
           (with_stats (with_usage incr_reportSuccess) w))).
Proof.
  intros Hr. unfold reportUsageResponse, statusIs. rewrite Hr. reflexivity.
Qed.

Lemma reportUsageResponse_409 usage cb r w :
  statusCode r = 409 ->
  reportUsageResponse E usage cb None (Some r) w =
  cb None None
     (with_errs (set_noReportEverHappened false)
        (with_stats (with_usage incr_reportConflict) w)).
Proof.
  intros Hr. unfold reportUsageResponse, statusIs. rewrite Hr. reflexivity.
Qed.

Lemma reportUsageResponse_failed usage cb error response w :
  (negb (present error) && present response && statusIs response 201 = false) ->
  (negb (present error) && present response && statusIs response 409 = false) ->
  reportUsageResponse E usage cb error response w =
  cb error response
     (with_errs (set_lastError
                   (if present error || present response
                    then Formatted (FailedReportingUsage usage) error response
                    else Plain (FailedReportingUsage usage)) (now E))
        (with_errs (set_consecutiveReportFailures S)
           (with_stats (with_usage incr_reportFailures) w))).
Proof.
  intros H1 H2. unfold reportUsageResponse. rewrite H1, H2. reflexivity.
Qed.

(** *** What [reportUsage] sends *)

Lemma renewed_ok (h : heap) d props entries :
  usageDoc h d props entries ->
  ∃ u (h' : heap), renewed E (VRef d) h = Ok (VRef u) h' ∧ grows h h'.
Proof.
  intros Hdoc.
  destruct (refreshUsage_grows h d props entries (now E) Hdoc)
    as (h1 & props1 & Hrun & Hc & Hg1).
  destruct (pick_grows h1 _ _ (schemaProps E) Hc) as (h2 & Hpick & Hg2).
  exists (fresh (dom h1)), h2. split.
  - unfold renewed. rewrite (bind_ok _ _ _ _ _ Hrun). exact Hpick.
  - eapply grows_trans; eassumption.
Qed.

Lemma reportUsage_sends w d props entries token cb :
  usageDoc (store w) d props entries ->
  ∃ u (h' : heap),
    renewed E (VRef d) (store w) = Ok (VRef u) h' ∧ grows (store w) h' ∧
    reportUsage E (VRef d) token cb w =
      reportUsageResponse E (VRef u) cb
        (collectorPost E (requests w) (VRef u)).1
        (collectorPost E (requests w) (VRef u)).2
        (posted (VRef u) token h' w).
Proof.
  intros Hdoc.
  destruct (renewed_ok _ _ _ _ Hdoc) as (u & h' & Hren & Hg).
  exists u, h'. split; [exact Hren|]. split; [exact Hg|].
  assert (Hd : store w !! d = Some (OObj props)) by apply Hdoc.
  unfold reportUsage.
  rewrite (bind_ok _ _ _ _ _ (inStore_ok _ _ _ _ (getProp_ok _ _ _ "id" Hd))).
  rewrite with_store_same.
  change (inStore (let* refreshed := refreshUsage (now E) (VRef d)
                   in sanitizeUsageDoc (schemaProps E) refreshed))
    with (inStore (renewed E (VRef d))).
  rewrite (bind_ok _ _ _ _ _ (inStore_ok _ _ _ _ Hren)).
  unfold bind, emit, modify, request, posted. simpl.
  destruct (collectorPost E (requests w) (VRef u)) as [error response]. reflexivity.
Qed.

(** C5: when the collector answers a report with 409, [reportUsage] calls
    the record's callback without error or response; [reportConflict] has
    gone up by one, [reportFailures] and [reportSuccess] are as before, no
    failure is signalled, and the callback of [renewUsagePage] goes on to
    count the record. *)
Theorem reportUsage_conflict w d props entries token cb r :
  usageDoc (store w) d props entries ->
  (∀ usage, collectorPost E (requests w) usage = (None, Some r)) ->
  statusCode r = 409 ->
  ∃ w' usage,
    reportUsage E (VRef d) token cb w = cb None None w' ∧
    reportConflict (Renewer.usage (stats w')) =
      S (reportConflict (Renewer.usage (stats w))) ∧
    reportFailures (Renewer.usage (stats w')) =
      reportFailures (Renewer.usage (stats w)) ∧
    reportSuccess (Renewer.usage (stats w')) =
      reportSuccess (Renewer.usage (stats w)) ∧
    events w' = events w ++ [Post usage token] ∧
    ∀ failure countReportedDocs,
      reported failure countReportedDocs (VRef d) None None = countReportedDocs.
Proof.
  intros Hdoc Hpost Hr.
  destruct (reportUsage_sends w d props entries token cb Hdoc) as (u & h' & _ & _ & Hrun).
  rewrite Hpost in Hrun. simpl in Hrun.
  rewrite (reportUsageResponse_409 _ _ _ _ Hr) in Hrun.
  eexists _, (VRef u). split; [exact Hrun|]. repeat split; reflexivity.
Qed.

(** C10: of the answers to a report only 201 resets
    [consecutiveReportFailures]; 409 leaves it as it is (it counts a
    conflict and clears [noReportEverHappened]), every other answer adds
    one to it. *)
Theorem reportUsage_streak w d props entries token cb :
  usageDoc (store w) d props entries ->
  ∃ usage error response w' error' response',
    collectorPost E (requests w) usage = (error, response) ∧
    reportUsage E (VRef d) token cb w = cb error' response' w' ∧
    (error = None -> statusIs response 201 = true ->
       consecutiveReportFailures (errs w') = 0%nat) ∧
    (error = None -> statusIs response 409 = true ->
       consecutiveReportFailures (errs w') = consecutiveReportFailures (errs w) ∧
       reportConflict (Renewer.usage (stats w')) =
         S (reportConflict (Renewer.usage (stats w))) ∧
       noReportEverHappened (errs w') = false) ∧
    (consecutiveReportFailures (errs w') = 0%nat ->
     consecutiveReportFailures (errs w) ≠ 0%nat ->
       error = None ∧ statusIs response 201 = true).
Proof.
  intros Hdoc.
  destruct (reportUsage_sends w d props entries token cb Hdoc) as (u & h' & _ & _ & Hrun).
  destruct (collectorPost E (requests w) (VRef u)) as [error response] eqn:Hpost.
  simpl in Hrun. exists (VRef u), error, response.
  destruct error as [e|].
  - rewrite reportUsageResponse_failed in Hrun by reflexivity.
    eexists _, _, _. split; [exact Hpost|]. split; [exact Hrun|].
    simpl. repeat split; try discriminate.
  - destruct response as [r|].
    + destruct (Z.eqb_spec (statusCode r) 201) as [H201|H201].
      * rewrite (reportUsageResponse_201 _ _ _ _ H201) in Hrun.
        eexists _, _, _. split; [exact Hpost|]. split; [exact Hrun|].
        simpl. rewrite H201. simpl.
        repeat split; intros; try discriminate; try reflexivity; try contradiction.
      * destruct (Z.eqb_spec (statusCode r) 409) as [H409|H409].
        -- rewrite (reportUsageResponse_409 _ _ _ _ H409) in Hrun.
           eexists _, _, _. split; [exact Hpost|]. split; [exact Hrun|].
           simpl. rewrite H409. simpl. apply Z.eqb_neq in H201. rewrite ?H201.
           repeat split; intros; try discriminate; try reflexivity; try contradiction.
        -- rewrite reportUsageResponse_failed in Hrun
             by (simpl; now apply Z.eqb_neq).
           eexists _, _, _. split; [exact Hpost|]. split; [exact Hrun|].
           simpl. apply Z.eqb_neq in H201, H409. rewrite H201, H409.
           repeat split; discriminate.
    + rewrite reportUsageResponse_failed in Hrun by reflexivity.
      eexists _, _, _. split; [exact Hpost|]. split; [exact Hrun|].
      simpl. repeat split; discriminate.
Qed.

(** C3: when the scan of the carry-over database fails, the [failure]
    callback gets that error, [readFailure] goes up by one and the error is
    recorded as the last error; the callback then stops at [usage.length]
    of the page it did not get, so nothing is fetched or reported and no
    further page is read. *)
Theorem renewUsagePage_scan_error fuel token startId endId skip w e :
  allDocs E startId endId (pageSize E) skip = inl e ->
  ∃ w' x,
    renewUsagePage E (S fuel) token startId endId skip onFailure onSuccess w
      = Throw x w' ∧
    events w' = events w ++ [AllDocs startId endId (pageSize E) skip;
                             Failure (ScanError e) (Page None)] ∧
    readFailure (db (stats w')) = S (readFailure (db (stats w))) ∧
    lastError (errs w') =
      Formatted (FailedReadingUsageData startId endId (pageSize E)) (Some e) None ∧
    lastErrorTimestamp (errs w') = Some (now E) ∧
    requests w' = requests w ∧ store w' = store w ∧
    Renewer.usage (stats w') = Renewer.usage (stats w).
Proof.
  intros Hscan. cbn [renewUsagePage]. unfold bind at 1. cbn [emit modify].
  unfold bind at 1. rewrite Hscan. cbn [ret].
  eexists _, _. split; [reflexivity|].
  simpl. rewrite <- app_assoc. repeat split; reflexivity.
Qed.

(** *** A page that goes well *)

Lemma pageReads_app es1 es2 : pageReads (es1 ++ es2) = (pageReads es1 + pageReads es2)%nat.
Proof. unfold pageReads. now rewrite List.filter_app, length_app. Qed.

Lemma pageReads_requests es : forallb isRequest es = true -> pageReads es = 0%nat.
Proof.
  induction es as [|e es IH]; [reflexivity|]. simpl.
  intros [He Hes]%andb_prop. unfold pageReads in *. simpl.
  destruct e; try discriminate; simpl; auto.
Qed.

Lemma requests_progress es : forallb isRequest es = true -> forallb isProgress es = true.
Proof.
  induction es as [|e es IH]; [reflexivity|]. simpl.
  intros [He Hes]%andb_prop. unfold isProgress at 1. rewrite He, IH by exact Hes.
  now rewrite orb_true_r.
Qed.

Lemma fetchesSucceed_grows (h h' : heap) :
  grows h h' -> fetchesSucceed E h -> fetchesSucceed E h'.
Proof.
  intros Hg Hf n id. destruct (Hf n id) as (r & d & props & entries & Hget & Hr & Hb & Hdoc).
  destruct (usageDoc_grows _ _ _ _ _ Hg Hdoc) as (props' & Hdoc').
  exists r, d, props', entries. auto.
Qed.

(** One record, fetched and reported: the continuation [count] runs next,
    on a world that differs by the two requests and the renewed copy. *)
Lemma record_step w token failure (count : M world unit) id :
  fetchesSucceed E (store w) -> reportsSucceed E ->
  ∃ w' evs,
    getUsageDoc E id token (fetched E token failure count id) w = count w' ∧
    cells w' = cells w ∧ grows (store w) (store w') ∧
    events w' = events w ++ evs ∧ forallb isRequest evs = true.
Proof.
  intros Hf Hp.
  destruct (Hf (requests w) id) as (r & d & props & entries & Hget & Hr & Hb & Hdoc).
  unfold getUsageDoc. unfold bind at 1. cbn [emit modify].
  unfold bind at 1. cbn [request with_events requests]. rewrite Hget.
  unfold getUsageDocResponse, statusIs. rewrite Hr, Hb. cbn [present negb andb Z.eqb Pos.eqb].
  unfold bind at 1. cbn [modify]. unfold bind at 1. cbn [modify].
  unfold bind at 1. cbn [modify].
  unfold fetched at 1. cbn [present orb].
  match goal with
  | |- ∃ w' evs, reportUsage E _ _ ?cb ?w1 = _ ∧ _ =>
      destruct (reportUsage_sends w1 d props entries token cb Hdoc)
        as (u & h' & _ & Hg & Hrun); rewrite Hrun; clear Hrun;
      destruct (Hp (requests w1) (VRef u)) as (r2 & Hpost & Hcode)
  end.
  rewrite Hpost. cbn [fst snd].
  destruct Hcode as [Hcode|Hcode].
  - rewrite (reportUsageResponse_201 _ _ _ _ Hcode).
    unfold reported. cbn [present orb].
    eexists _, [Get id (authHeader token); Post (VRef u) token].
    split; [reflexivity|]. simpl.
    split; [reflexivity|]. split; [exact Hg|]. split; [|reflexivity].
    now rewrite <- app_assoc.
  - rewrite (reportUsageResponse_409 _ _ _ _ Hcode).
    unfold reported. cbn [present orb].
    eexists _, [Get id (authHeader token); Post (VRef u) token].
    split; [reflexivity|]. simpl.
    split; [reflexivity|]. split; [exact Hg|]. split; [|reflexivity].
    now rewrite <- app_assoc.
Qed.

Lemma counting_step c len final w v :
  cells w !! c = Some v ->
  counting c len final w =
    if (S v =? len)%nat then final (S v) (with_cells (alter S c) w)
    else Ok tt (with_cells (alter S c) w).
Proof.
  intros Hc. unfold counting, bind, incrCell, readCell, modify. cbn [with_cells cells].
  rewrite lookup_alter_eq, Hc. cbn [fmap option_fmap option_map default id].
  now destruct (S v =? len)%nat.
Qed.

(** The loop of a page whose records all go well: it ends in [final],
    run after the last record. *)
Lemma page_loop token failure c len final (refs : list carryOver) :
  reportsSucceed E ->
  forall w v,
    fetchesSucceed E (store w) ->
    cells w !! c = Some v -> (v + length refs = len)%nat -> refs ≠ [] ->
    ∃ w' evs,
      forEach (fun ref => getUsageDoc E (collector_id ref) token
                            (fetched E token failure (counting c len final)
                                     (collector_id ref))) refs w
        = final len w' ∧
      grows (store w) (store w') ∧
      events w' = events w ++ evs ∧ forallb isRequest evs = true.
Proof.
  intros Hp. induction refs as [|ref refs IH]; intros w v Hf Hc Hlen Hne; [congruence|].
  destruct (record_step w token failure (counting c len final) (collector_id ref) Hf Hp)
    as (w1 & evs1 & Hstep & Hcells & Hg1 & Hev1 & Hq1).
  cbn [forEach]. unfold bind at 1. rewrite Hstep.
  rewrite (counting_step c len final w1 v) by (now rewrite Hcells).
  destruct refs as [|ref' refs].
  - simpl in Hlen. replace (S v =? len)%nat with true by (symmetry; apply Nat.eqb_eq; lia).
    replace (S v) with len by lia.
    destruct (final len (with_cells (alter S c) w1)) as [[] w2|x w2|] eqn:Hfin.
    + exists (with_cells (alter S c) w1) , evs1. rewrite Hfin. cbn [forEach ret].
      split; [reflexivity|]. split; [exact Hg1|]. split; [exact Hev1 | exact Hq1].
    + exists (with_cells (alter S c) w1), evs1. rewrite Hfin.
      split; [reflexivity|]. split; [exact Hg1|]. split; [exact Hev1 | exact Hq1].
    + exists (with_cells (alter S c) w1), evs1. rewrite Hfin.
      split; [reflexivity|]. split; [exact Hg1|]. split; [exact Hev1 | exact Hq1].
  - cbn [length] in Hlen.
    replace (S v =? len)%nat with false by (symmetry; apply Nat.eqb_neq; lia).
    cbn [ret].
    destruct (IH (with_cells (alter S c) w1) (S v)) as (w2 & evs2 & Hrun & Hg2 & Hev2 & Hq2).
    + cbn [with_cells store]. eapply fetchesSucceed_grows; eassumption.
    + cbn [with_cells cells]. now rewrite lookup_alter_eq, Hcells, Hc.
    + simpl. lia.
    + discriminate.
    + exists w2, (evs1 ++ evs2). split; [exact Hrun|].
      split; [eapply grows_trans; [exact Hg1 | exact Hg2]|].
      split.
      * rewrite Hev2. cbn [with_cells events]. rewrite Hev1. now rewrite app_assoc.
      * rewrite forallb_app, Hq1, Hq2. reflexivity.
Qed.

Lemma length_scan (rows : list row) limit skip :
  length (take limit (drop skip rows)) = Nat.min limit (length rows - skip).
Proof. now rewrite length_take, length_drop. Qed.

(** The pages of a database of [rows] records, from offset [skip] on, when
    every fetch and report goes well: [(length rows - skip) / pageSize + 1]
    scans, then [success]. *)
Lemma renewUsagePage_pages (rows : list row) token startId endId :
  (0 < pageSize E)%nat ->
  (∀ limit skip, allDocs E startId endId limit skip = scanOf rows limit skip) ->
  reportsSucceed E ->
  forall fuel skip w,
    ((length rows - skip) / pageSize E < fuel)%nat ->
    fetchesSucceed E (store w) ->
    ∃ w' evs,
      renewUsagePage E fuel token startId endId skip onFailure onSuccess w = Ok tt w' ∧
      grows (store w) (store w') ∧
      events w' = events w ++ evs ++ [Success] ∧
      forallb isProgress evs = true ∧
      pageReads evs = S ((length rows - skip) / pageSize E).
Proof.
  intros Hps Hscan Hp. induction fuel as [|fuel IH]; intros skip w Hfuel Hf; [lia|].
  set (m := (length rows - skip)%nat) in *.
  set (page := take (pageSize E) (drop skip rows)).
  assert (Hlen : length page = Nat.min (pageSize E) m) by apply length_scan.
  cbn [renewUsagePage]. unfold bind at 1. cbn [emit modify].
  rewrite Hscan. unfold scanOf. fold page.
  unfold bind at 1. unfold bind at 1. cbn [modify]. unfold bind at 1. cbn [modify ret].
  unfold bind at 1. cbn [ret]. unfold bind at 1. cbn [lengthOf ret].
  destruct (Nat.eqb_spec (length page) 0) as [H0|H0].
  - (* nothing left: the empty page *)
    assert (Hm : m = 0%nat) by lia.
    eexists _, [AllDocs startId endId (pageSize E) skip].
    split; [reflexivity|]. cbn [with_stats with_events store events].
    split; [apply grows_refl|]. split; [now rewrite <- app_assoc|].
    split; [reflexivity|]. rewrite Hm, Nat.Div0.div_0_l. reflexivity.
  - unfold bind at 1. cbn [newCell].
    match goal with
    | |- ∃ w' evs, forEach _ _ ?w1 = _ ∧ _ => set (w1' := w1)
    end.
    pose (c := fresh (dom (cells w))).
    set (final := fun n : nat =>
           if (length page <? pageSize E)%nat then onSuccess
           else renewUsagePage E fuel token startId endId (skip + n)%nat
                               onFailure onSuccess).
    destruct (page_loop token onFailure c (length page) final
                (extractUsageDocs (Some page)) Hp w1' 0%nat)
      as (w2 & evs2 & Hrun & Hg2 & Hev2 & Hq2).
    + exact Hf.
    + subst w1' c; cbn [with_cells with_stats with_events cells].
      apply lookup_insert_eq.
    + cbn [extractUsageDocs]. now rewrite length_map.
    + cbn [extractUsageDocs]. destruct page; [contradiction | discriminate].
    + change (forEach _ (extractUsageDocs (Some page)) w1')
        with (forEach (fun ref => getUsageDoc E (collector_id ref) token
                         (fetched E token onFailure
                            (counting c (length page) final) (collector_id ref)))
                      (extractUsageDocs (Some page)) w1').
      rewrite Hrun. unfold final.
      assert (Hev2' : events w2 = events w ++ AllDocs startId endId (pageSize E) skip :: evs2).
      { rewrite Hev2. subst w1'. cbn [with_cells with_stats with_events events].
        now rewrite <- app_assoc. }
      destruct (Nat.ltb_spec (length page) (pageSize E)) as [Hlt|Hge].
      * (* a short page: the last one *)
        assert (Hdiv : (m / pageSize E = 0)%nat) by (apply Nat.div_small; lia).
        eexists _, (AllDocs startId endId (pageSize E) skip :: evs2).
        split; [reflexivity|]. cbn [with_events store events].
        split; [exact Hg2|]. split; [now rewrite Hev2', <- app_assoc|].
        split; [cbn [forallb]; now rewrite (requests_progress evs2 Hq2)|].
        rewrite Hdiv. change (AllDocs startId endId (pageSize E) skip :: evs2)
          with ([AllDocs startId endId (pageSize E) skip] ++ evs2).
        rewrite pageReads_app, (pageReads_requests evs2 Hq2). reflexivity.
      * (* a full page: on to the next one *)
        assert (Hfull : length page = pageSize E) by lia.
        assert (Hm : (pageSize E <= m)%nat) by lia.
        assert (Hdiv : (m / pageSize E = S ((m - pageSize E) / pageSize E))%nat).
        { replace m with ((m - pageSize E) + 1 * pageSize E)%nat at 1 by lia.
          rewrite Nat.div_add by lia. lia. }
        destruct (IH (skip + length page)%nat w2) as (w3 & evs3 & Hrun3 & Hg3 & Hev3 & Hq3 & Hn3).
        { replace (length rows - (skip + length page))%nat with (m - pageSize E)%nat by lia.
          lia. }
        { eapply fetchesSucceed_grows; [exact Hg2 | exact Hf]. }
        exists w3, (AllDocs startId endId (pageSize E) skip :: evs2 ++ evs3).
        split; [exact Hrun3|].
        split; [eapply grows_trans; [exact Hg2 | exact Hg3]|].
        split.
        { rewrite Hev3, Hev2'. rewrite <- !app_assoc. f_equal.
          rewrite <- !app_comm_cons, <- app_assoc. reflexivity. }
        split.
        { cbn [forallb]. rewrite forallb_app, Hq3, (requests_progress evs2 Hq2).
          reflexivity. }
        change (AllDocs startId endId (pageSize E) skip :: evs2 ++ evs3)
          with ([AllDocs startId endId (pageSize E) skip] ++ evs2 ++ evs3).
        rewrite !pageReads_app, (pageReads_requests evs2 Hq2).
        rewrite Hn3.
        replace (length rows - (skip + length page))%nat with (m - pageSize E)%nat by lia.
        rewrite Hdiv. reflexivity.
Qed.

(** C2: when every fetch and report of a run goes well, the run ends (any
    recursion budget above [length rows / pageSize] is enough) with
    [success] called once, after [length rows / pageSize + 1] page reads and
    no [failure]: two reads for a database of exactly [pageSize] records,
    one for [pageSize - 1] records. *)
Theorem renewUsagePage_page_reads (rows : list row) token startId endId w fuel :
  (0 < pageSize E)%nat ->
  (∀ limit skip, allDocs E startId endId limit skip = scanOf rows limit skip) ->
  fetchesSucceed E (store w) ->
  reportsSucceed E ->
  (length rows / pageSize E < fuel)%nat ->
  ∃ w' evs,
    renewUsagePage E fuel token startId endId 0 onFailure onSuccess w = Ok tt w' ∧
    events w' = events w ++ evs ++ [Success] ∧
    forallb isProgress evs = true ∧
    pageReads evs = S (length rows / pageSize E) ∧
    (length rows = pageSize E -> pageReads evs = 2%nat) ∧
    (length rows = (pageSize E - 1)%nat -> pageReads evs = 1%nat).
Proof.
  intros Hps Hscan Hf Hp Hfuel.
  destruct (renewUsagePage_pages rows token startId endId Hps Hscan Hp fuel 0%nat w)
    as (w' & evs & Hrun & _ & Hev & Hq & Hn).
  { now rewrite Nat.sub_0_r. }
  { exact Hf. }
  rewrite Nat.sub_0_r in Hn.
  exists w', evs. split; [exact Hrun|]. split; [exact Hev|]. split; [exact Hq|].
  split; [exact Hn|]. split.
  - intros Hfull. rewrite Hn, Hfull, Nat.div_same by lia. reflexivity.
  - intros Hshort. rewrite Hn, Nat.div_small by lia. reflexivity.
Qed.

End Reporting.

Lemma exampleEnv_fetchesSucceed scan code :
  fetchesSucceed (exampleEnv scan code) (store exampleWorld).
Proof.
  intros n id. eexists _, 1%positive, exampleDocProps, [3%positive; 4%positive].
  split; [reflexivity|]. split; [reflexivity|]. split; [reflexivity|].
  exact exampleHeap_usageDoc.
Defined.

Lemma renewUsagePage_page_reads_witness :
  ∃ w' evs,
    renewUsagePage (exampleEnv (scanOf [exampleRow; exampleRow]) 201) 2 None
                   "t/0" "t/1" 0 onFailure onSuccess exampleWorld = Ok tt w' ∧
    events w' = evs ++ [Success] ∧ pageReads evs = 2%nat.
Proof.
  destruct (renewUsagePage_page_reads
              (exampleEnv (scanOf [exampleRow; exampleRow]) 201)
              [exampleRow; exampleRow] None "t/0" "t/1" exampleWorld 2)
    as (w' & evs & Hrun & Hev & _ & _ & Hfull & _).
  - simpl. lia.
  - intros limit skip. reflexivity.
  - apply exampleEnv_fetchesSucceed.
  - intros n usage. eexists. split; [reflexivity|]. left. reflexivity.
  - vm_compute. lia.
  - exists w', evs. split; [exact Hrun|]. split; [exact Hev|]. now apply Hfull.
Defined.

Lemma renewUsagePage_scan_error_witness :
  ∃ w' x,
    renewUsagePage (exampleEnv (fun _ _ => inl "boom"%string) 201) 1 None
                   "t/0" "t/1" 0 onFailure onSuccess exampleWorld = Throw x w' ∧
    events w' = [AllDocs "t/0" "t/1" 2 0; Failure (ScanError "boom") (Page None)] ∧
    readFailure (db (stats w')) = 1%nat.
Proof.
  destruct (renewUsagePage_scan_error (exampleEnv (fun _ _ => inl "boom"%string) 201)
              0 None "t/0" "t/1" 0 exampleWorld "boom"%string eq_refl)
    as (w' & x & Hrun & Hev & Hrf & _).
  exists w', x. split; [exact Hrun|]. split; [exact Hev | exact Hrf].
Defined.

Lemma reportUsage_conflict_witness :
  ∃ w',
    reportUsage (exampleEnv (scanOf []) 409) (VRef 1%positive) None
                (fun _ _ => onSuccess) exampleWorld = onSuccess w' ∧
    reportConflict (Renewer.usage (stats w')) = 1%nat ∧
    reportFailures (Renewer.usage (stats w')) = 0%nat.
Proof.
  destruct (reportUsage_conflict (exampleEnv (scanOf []) 409) exampleWorld
              1%positive exampleDocProps [3%positive; 4%positive] None
              (fun _ _ => onSuccess) {| statusCode := 409; body := VUndefined |}
              exampleHeap_usageDoc (fun _ => eq_refl) eq_refl)
    as (w' & usage & Hrun & Hc & Hf & _).
  exists w'. split; [exact Hrun|]. split; [exact Hc | exact Hf].
Defined.

Lemma reportUsage_streak_witness :
  ∃ w',
    reportUsage (exampleEnv (scanOf []) 409) (VRef 1%positive) None
                (fun _ _ => onSuccess) streakWorld = onSuccess w' ∧
    consecutiveReportFailures (errs streakWorld) = 3%nat ∧
    consecutiveReportFailures (errs w') = 3%nat ∧
    reportConflict (Renewer.usage (stats w')) = 1%nat ∧
    noReportEverHappened (errs w') = false.
Proof.
  destruct (reportUsage_streak (exampleEnv (scanOf []) 409) streakWorld
              1%positive exampleDocProps [3%positive; 4%positive] None
              (fun _ _ => onSuccess) exampleHeap_usageDoc)
    as (usage & error & response & w' & error' & response' & Hpost & Hrun & _ & H409 & _).
  injection Hpost as <- <-.
  destruct (H409 eq_refl eq_refl) as (Hc & Hk & Hn).
  exists w'. split; [exact Hrun|]. split; [reflexivity|].
  split; [exact Hc|]. split; [exact Hk | exact Hn].
Defined.

(** During a streak of three failed reports: a 409 leaves the streak at
    three, a 201 ends it, a 500 makes it four. *)
Example reportUsage_streak_example :
  (observe (fun _ w' => consecutiveReportFailures (errs w'))
           (reportUsage (exampleEnv (scanOf []) 409) (VRef 1%positive) None
                        (fun _ _ => onSuccess) streakWorld),
   observe (fun _ w' => consecutiveReportFailures (errs w'))
           (reportUsage (exampleEnv (scanOf []) 201) (VRef 1%positive) None
                        (fun _ _ => onSuccess) streakWorld),
   observe (fun _ w' => consecutiveReportFailures (errs w'))
           (reportUsage (exampleEnv (scanOf []) 500) (VRef 1%positive) None
                        (fun _ _ => onSuccess) streakWorld))
  = (Some 3%nat, Some 0%nat, Some 4%nat).
Proof. vm_compute. reflexivity. Qed.

(** A cycle over a full page whose reports are all answered 409: both
    records count as done, the next (empty) page is read, the cycle
    succeeds; two conflicts and no failure are counted. *)
Example renewUsagePage_conflicts_example :
  observe (fun _ w' => (List.filter (fun e => negb (isRequest e)) (events w'),
                        reportConflict (Renewer.usage (stats w')),
                        reportFailures (Renewer.usage (stats w')),
                        reportSuccess (Renewer.usage (stats w'))))
          (renewUsagePage (exampleEnv (scanOf [exampleRow; exampleRow]) 409) 2 None
                          "t/0" "t/1" 0 onFailure onSuccess exampleWorld)
  = Some ([AllDocs "t/0" "t/1" 2 0; AllDocs "t/0" "t/1" 2 2; Success],
          2%nat, 0%nat, 0%nat).
Proof. vm_compute. reflexivity. Qed.

(** A failed scan on the example: the cycle stops on the [TypeError] of
    [usage.length]. *)
Example renewUsagePage_scan_error_example :
  ∃ w',
    renewUsagePage (exampleEnv (fun _ _ => inl "boom"%string) 201) 5 None
                   "t/0" "t/1" 0 onFailure onSuccess exampleWorld
      = Throw (TypeError "Cannot read property 'length' of undefined") w' ∧
    events w' = [AllDocs "t/0" "t/1" 2 0; Failure (ScanError "boom") (Page None)].
Proof.
  eexists. split; reflexivity.
Qed.

End RenewerFacts.

Module ResolverFacts.
Import Js Resolver Provisioning Mappings.

Ltac run_resolver :=
  unfold try_finally, bind, cacheGet, cacheSet, dbGet, unlock, modify, ret,
    released, logged;
  cbn [cache db held log];
  repeat match goal with
         | |- context [match cache ?s !! ?k with _ => _ end] =>
             destruct (cache s !! k) eqn:?; cbn [cache db held log]
         | |- context [match localResource ?b ?k with _ => _ end] =>
             destruct (localResource b k) eqn:?; cbn [cache db held log]
         | |- context [match db ?s with _ => _ end] =>
             destruct (db s) eqn:?; cbn [cache db held log]
         | |- context [match ?m !! ?k with _ => _ end] =>
             destruct (m !! k) eqn:?; cbn [cache db held log]
         end;
  simpl; rewrite <- ?app_assoc; try reflexivity.

Lemma metering_resolveSpec {Plan} (b : @bundle Plan) mpid (s : resolver Plan Plan) :
  mpid ∉ held s ->
  metering b mpid s =
  resolveSpec (localResource b) undbify (fun k => join ["k"; k]) mpid s.
Proof.
  intros Hfree. unfold metering, resolveSpec, bind at 1, lock.
  rewrite decide_False by exact Hfree.
  unfold mcached, mcache. run_resolver.
Qed.

Lemma rating_resolveSpec {Plan} (b : @bundle Plan) rpid (s : resolver Plan Plan) :
  rpid ∉ held s ->
  rating b rpid s =
  resolveSpec (localResource b) undbify (fun k => join ["k"; k]) rpid s.
Proof.
  intros Hfree. unfold rating, resolveSpec, bind at 1, lock.
  rewrite decide_False by exact Hfree.
  unfold rcached, rcache. run_resolver.
Qed.

Lemma pricing_resolveSpec {Plan} (b : @bundle Plan) ppid (s : resolver Plan Plan) :
  ppid ∉ held s ->
  pricing b ppid s =
  resolveSpec (localResource b) undbify (fun k => join ["k"; k]) ppid s.
Proof.
  intros Hfree. unfold pricing, resolveSpec, bind at 1, lock.
  rewrite decide_False by exact Hfree.
  unfold pcached, pcache. run_resolver.
Qed.

(** What a mapping resolver does, for a pair whose lock is free. *)
Lemma mappedMeteringPlan_run rt pn (s : mappings) :
  let id := join ["k"; rt; pn] in
  id ∉ held s ->
  mappedMeteringPlan rt pn s =
    if truthyId (cache s !! id)
    then Ok (cache s !! id) (released id [CacheGet id] (cache s) s)
    else match db s with
         | Some docs =>
             match docs !! id with
             | Some d =>
                 Ok (Some (planId d))
                    (released id [CacheGet id; DbGet id; CacheSet id]
                              (<[id := planId d]> (cache s)) s)
             | None => Ok None (released id [CacheGet id; DbGet id] (cache s) s)
             end
         | None =>
             Throw (Error "database unavailable")
                   (released id [CacheGet id; DbGet id] (cache s) s)
         end.
Proof.
  intros id Hfree. unfold mappedMeteringPlan. fold id. unfold bind at 1, lock.
  rewrite decide_False by exact Hfree.
  unfold meteringMappingCached, meteringMappingCache, undbifyPlanId.
  unfold try_finally, bind, cacheGet, cacheSet, dbGet, unlock, modify, ret,
    released, logged.
  cbn [cache db held log].
  destruct (truthyId (cache s !! id)); cbn [cache db held log].
  { now rewrite <- !app_assoc. }
  destruct (db s) as [docs|]; cbn [cache db held log]; [|now rewrite <- !app_assoc].
  destruct (docs !! id) as [d|]; cbn [cache db held log]; now rewrite <- !app_assoc.
Qed.

(** The three mapping resolvers are the same code on their own state. *)
Lemma mappedRatingPlan_same rt pn : mappedRatingPlan rt pn = mappedMeteringPlan rt pn.
Proof. reflexivity. Qed.

Lemma mappedPricingPlan_same rt pn : mappedPricingPlan rt pn = mappedMeteringPlan rt pn.
Proof. reflexivity. Qed.

Lemma mappedMeteringPlan_resolveSpec rt pn (s : mappings) :
  join ["k"; rt; pn] ∉ held s ->
  cache s !! join ["k"; rt; pn] ≠ Some EmptyString ->
  mappedMeteringPlan rt pn s =
  resolveSpec (fun _ => None) undbifyPlanId (fun k => k) (join ["k"; rt; pn]) s.
Proof.
  intros Hfree Hne. rewrite mappedMeteringPlan_run by exact Hfree.
  unfold resolveSpec, undbifyPlanId.
  destruct (cache s !! join ["k"; rt; pn]) as [v|] eqn:Hc; cbn [truthyId]; [|reflexivity].
  destruct v as [|c v]; [congruence | reflexivity].
Qed.

(** C4, as the code has it: the metering, rating and pricing plan
    resolvers look, under the lock of the key, in the cache, then in the
    bundled plans, then in the database, caching what they find below the
    cache and nothing when all miss; the three mapping resolvers look in
    the cache (an empty cached id apart) and then in the database, never in
    the default maps. *)
Theorem resolvers_tiers {Plan} (m r p : @bundle Plan) key (s : resolver Plan Plan)
    rt pn (t : mappings) :
  key ∉ held s ->
  join ["k"; rt; pn] ∉ held t ->
  cache t !! join ["k"; rt; pn] ≠ Some EmptyString ->
  metering m key s = resolveSpec (localResource m) undbify (fun k => join ["k"; k]) key s ∧
  rating r key s = resolveSpec (localResource r) undbify (fun k => join ["k"; k]) key s ∧
  pricing p key s = resolveSpec (localResource p) undbify (fun k => join ["k"; k]) key s ∧
  mappedMeteringPlan rt pn t =
    resolveSpec (fun _ => None) undbifyPlanId (fun k => k) (join ["k"; rt; pn]) t ∧
  mappedRatingPlan rt pn t =
    resolveSpec (fun _ => None) undbifyPlanId (fun k => k) (join ["k"; rt; pn]) t ∧
  mappedPricingPlan rt pn t =
    resolveSpec (fun _ => None) undbifyPlanId (fun k => k) (join ["k"; rt; pn]) t.
Proof.
  intros Hs Ht Hne.
  split; [now apply metering_resolveSpec|].
  split; [now apply rating_resolveSpec|].
  split; [now apply pricing_resolveSpec|].
  change (mappedRatingPlan rt pn) with (mappedMeteringPlan rt pn).
  change (mappedPricingPlan rt pn) with (mappedMeteringPlan rt pn).
  repeat split; now apply mappedMeteringPlan_resolveSpec.
Qed.

Lemma resolvers_tiers_witness :
  metering noBundle "basic" emptyPlans =
    resolveSpec (localResource noBundle) undbify (fun k => join ["k"; k]) "basic" emptyPlans ∧
  mappedMeteringPlan "object-storage" "basic" seededMappings =
    resolveSpec (fun _ => None) undbifyPlanId (fun k => k)
                (join ["k"; "object-storage"; "basic"]) seededMappings.
Proof.
  destruct (resolvers_tiers noBundle noBundle noBundle "basic" emptyPlans
              "object-storage" "basic" seededMappings)
    as (Hm & _ & _ & Hmap & _).
  - vm_compute. intros H. inversion H.
  - vm_compute. intros H. inversion H.
  - vm_compute. discriminate.
  - split; [exact Hm | exact Hmap].
Defined.

(** C4 as stated fails for the mappings: a pair of the default map that is
    neither cached nor stored resolves to absent, not to its default. *)
Lemma mappedMeteringPlan_no_static_tier :
  ¬ (∀ (defaultMapping : mapping) rt pn (t : mappings),
        join ["k"; rt; pn] ∉ held t ->
        mappedMeteringPlan rt pn t =
        resolveSpec (fun _ => defaultPlan defaultMapping rt pn) undbifyPlanId
                    (fun k => k) (join ["k"; rt; pn]) t).
Proof.
  intros Hclaim.
  specialize (Hclaim exampleMapping "object-storage"%string "basic"%string emptyMappings).
  assert (Hfree : join ["k"; "object-storage"; "basic"]%string ∉ held emptyMappings).
  { apply not_elem_of_empty. }
  specialize (Hclaim Hfree). revert Hclaim. vm_compute. discriminate.
Qed.

(** *** Seeding the default mappings *)

Lemma held_released (X : gset string) id : id ∉ X -> (X ∪ {[id]}) ∖ {[id]} = X.
Proof.
  intros Hid. apply set_eq. intros x.
  rewrite elem_of_difference, elem_of_union, elem_of_singleton.
  split; [tauto|]. intros Hx. split; [now left | congruence].
Qed.

Lemma seeding_start ids (r0 : mappings) : atRest r0 -> seeding ids r0 r0 [].
Proof.
  intros Hr. split; [exact Hr|]. split; [now rewrite app_nil_r|].
  split; [intros id Hin; apply elem_of_nil in Hin; contradiction|]. split; [auto|].
  intros docs0 docs H0 H1 id Hne. congruence.
Qed.

Lemma seeding_seeded ids (r0 r : mappings) evs :
  atRest r0 -> seeding ids r0 r evs -> seeded ids r0 r.
Proof.
  intros (_ & docs0 & Hdb0 & _) ((_ & docs & Hdb & _) & Hlog & Hput & _ & Hdiff).
  exists evs. split; [exact Hlog|]. split; [exact Hput|].
  intros Hall.
  assert (Hnone : ∀ id, DbPut id ∉ evs).
  { intros id Hin. destruct (Hput id Hin) as [Hid Hnr]. apply Hnr, Hall, Hid. }
  split; [|exact Hnone].
  rewrite Hdb, Hdb0. f_equal. apply map_eq. intros id.
  destruct (decide (docs !! id = docs0 !! id)) as [Heq|Hne]; [exact Heq|].
  exfalso. eapply Hnone, Hdiff; eassumption.
Qed.

(** One pair: [if (!(yield readFn(rt, pn))) yield createFn(rt, pn, id)]. *)
Lemma seeding_step ids (r0 r : mappings) evs rt pn pid :
  seeding ids r0 r evs ->
  join ["k"; rt; pn] ∈ ids -> nonEmpty pid = true ->
  ∃ r' evs',
    (let* found := mappedMeteringPlan rt pn in
     if truthyId found then ret tt else newMeteringMapping rt pn pid) r = Ok tt r' ∧
    seeding ids r0 r' evs'.
Proof.
  intros ((Hheld & docs & Hdb & Hproper) & Hlog & Hput & Hmono & Hdiff) Hid Hpid.
  set (id := join ["k"; rt; pn]) in *.
  assert (Hfree : id ∉ held r) by (rewrite Hheld; apply not_elem_of_empty).
  assert (Hrel : (held r ∪ {[id]}) ∖ {[id]} = ∅)
    by (rewrite held_released by exact Hfree; exact Hheld).
  unfold bind at 1. rewrite mappedMeteringPlan_run by exact Hfree. fold id.
  destruct (truthyId (cache r !! id)) eqn:Hcached.
  - (* found in the cache *)
    rewrite Hcached. cbn [ret].
    eexists _, (evs ++ [Locked id; CacheGet id; Unlocked id]).
    split; [reflexivity|].
    split; [split; [exact Hrel | exists docs; split; [exact Hdb | exact Hproper]]|].
    split; [cbn [released log]; now rewrite Hlog, <- app_assoc|].
    split.
    { intros id' [Hin|Hin]%elem_of_app; [now apply Hput|].
      repeat (apply elem_of_cons in Hin as [Hin|Hin]; [discriminate|]). inversion Hin. }
    split; [exact Hmono|].
    intros docs0 docs' H0 H1 id' Hne. apply elem_of_app. left.
    cbn [released db] in H1. eapply Hdiff; eassumption.
  - rewrite Hdb. destruct (docs !! id) as [d|] eqn:Hdoc.
    + (* found in the database *)
      assert (Hd : nonEmpty (planId d) = true) by (eapply Hproper; exact Hdoc).
      cbn [truthyId]. rewrite Hd. cbn [ret].
      eexists _, (evs ++ [Locked id; CacheGet id; DbGet id; CacheSet id; Unlocked id]).
      split; [reflexivity|].
      split; [split; [exact Hrel | exists docs; split; [exact Hdb | exact Hproper]]|].
      split; [cbn [released log]; now rewrite Hlog, <- app_assoc|].
      split.
      { intros id' [Hin|Hin]%elem_of_app; [now apply Hput|].
        repeat (apply elem_of_cons in Hin as [Hin|Hin]; [discriminate|]). inversion Hin. }
      split.
      { intros id' Hres. destruct (Hmono id' Hres) as [Hc|Hs].
        - left. cbn [released cache]. destruct (decide (id = id')) as [<-|Hne'].
          + rewrite lookup_insert_eq. exact Hd.
          + now rewrite lookup_insert_ne.
        - right. exact Hs. }
      intros docs0 docs' H0 H1 id' Hne. apply elem_of_app. left.
      cbn [released db] in H1. eapply Hdiff; eassumption.
    + (* absent: create it *)
      cbn [truthyId]. unfold newMeteringMapping, dbPut. fold id.
      cbn [released db cache held log].
      rewrite Hdb.
      eexists _, (evs ++ [Locked id; CacheGet id; DbGet id; Unlocked id; DbPut id]).
      split; [reflexivity|].
      split.
      { split; [exact Hrel|]. eexists. split; [reflexivity|].
        intros id' doc Hl. destruct (decide (id = id')) as [<-|Hne'].
        - rewrite lookup_insert_eq in Hl. injection Hl as <-. exact Hpid.
        - rewrite lookup_insert_ne in Hl by exact Hne'. eapply Hproper; exact Hl. }
      split; [cbn [log]; now rewrite Hlog, <- !app_assoc|].
      split.
      { intros id' [Hin|Hin]%elem_of_app; [now apply Hput|].
        repeat (apply elem_of_cons in Hin as [Hin|Hin]; [try discriminate|]);
          [|inversion Hin].
        injection Hin as ->. split; [exact Hid|].
        intros Hres. destruct (Hmono _ Hres) as [Hc|(docs1 & d1 & Hdb1 & Hd1)].
        - congruence.
        - rewrite Hdb in Hdb1. injection Hdb1 as <-. congruence. }
      split.
      { intros id' Hres. destruct (Hmono id' Hres) as [Hc|(docs1 & d1 & Hdb1 & Hd1)].
        - left. exact Hc.
        - right. rewrite Hdb in Hdb1. injection Hdb1 as <-.
          destruct (decide (id = id')) as [<-|Hne'].
          + eexists _, _. split; [reflexivity | apply lookup_insert_eq].
          + eexists _, d1. split; [reflexivity|]. now rewrite lookup_insert_ne. }
      intros docs0 docs' H0 H1 id' Hne. cbn [db] in H1. injection H1 as <-.
      apply elem_of_app. destruct (decide (id = id')) as [<-|Hne'].
      * right. rewrite !elem_of_cons. auto 10.
      * left. rewrite lookup_insert_ne in Hne by exact Hne'. eapply Hdiff; eauto.
Qed.

Lemma mappingIds_pair (m : mapping) rt plans pn pid :
  (rt, plans) ∈ m -> (pn, pid) ∈ plans -> join ["k"; rt; pn] ∈ mappingIds m.
Proof.
  intros Hm Hp. unfold mappingIds.
  apply list_elem_of_bind. exists (rt, plans). split; [|exact Hm].
  apply list_elem_of_bind. exists (pn, pid). split; [|exact Hp].
  apply list_elem_of_singleton. reflexivity.
Qed.

Section Lens.
Context {S : Type} (proj : S -> mappings) (inj : mappings -> S -> S).
Hypothesis proj_inj : ∀ t s, proj (inj t s) = t.
Hypothesis inj_inj : ∀ t t' s, inj t (inj t' s) = inj t s.
Hypothesis inj_proj : ∀ s, inj (proj s) s = s.

Lemma zoom_seeding_step ids (r0 r : mappings) evs rt pn pid s :
  seeding ids r0 r evs ->
  join ["k"; rt; pn] ∈ ids -> nonEmpty pid = true ->
  ∃ r' evs',
    (let* found := zoom proj inj (mappedMeteringPlan rt pn) in
     if truthyId found then ret tt
     else zoom proj inj (newMeteringMapping rt pn pid)) (inj r s) = Ok tt (inj r' s) ∧
    seeding ids r0 r' evs'.
Proof.
  intros Hseed Hid Hpid.
  destruct (seeding_step ids r0 r evs rt pn pid Hseed Hid Hpid) as (r' & evs' & Hrun & Hseed').
  exists r', evs'. split; [|exact Hseed'].
  unfold bind, zoom in *. rewrite proj_inj.
  destruct (mappedMeteringPlan rt pn r) as [found t| |]; try discriminate.
  rewrite inj_inj. destruct (truthyId found).
  - unfold ret in *. now injection Hrun as ->.
  - rewrite proj_inj, Hrun. now rewrite inj_inj.
Qed.

Lemma zoom_seeding_plans ids (r0 : mappings) rt s (plans : list (string * string)) :
  (∀ pn pid, (pn, pid) ∈ plans -> join ["k"; rt; pn] ∈ ids ∧ nonEmpty pid = true) ->
  forall r evs,
    seeding ids r0 r evs ->
    ∃ r' evs',
      forEach (fun '(planName, planId) =>
                 let* found := zoom proj inj (mappedMeteringPlan rt planName) in
                 if truthyId found then ret tt
                 else zoom proj inj (newMeteringMapping rt planName planId))
              plans (inj r s) = Ok tt (inj r' s) ∧
      seeding ids r0 r' evs'.
Proof.
  induction plans as [|[pn pid] plans IH]; intros Hplans r evs Hseed.
  - exists r, evs. split; [reflexivity | exact Hseed].
  - destruct (Hplans pn pid) as [Hid Hpid]; [left|].
    destruct (zoom_seeding_step ids r0 r evs rt pn pid s Hseed Hid Hpid)
      as (r1 & evs1 & Hrun1 & Hseed1).
    destruct (IH (fun pn' pid' Hin => Hplans pn' pid' (list_elem_of_further _ _ _ Hin))
                 r1 evs1 Hseed1) as (r2 & evs2 & Hrun2 & Hseed2).
    exists r2, evs2. split; [|exact Hseed2].
    cbn [forEach]. unfold bind at 1. rewrite Hrun1. exact Hrun2.
Qed.

Lemma zoom_seeding_mapping ids (r0 : mappings) s (m : mapping) :
  (∀ rt plans pn pid, (rt, plans) ∈ m -> (pn, pid) ∈ plans ->
                      join ["k"; rt; pn] ∈ ids ∧ nonEmpty pid = true) ->
  forall r evs,
    seeding ids r0 r evs ->
    ∃ r' evs',
      forEach (fun '(resourceType, plans) =>
                 forEach (fun '(planName, planId) =>
                            let* found := zoom proj inj (mappedMeteringPlan resourceType planName) in
                            if truthyId found then ret tt
                            else zoom proj inj (newMeteringMapping resourceType planName planId))
                         plans)
              m (inj r s) = Ok tt (inj r' s) ∧
      seeding ids r0 r' evs'.
Proof.
  induction m as [|[rt plans] m IH]; intros Hm r evs Hseed.
  - exists r, evs. split; [reflexivity | exact Hseed].
  - destruct (zoom_seeding_plans ids r0 rt s plans) with (r := r) (evs := evs)
      as (r1 & evs1 & Hrun1 & Hseed1).
    { intros pn pid Hin. apply (Hm rt plans pn pid); [left | exact Hin]. }
    { exact Hseed. }
    destruct (IH (fun rt' plans' pn' pid' Hin =>
                    Hm rt' plans' pn' pid' (list_elem_of_further _ _ _ Hin))
                 r1 evs1 Hseed1) as (r2 & evs2 & Hrun2 & Hseed2).
    exists r2, evs2. split; [|exact Hseed2].
    cbn [forEach]. unfold bind at 1. rewrite Hrun1. exact Hrun2.
Qed.

End Lens.

Lemma countCb_run c cb s n :
  counters s !! c = Some n ->
  countCb c cb s =
    if (S n =? 3)%nat then cb (with_counters (alter S c) s)
    else Ok tt (with_counters (alter S c) s).
Proof.
  intros Hc. unfold countCb, bind, modify, get. cbn [with_counters counters].
  rewrite lookup_alter_eq, Hc. cbn [fmap option_fmap option_map default id].
  now destruct (S n =? 3)%nat.
Qed.

Lemma exampleMapping_proper : properMapping exampleMapping.
Proof.
  intros rt plans pn pid Hm Hp.
  apply list_elem_of_singleton in Hm. injection Hm as -> ->.
  apply elem_of_cons in Hp as [Hp|Hp]; [now injection Hp as -> ->|].
  apply list_elem_of_singleton in Hp. now injection Hp as -> ->.
Defined.

Lemma seededMappings_atRest : atRest seededMappings.
Proof.
  split; [reflexivity|]. eexists. split; [reflexivity|].
  intros id doc Hl.
  apply lookup_insert_Some in Hl as [[_ <-]|[_ Hl]]; [reflexivity|].
  apply lookup_insert_Some in Hl as [[_ <-]|[_ Hl]]; [reflexivity|].
  rewrite lookup_empty in Hl. discriminate.
Defined.

Lemma seededMappings_resolvable id :
  id ∈ mappingIds exampleMapping -> resolvable seededMappings id.
Proof.
  intros Hin. right.
  apply elem_of_cons in Hin as [->|Hin]; [eexists _, _; split; reflexivity|].
  apply list_elem_of_singleton in Hin as ->. eexists _, _; split; reflexivity.
Defined.

(** On the example: seeding empty databases writes the two mappings of
    each default map; seeding again writes nothing more. *)
Example storeDefaultMappings_example :
  observe (fun _ s1 =>
             (List.filter isDbPut (log (meteringMappings s1)),
              bool_decide (db (meteringMappings s1) = db seededMappings),
              observe (fun _ s2 =>
                         (List.filter isDbPut (log (meteringMappings s2)),
                          bool_decide (db (meteringMappings s2) = db seededMappings)))
                      (storeDefaultMappings exampleDefaults (ret tt) s1)))
          (storeDefaultMappings exampleDefaults (ret tt) (exampleStores emptyMappings))
  = Some ([DbPut "k/object-storage/basic"; DbPut "k/object-storage/standard"], true,
          Some ([DbPut "k/object-storage/basic"; DbPut "k/object-storage/standard"],
                true)).
Proof. vm_compute. reflexivity. Qed.

End ResolverFacts.

(** ** More on the plan mappings and plan resolvers *)

Module MappingsFacts.
Import Js Resolver Provisioning Mappings Seeding ResolverFacts.

(** X1: A mapping resolver whose lock is free comes back, with a value or
    with the database's error, and in both cases the [finally] has released
    the lock: the accesses it made lie between taking and releasing it, the
    locks held and the database are as before. *)
Theorem mappedMeteringPlan_releases_lock rt pn (s : mappings) :
  join ["k"; rt; pn] ∉ held s ->
  match mappedMeteringPlan rt pn s with
  | Ok _ s' | Throw _ s' =>
      held s' = held s ∧ db s' = db s ∧
      ∃ evs, log s' = log s ++ [Locked (join ["k"; rt; pn])] ++ evs
                            ++ [Unlocked (join ["k"; rt; pn])]
  | Pending => False
  end.
Proof.
  intros Hfree. rewrite mappedMeteringPlan_run by exact Hfree.
  assert (Hh := held_released (held s) _ Hfree).
  destruct (truthyId (cache s !! join ["k"; rt; pn]));
    [split; [exact Hh | split; [reflexivity | eexists; reflexivity]]|].
  destruct (db s) as [docs|] eqn:Hdb;
    [|split; [exact Hh | split; [exact Hdb | eexists; reflexivity]]].
  destruct (docs !! join ["k"; rt; pn]);
    (split; [exact Hh | split; [exact Hdb | eexists; reflexivity]]).
Qed.

Lemma mappedMeteringPlan_releases_lock_witness :
  match mappedMeteringPlan "object-storage" "basic"
          {| cache := ∅; db := None; held := ∅; log := [] |} with
  | Ok _ s' | Throw _ s' => held s' = ∅ ∧ db s' = None
  | Pending => False
  end.
Proof.
  pose proof (mappedMeteringPlan_releases_lock "object-storage" "basic"
                {| cache := ∅; db := None; held := ∅; log := [] |}) as H.
  assert (Hfree : join ["k"; "object-storage"; "basic"]%string ∉ (∅ : gset string))
    by apply not_elem_of_empty.
  specialize (H Hfree).
  destruct (mappedMeteringPlan _ _ _) as [a s'|e s'|]; [| |exact H];
    (destruct H as (Hh & Hd & _); split; assumption).
Defined.

Lemma create_then_resolve rt pn pid (s : mappings) docs :
  db s = Some docs ->
  join ["k"; rt; pn] ∉ held s ->
  truthyId (cache s !! join ["k"; rt; pn]) = false ->
  ∃ s1 s2,
    newMeteringMapping rt pn pid s = Ok tt s1 ∧
    mappedMeteringPlan rt pn s1 = Ok (Some pid) s2 ∧
    cache s2 !! join ["k"; rt; pn] = Some pid ∧
    db s2 = Some (<[join ["k"; rt; pn] := {| planId := pid |}]> docs).
Proof.
  intros Hdb Hfree Hcold. set (id := join ["k"; rt; pn]) in *.
  unfold newMeteringMapping, dbPut. fold id. rewrite Hdb.
  eexists _, _. split; [reflexivity|].
  rewrite mappedMeteringPlan_run by exact Hfree. fold id.
  cbn [cache db]. rewrite Hcold, lookup_insert_eq. cbn [planId].
  split; [reflexivity|]. cbn [released cache db].
  split; [apply lookup_insert_eq | reflexivity].
Qed.

(** X2: A mapping that was created resolves to its plan id, which is then
    cached, as long as no plan id is cached for the pair. *)
Theorem newMeteringMapping_round_trip rt pn pid (s : mappings) docs :
  db s = Some docs ->
  join ["k"; rt; pn] ∉ held s ->
  truthyId (cache s !! join ["k"; rt; pn]) = false ->
  ∃ s1 s2,
    newMeteringMapping rt pn pid s = Ok tt s1 ∧
    mappedMeteringPlan rt pn s1 = Ok (Some pid) s2 ∧
    cache s2 !! join ["k"; rt; pn] = Some pid ∧
    db s2 = Some (<[join ["k"; rt; pn] := {| planId := pid |}]> docs).
Proof.
  intros Hdb Hfree Hcold. set (id := join ["k"; rt; pn]) in *.
  unfold newMeteringMapping, dbPut. fold id. rewrite Hdb.
  eexists _, _. split; [reflexivity|].
  rewrite mappedMeteringPlan_run by exact Hfree. fold id.
  cbn [cache db]. rewrite Hcold, lookup_insert_eq. cbn [planId].
  split; [reflexivity|]. cbn [released cache db].
  split; [apply lookup_insert_eq | reflexivity].
Qed.

Lemma newMeteringMapping_round_trip_witness :
  ∃ s1 s2,
    newMeteringMapping "object-storage" "basic" "basic-object-storage" emptyMappings
      = Ok tt s1 ∧
    mappedMeteringPlan "object-storage" "basic" s1 = Ok (Some "basic-object-storage"%string) s2.
Proof.
  destruct (newMeteringMapping_round_trip "object-storage" "basic" "basic-object-storage"
              emptyMappings ∅ eq_refl) as (s1 & s2 & H1 & H2 & _).
  - vm_compute. intros H. inversion H.
  - reflexivity.
  - exists s1, s2. split; assumption.
Defined.

(** X3: Creating a mapping does not touch the cache: while a plan id is cached
    for the pair, the resolver keeps answering the cached one, whatever was
    stored since. *)
Theorem newMeteringMapping_stale_cache rt pn pid old (s : mappings) docs :
  db s = Some docs ->
  join ["k"; rt; pn] ∉ held s ->
  cache s !! join ["k"; rt; pn] = Some old -> nonEmpty old = true ->
  ∃ s1 s2,
    newMeteringMapping rt pn pid s = Ok tt s1 ∧
    db s1 = Some (<[join ["k"; rt; pn] := {| planId := pid |}]> docs) ∧
    mappedMeteringPlan rt pn s1 = Ok (Some old) s2 ∧
    cache s2 = cache s ∧ db s2 = db s1.
Proof.
  intros Hdb Hfree Hc Hold. set (id := join ["k"; rt; pn]) in *.
  unfold newMeteringMapping, dbPut. fold id. rewrite Hdb.
  eexists _, _. split; [reflexivity|]. split; [reflexivity|].
  rewrite mappedMeteringPlan_run by exact Hfree. fold id.
  cbn [cache db]. rewrite Hc. cbn [truthyId]. rewrite Hold.
  split; [reflexivity|]. split; reflexivity.
Qed.

Lemma newMeteringMapping_stale_cache_witness :
  ∃ s1 s2,
    newMeteringMapping "object-storage" "basic" "other-plan"
      {| cache := {["k/object-storage/basic"%string := "basic-object-storage"%string]};
         db := Some ∅; held := ∅; log := [] |} = Ok tt s1 ∧
    mappedMeteringPlan "object-storage" "basic" s1 = Ok (Some "basic-object-storage"%string) s2.
Proof.
  destruct (newMeteringMapping_stale_cache "object-storage" "basic" "other-plan"
              "basic-object-storage"
              {| cache := {["k/object-storage/basic"%string := "basic-object-storage"%string]};
                 db := Some ∅; held := ∅; log := [] |} ∅ eq_refl)
    as (s1 & s2 & H1 & _ & H2 & _).
  - vm_compute. intros H. inversion H.
  - reflexivity.
  - reflexivity.
  - exists s1, s2. split; assumption.
Defined.

(** X4: Cache-aside: once a stored mapping has been resolved, the next lookup
    of the pair is answered from the cache, without a read of the
    database. *)
Theorem mappedMeteringPlan_second_from_cache rt pn (s : mappings) docs d :
  db s = Some docs ->
  docs !! join ["k"; rt; pn] = Some d -> nonEmpty (planId d) = true ->
  join ["k"; rt; pn] ∉ held s ->
  truthyId (cache s !! join ["k"; rt; pn]) = false ->
  ∃ s1 s2,
    mappedMeteringPlan rt pn s = Ok (Some (planId d)) s1 ∧
    DbGet (join ["k"; rt; pn]) ∈ drop (length (log s)) (log s1) ∧
    mappedMeteringPlan rt pn s1 = Ok (Some (planId d)) s2 ∧
    log s2 = log s1 ++ [Locked (join ["k"; rt; pn]); CacheGet (join ["k"; rt; pn]);
                        Unlocked (join ["k"; rt; pn])].
Proof.
  intros Hdb Hdoc Hd Hfree Hcold. set (id := join ["k"; rt; pn]) in *.
  assert (Hh := held_released (held s) _ Hfree).
  rewrite mappedMeteringPlan_run by exact Hfree. fold id.
  rewrite Hcold, Hdb, Hdoc.
  eexists _, _. split; [reflexivity|]. split.
  { cbn [released log]. rewrite drop_app_length. cbn [app].
    rewrite !elem_of_cons. auto. }
  rewrite mappedMeteringPlan_run by (cbn [released held]; fold id; now rewrite Hh).
  fold id. cbn [released cache]. rewrite lookup_insert_eq. cbn [truthyId]. rewrite Hd.
  split; reflexivity.
Qed.

Lemma mappedMeteringPlan_second_from_cache_witness :
  ∃ s1 s2,
    mappedMeteringPlan "object-storage" "basic" seededMappings
      = Ok (Some "basic-object-storage"%string) s1 ∧
    mappedMeteringPlan "object-storage" "basic" s1
      = Ok (Some "basic-object-storage"%string) s2 ∧
    log s2 = log s1 ++ [Locked "k/object-storage/basic"; CacheGet "k/object-storage/basic";
                        Unlocked "k/object-storage/basic"].
Proof.
  destruct (mappedMeteringPlan_second_from_cache "object-storage" "basic" seededMappings
              _ {| planId := "basic-object-storage" |} eq_refl)
    as (s1 & s2 & H1 & _ & H2 & H3).
  - reflexivity.
  - reflexivity.
  - vm_compute. intros H. inversion H.
  - reflexivity.
  - exists s1, s2. repeat split; assumption.
Defined.

(** X5: The document id of a pair is its parts joined by a slash, so pairs
    that only differ in where a slash falls share a mapping: what is
    created for [(a/b, c)] is what [(a, b/c)] resolves to. *)
Theorem mapping_ids_collide a b c pid (s : mappings) docs :
  db s = Some docs ->
  join ["k"; a; String.append b (String.append "/" c)] ∉ held s ->
  truthyId (cache s !! join ["k"; a; String.append b (String.append "/" c)]) = false ->
  ∃ s1 s2,
    newMeteringMapping (String.append a (String.append "/" b)) c pid s = Ok tt s1 ∧
    mappedMeteringPlan a (String.append b (String.append "/" c)) s1 = Ok (Some pid) s2.
Proof.
  intros Hdb Hfree Hcold.
  assert (Hid : join ["k"; String.append a (String.append "/" b); c]
                = join ["k"; a; String.append b (String.append "/" c)]).
  { unfold join. cbn [String.concat].
    f_equal. f_equal. now rewrite !EncoderFacts.string_app_assoc. }
  destruct (create_then_resolve a (String.append b (String.append "/" c)) pid s docs
              Hdb Hfree Hcold) as (s1 & s2 & H1 & H2 & _).
  exists s1, s2. split; [|exact H2].
  unfold newMeteringMapping in *. now rewrite Hid.
Qed.

Lemma mapping_ids_collide_witness :
  ∃ s1 s2,
    newMeteringMapping "a/b" "c" "plan" emptyMappings = Ok tt s1 ∧
    mappedMeteringPlan "a" "b/c" s1 = Ok (Some "plan"%string) s2.
Proof.
  destruct (mapping_ids_collide "a" "b" "c" "plan" emptyMappings ∅ eq_refl)
    as (s1 & s2 & H1 & H2).
  - vm_compute. intros H. inversion H.
  - reflexivity.
  - exists s1, s2. split; assumption.
Defined.

(** *** Seeding with an unreachable database *)

(** *** Seeding a database that cannot be reached *)






(** *** What seeding leaves behind *)

Lemma settled_start (m : mapping) (r0 : mappings) : atRest r0 -> settled m r0 r0.
Proof.
  intros Hr. split; [exact Hr|]. split; [auto|]. split.
  - intros docs0 docs id d H0 H1 Hd. left. congruence.
  - intros id v Hc. now left.
Qed.

(** One pair of the default map: afterwards it is resolvable. *)
Lemma settled_step (m : mapping) (r0 r : mappings) rt pn pid :
  settled m r0 r -> inTable m rt pn pid -> nonEmpty pid = true ->
  ∃ r',
    (let* found := mappedMeteringPlan rt pn in
     if truthyId found then ret tt else newMeteringMapping rt pn pid) r = Ok tt r' ∧
    settled m r0 r' ∧
    resolvable r' (join ["k"; rt; pn]) ∧
    (∀ id', resolvable r id' -> resolvable r' id').
Proof.
  intros ((Hheld & docs & Hdb & Hproper) & Hmono & Hdocs & Hcache) Hin Hpid.
  set (id := join ["k"; rt; pn]) in *.
  assert (Hfree : id ∉ held r) by (rewrite Hheld; apply not_elem_of_empty).
  assert (Hrel : (held r ∪ {[id]}) ∖ {[id]} = ∅)
    by (rewrite held_released by exact Hfree; exact Hheld).
  unfold bind at 1. rewrite mappedMeteringPlan_run by exact Hfree. fold id.
  destruct (truthyId (cache r !! id)) eqn:Hcached.
  - (* cached *)
    rewrite Hcached. cbn [ret]. eexists. split; [reflexivity|].
    split; [|split].
    + split; [split; [exact Hrel | exists docs; split; [exact Hdb | exact Hproper]]|].
      split; [exact Hmono|]. split; [exact Hdocs | exact Hcache].
    + left. exact Hcached.
    + intros id' Hr. exact Hr.
  - rewrite Hdb. destruct (docs !! id) as [d|] eqn:Hdoc.
    + (* stored *)
      assert (Hd : nonEmpty (planId d) = true) by (eapply Hproper; exact Hdoc).
      cbn [truthyId]. rewrite Hd. cbn [ret]. eexists. split; [reflexivity|].
      assert (Hkeep : ∀ id', resolvable r id' ->
                resolvable (released id [CacheGet id; DbGet id; CacheSet id]
                                     (<[id := planId d]> (cache r)) r) id').
      { intros id' [Hc|Hs]; [left|right; exact Hs].
        cbn [released cache]. destruct (decide (id = id')) as [<-|Hne'].
        - rewrite lookup_insert_eq. exact Hd.
        - now rewrite lookup_insert_ne. }
      split; [|split; [|exact Hkeep]].
      * split; [split; [exact Hrel | exists docs; split; [exact Hdb | exact Hproper]]|].
        split; [intros id' Hr; apply Hkeep, Hmono, Hr|].
        split; [exact Hdocs|].
        intros id' v Hc. cbn [released cache db] in *.
        destruct (decide (id = id')) as [<-|Hne'].
        -- rewrite lookup_insert_eq in Hc. injection Hc as <-.
           right. exists docs, d. auto.
        -- rewrite lookup_insert_ne in Hc by exact Hne'. exact (Hcache id' v Hc).
      * right. exists docs, d. auto.
    + (* absent: created *)
      cbn [truthyId]. unfold newMeteringMapping, dbPut. fold id.
      cbn [released db cache held log]. rewrite Hdb.
      eexists. split; [reflexivity|].
      assert (Hkeep : ∀ id', resolvable r id' ->
                resolvable {| cache := cache r;
                              db := Some (<[id := {| planId := pid |}]> docs);
                              held := (held r ∪ {[id]}) ∖ {[id]};
                              log := (log r ++ [Locked id] ++ [CacheGet id; DbGet id]
                                      ++ [Unlocked id]) ++ [DbPut id] |} id').
      { intros id' [Hc|(docs1 & d1 & Hdb1 & Hd1)]; [left; exact Hc|right].
        rewrite Hdb in Hdb1. injection Hdb1 as <-. cbn [db].
        destruct (decide (id = id')) as [<-|Hne'].
        - eexists _, _. split; [reflexivity | apply lookup_insert_eq].
        - eexists _, d1. split; [reflexivity|]. now rewrite lookup_insert_ne. }
      assert (Hnot0 : ¬ resolvable r0 id).
      { intros Hr0. destruct (Hmono _ Hr0) as [Hc|(docs1 & d1 & Hdb1 & Hd1)]; [congruence|].
        rewrite Hdb in Hdb1. injection Hdb1 as <-. congruence. }
      split; [|split; [|exact Hkeep]].
      * split.
        { split; [exact Hrel|]. eexists. split; [reflexivity|].
          intros id' doc Hl. destruct (decide (id = id')) as [<-|Hne'].
          - rewrite lookup_insert_eq in Hl. injection Hl as <-. exact Hpid.
          - rewrite lookup_insert_ne in Hl by exact Hne'. eapply Hproper; exact Hl. }
        split; [intros id' Hr; apply Hkeep, Hmono, Hr|].
        split.
        { intros docs0 docs' id' d' H0 H1 Hd'. cbn [db] in H1. injection H1 as <-.
          destruct (decide (id = id')) as [<-|Hne'].
          - rewrite lookup_insert_eq in Hd'. injection Hd' as <-.
            right. split; [exact Hnot0|]. exists rt, pn. split; [reflexivity | exact Hin].
          - rewrite lookup_insert_ne in Hd' by exact Hne'.
            exact (Hdocs docs0 docs id' d' H0 Hdb Hd'). }
        intros id' v Hc. cbn [cache db] in *.
        destruct (Hcache id' v Hc) as [Hc0|(docs1 & d1 & Hdb1 & Hd1 & Hv)]; [now left|].
        right. rewrite Hdb in Hdb1. injection Hdb1 as <-.
        exists (<[id := {| planId := pid |}]> docs), d1. split; [reflexivity|].
        split; [|exact Hv]. rewrite lookup_insert_ne; [exact Hd1 | congruence].
      * right. eexists _, _. cbn [db]. split; [reflexivity | apply lookup_insert_eq].
Qed.

Section LensSettled.
Context {S : Type} (proj : S -> mappings) (inj : mappings -> S -> S).
Hypothesis proj_inj : ∀ t s, proj (inj t s) = t.
Hypothesis inj_inj : ∀ t t' s, inj t (inj t' s) = inj t s.
Hypothesis inj_proj : ∀ s, inj (proj s) s = s.

Lemma zoom_settled_step (m : mapping) (r0 r : mappings) rt pn pid s :
  settled m r0 r -> inTable m rt pn pid -> nonEmpty pid = true ->
  ∃ r',
    (let* found := zoom proj inj (mappedMeteringPlan rt pn) in
     if truthyId found then ret tt
     else zoom proj inj (newMeteringMapping rt pn pid)) (inj r s) = Ok tt (inj r' s) ∧
    settled m r0 r' ∧
    resolvable r' (join ["k"; rt; pn]) ∧
    (∀ id', resolvable r id' -> resolvable r' id').
Proof.
  intros Hset Hin Hpid.
  destruct (settled_step m r0 r rt pn pid Hset Hin Hpid) as (r' & Hrun & Hrest).
  exists r'. split; [|exact Hrest].
  unfold bind, zoom in *. rewrite proj_inj.
  destruct (mappedMeteringPlan rt pn r) as [found t| |]; try discriminate.
  rewrite inj_inj. destruct (truthyId found).
  - unfold ret in *. now injection Hrun as ->.
  - rewrite proj_inj, Hrun. now rewrite inj_inj.
Qed.

Lemma zoom_settled_plans (m : mapping) (r0 : mappings) rt s (plans : list (string * string)) :
  (∀ pn pid, (pn, pid) ∈ plans -> inTable m rt pn pid ∧ nonEmpty pid = true) ->
  forall r,
    settled m r0 r ->
    ∃ r',
      forEach (fun '(planName, planId) =>
                 let* found := zoom proj inj (mappedMeteringPlan rt planName) in
                 if truthyId found then ret tt
                 else zoom proj inj (newMeteringMapping rt planName planId))
              plans (inj r s) = Ok tt (inj r' s) ∧
      settled m r0 r' ∧
      (∀ pn pid, (pn, pid) ∈ plans -> resolvable r' (join ["k"; rt; pn])) ∧
      (∀ id', resolvable r id' -> resolvable r' id').
Proof.
  induction plans as [|[pn pid] plans IH]; intros Hplans r Hset.
  - exists r. split; [reflexivity|]. split; [exact Hset|].
    split; [intros pn pid Hin; inversion Hin | auto].
  - destruct (Hplans pn pid) as [Hin Hpid]; [left|].
    destruct (zoom_settled_step m r0 r rt pn pid s Hset Hin Hpid)
      as (r1 & Hrun1 & Hset1 & Hres1 & Hkeep1).
    destruct (IH (fun pn' pid' Hin' => Hplans pn' pid' (list_elem_of_further _ _ _ Hin'))
                 r1 Hset1) as (r2 & Hrun2 & Hset2 & Hres2 & Hkeep2).
    exists r2. split; [|split; [exact Hset2|split]].
    + cbn [forEach]. unfold bind at 1. rewrite Hrun1. exact Hrun2.
    + intros pn' pid' Hin'. apply elem_of_cons in Hin' as [Heq|Hin'].
      * injection Heq as -> ->. apply Hkeep2, Hres1.
      * eapply Hres2; exact Hin'.
    + intros id' Hr. apply Hkeep2, Hkeep1, Hr.
Qed.

Lemma zoom_settled_mapping (m : mapping) (r0 : mappings) s (m' : mapping) :
  (∀ rt plans pn pid, (rt, plans) ∈ m' -> (pn, pid) ∈ plans ->
                      inTable m rt pn pid ∧ nonEmpty pid = true) ->
  forall r,
    settled m r0 r ->
    ∃ r',
      forEach (fun '(resourceType, plans) =>
                 forEach (fun '(planName, planId) =>
                            let* found := zoom proj inj (mappedMeteringPlan resourceType planName) in
                            if truthyId found then ret tt
                            else zoom proj inj (newMeteringMapping resourceType planName planId))
                         plans)
              m' (inj r s) = Ok tt (inj r' s) ∧
      settled m r0 r' ∧
      (∀ rt pn pid, inTable m' rt pn pid -> resolvable r' (join ["k"; rt; pn])) ∧
      (∀ id', resolvable r id' -> resolvable r' id').
Proof.
  induction m' as [|[rt plans] m' IH]; intros Hm r Hset.
  - exists r. split; [reflexivity|]. split; [exact Hset|].
    split; [intros rt pn pid (plans & Hin & _); inversion Hin | auto].
  - destruct (zoom_settled_plans m r0 rt s plans) with (r := r)
      as (r1 & Hrun1 & Hset1 & Hres1 & Hkeep1).
    { intros pn pid Hin. apply (Hm rt plans pn pid); [left | exact Hin]. }
    { exact Hset. }
    destruct (IH (fun rt' plans' pn' pid' Hin =>
                    Hm rt' plans' pn' pid' (list_elem_of_further _ _ _ Hin))
                 r1 Hset1) as (r2 & Hrun2 & Hset2 & Hres2 & Hkeep2).
    exists r2. split; [|split; [exact Hset2|split]].
    + cbn [forEach]. unfold bind at 1. rewrite Hrun1. exact Hrun2.
    + intros rt' pn' pid' (plans' & Hin & Hp). apply elem_of_cons in Hin as [Heq|Hin].
      * injection Heq as -> ->. eapply Hkeep2, Hres1. exact Hp.
      * apply (Hres2 rt' pn' pid'). exists plans'. split; assumption.
    + intros id' Hr. apply Hkeep2, Hkeep1, Hr.
Qed.

(** What a resolver settled after seeding answers for a pair of the map. *)
Lemma settled_resolves (m : mapping) (r0 r : mappings) :
  settled m r0 r ->
  (∀ rt pn pid, inTable m rt pn pid -> resolvable r (join ["k"; rt; pn])) ->
  resolvesDefaults mappedMeteringPlan m r0 r.
Proof.
  intros ((Hheld & docs & Hdb & Hproper) & Hmono & Hdocs & Hcache) Hall rt pn pid Hin.
  set (id := join ["k"; rt; pn]).
  assert (Hfree : id ∉ held r) by (rewrite Hheld; apply not_elem_of_empty).
  assert (Hstored : ∀ d, docs !! id = Some d ->
            cache r0 = ∅ -> db r0 = Some ∅ -> oneIdOnePlan m -> planId d = pid).
  { intros d Hd Hc0 Hdb0 Hone.
    destruct (Hdocs ∅ docs id d Hdb0 Hdb Hd) as [H0|(_ & rt' & pn' & Hid & Hin')].
    - rewrite lookup_empty in H0. discriminate.
    - symmetry. eapply (Hone rt pn pid rt' pn'); eassumption. }
  rewrite mappedMeteringPlan_run by exact Hfree. fold id.
  destruct (cache r !! id) as [v|] eqn:Hc; cbn [truthyId].
  - destruct (nonEmpty v) eqn:Hv.
    + eexists v, _. split; [reflexivity|]. split; [exact Hv|].
      intros Hc0 Hdb0 Hone.
      destruct (Hcache id v Hc) as [H0|(docs1 & d & Hdb1 & Hd & ->)].
      * rewrite Hc0, lookup_empty in H0. discriminate.
      * rewrite Hdb in Hdb1. injection Hdb1 as <-. now apply Hstored.
    + destruct (Hall rt pn pid Hin) as [Hr|(docs1 & d & Hdb1 & Hd)].
      * fold id in Hr. rewrite Hc in Hr. cbn [truthyId] in Hr. congruence.
      * fold id in Hd. rewrite Hdb in Hdb1. injection Hdb1 as <-.
        rewrite Hdb, Hd. eexists _, _. split; [reflexivity|].
        split; [eapply Hproper; exact Hd | now apply Hstored].
  - destruct (Hall rt pn pid Hin) as [Hr|(docs1 & d & Hdb1 & Hd)].
    + fold id in Hr. rewrite Hc in Hr. discriminate.
    + fold id in Hd. rewrite Hdb in Hdb1. injection Hdb1 as <-.
      rewrite Hdb, Hd. eexists _, _. split; [reflexivity|].
      split; [eapply Hproper; exact Hd | now apply Hstored].
Qed.

Lemma storeMapping_resolves (m : mapping) (cb : M S unit) s :
  properMapping m -> atRest (proj s) ->
  ∃ r',
    storeMapping (fun rt pn => zoom proj inj (mappedMeteringPlan rt pn))
                 (fun rt pn id => zoom proj inj (newMeteringMapping rt pn id))
                 m cb s = cb (inj r' s) ∧
    resolvesDefaults mappedMeteringPlan m (proj s) r'.
Proof.
  intros Hm Hrest.
  destruct (zoom_settled_mapping m (proj s) s m) with (r := proj s)
    as (r' & Hrun & Hset & Hres & _).
  { intros rt plans pn pid Hin Hp. split; [exists plans; split; assumption|].
    eapply Hm; eassumption. }
  { now apply settled_start. }
  exists r'. rewrite inj_proj in Hrun. unfold storeMapping. rewrite Hrun.
  split; [reflexivity|]. now apply settled_resolves.
Qed.

End LensSettled.

Lemma storeMapping_metering_resolves (m : mapping) cb s :
  properMapping m -> atRest (meteringMappings s) ->
  ∃ r',
    storeMapping (fun rt pn => onMetering (mappedMeteringPlan rt pn))
                 (fun rt pn id => onMetering (newMeteringMapping rt pn id))
                 m cb s = cb (setMetering r' s) ∧
    resolvesDefaults mappedMeteringPlan m (meteringMappings s) r'.
Proof.
  apply (storeMapping_resolves meteringMappings setMetering); try reflexivity.
  now intros [].
Qed.

Lemma storeMapping_rating_resolves (m : mapping) cb s :
  properMapping m -> atRest (ratingMappings s) ->
  ∃ r',
    storeMapping (fun rt pn => onRating (mappedRatingPlan rt pn))
                 (fun rt pn id => onRating (newRatingMapping rt pn id))
                 m cb s = cb (setRating r' s) ∧
    resolvesDefaults mappedRatingPlan m (ratingMappings s) r'.
Proof.
  apply (storeMapping_resolves ratingMappings setRating); try reflexivity.
  now intros [].
Qed.

Lemma storeMapping_pricing_resolves (m : mapping) cb s :
  properMapping m -> atRest (pricingMappings s) ->
  ∃ r',
    storeMapping (fun rt pn => onPricing (mappedPricingPlan rt pn))
                 (fun rt pn id => onPricing (newPricingMapping rt pn id))
                 m cb s = cb (setPricing r' s) ∧
    resolvesDefaults mappedPricingPlan m (pricingMappings s) r'.
Proof.
  apply (storeMapping_resolves pricingMappings setPricing); try reflexivity.
  now intros [].
Qed.

(** X7: After [storeDefaultMappings], on resolvers at rest and proper default
    maps, every pair of the three default maps resolves to a plan id that
    is not empty; it resolves to its own default when the resolver started
    with an empty cache and an empty database and the map has one plan per
    document id. *)
Theorem storeDefaultMappings_resolves (d : defaults) cb s0 :
  properMapping (defaultMeteringMapping d) ->
  properMapping (defaultRatingMapping d) ->
  properMapping (defaultPricingMapping d) ->
  atRest (meteringMappings s0) -> atRest (ratingMappings s0) ->
  atRest (pricingMappings s0) ->
  ∃ s',
    storeDefaultMappings d cb s0 = cb s' ∧
    resolvesDefaults mappedMeteringPlan (defaultMeteringMapping d)
                     (meteringMappings s0) (meteringMappings s') ∧
    resolvesDefaults mappedRatingPlan (defaultRatingMapping d)
                     (ratingMappings s0) (ratingMappings s') ∧
    resolvesDefaults mappedPricingPlan (defaultPricingMapping d)
                     (pricingMappings s0) (pricingMappings s').
Proof.
  intros Hm Hr Hp Hrm Hrr Hrp.
  unfold storeDefaultMappings. unfold bind at 1.
  set (c := fresh (dom (counters s0))).
  set (s1 := with_counters (insert c 0%nat) s0).
  destruct (storeMapping_metering_resolves (defaultMeteringMapping d) (countCb c cb) s1 Hm Hrm)
    as (r1 & Hrun1 & Hres1).
  unfold bind at 1. rewrite Hrun1.
  rewrite (countCb_run c cb _ 0%nat) by apply lookup_insert_eq.
  cbn [Nat.eqb].
  set (s2 := with_counters (alter S c) (setMetering r1 s1)).
  destruct (storeMapping_rating_resolves (defaultRatingMapping d) (countCb c cb) s2 Hr Hrr)
    as (r2 & Hrun2 & Hres2).
  unfold bind at 1. rewrite Hrun2.
  rewrite (countCb_run c cb _ 1%nat)
    by (cbn [setRating counters s2 with_counters setMetering s1];
        now rewrite lookup_alter_eq, lookup_insert_eq).
  cbn [Nat.eqb].
  set (s3 := with_counters (alter S c) (setRating r2 s2)).
  destruct (storeMapping_pricing_resolves (defaultPricingMapping d) (countCb c cb) s3 Hp Hrp)
    as (r3 & Hrun3 & Hres3).
  rewrite Hrun3.
  rewrite (countCb_run c cb _ 2%nat)
    by (cbn [setPricing setRating counters s3 s2 with_counters setMetering s1];
        now rewrite !lookup_alter_eq, lookup_insert_eq).
  cbn [Nat.eqb].
  eexists. split; [reflexivity|].
  split; [exact Hres1|]. split; [exact Hres2 | exact Hres3].
Qed.

Lemma emptyMappings_atRest : atRest emptyMappings.
Proof.
  split; [reflexivity|]. eexists. split; [reflexivity|].
  intros id doc Hl. rewrite lookup_empty in Hl. discriminate.
Defined.

Lemma exampleMapping_oneIdOnePlan : oneIdOnePlan exampleMapping.
Proof.
  intros rt pn pid rt' pn' pid' (plans & Hm & Hp) (plans' & Hm' & Hp') Hid.
  apply list_elem_of_singleton in Hm. injection Hm as -> ->.
  apply list_elem_of_singleton in Hm'. injection Hm' as -> ->.
  apply elem_of_cons in Hp as [Hp|Hp]; [injection Hp as -> ->|
    apply list_elem_of_singleton in Hp; injection Hp as -> ->];
  (apply elem_of_cons in Hp' as [Hp'|Hp']; [injection Hp' as -> ->|
    apply list_elem_of_singleton in Hp'; injection Hp' as -> ->]);
  try reflexivity; discriminate.
Defined.

Lemma storeDefaultMappings_resolves_witness :
  ∃ s' r',
    storeDefaultMappings exampleDefaults (ret tt) (exampleStores emptyMappings) = Ok tt s' ∧
    mappedMeteringPlan "object-storage" "standard" (meteringMappings s')
      = Ok (Some "standard-object-storage"%string) r'.
Proof.
  destruct (storeDefaultMappings_resolves exampleDefaults (ret tt)
              (exampleStores emptyMappings)
              exampleMapping_proper exampleMapping_proper exampleMapping_proper
              emptyMappings_atRest emptyMappings_atRest emptyMappings_atRest)
    as (s' & Hrun & Hmet & _).
  destruct (Hmet "object-storage"%string "standard"%string "standard-object-storage"%string)
    as (v & r' & Hres & _ & Hv).
  { eexists. split; [left|]. right. left. }
  rewrite (Hv eq_refl eq_refl exampleMapping_oneIdOnePlan) in Hres.
  exists s', r'. split; assumption.
Defined.

(** *** Seeding creates what is missing, and only that *)

Lemma mappingIds_inTable (m : mapping) id :
  id ∈ mappingIds m -> ∃ rt pn pid, inTable m rt pn pid ∧ id = join ["k"; rt; pn].
Proof.
  unfold mappingIds. intros Hin.
  apply list_elem_of_bind in Hin as ([rt plans] & Hin & Hm).
  apply list_elem_of_bind in Hin as ([pn pid] & Hin & Hp).
  apply list_elem_of_singleton in Hin.
  exists rt, pn, pid. split; [exists plans; split; assumption | exact Hin].
Qed.

Section LensSeeds.
Context {S : Type} (proj : S -> mappings) (inj : mappings -> S -> S).
Hypothesis proj_inj : ∀ t s, proj (inj t s) = t.
Hypothesis inj_inj : ∀ t t' s, inj t (inj t' s) = inj t s.
Hypothesis inj_proj : ∀ s, inj (proj s) s = s.

(** [storeMapping] on a resolver at rest: it ends in its callback, the
    resolver seeded and at rest, the rest of the state as it was. *)
Lemma storeMapping_seedsDefaults (m : mapping) (cb : M S unit) s :
  properMapping m -> atRest (proj s) ->
  ∃ r',
    storeMapping (fun rt pn => zoom proj inj (mappedMeteringPlan rt pn))
                 (fun rt pn id => zoom proj inj (newMeteringMapping rt pn id))
                 m cb s = cb (inj r' s) ∧
    atRest r' ∧ seedsDefaults m (proj s) r'.
Proof.
  intros Hm Hrest.
  destruct (zoom_seeding_mapping proj inj proj_inj inj_inj (mappingIds m) (proj s) s m)
    with (r := proj s) (evs := @nil access) as (r' & evs & Hrun & Hseed).
  { intros rt plans pn pid Hin Hp. split; [eapply mappingIds_pair; eassumption|].
    eapply Hm; eassumption. }
  { now apply seeding_start. }
  destruct (zoom_settled_mapping proj inj proj_inj inj_inj m (proj s) s m)
    with (r := proj s) as (r2 & Hrun2 & Hset & Hres & _).
  { intros rt plans pn pid Hin Hp. split; [exists plans; split; assumption|].
    eapply Hm; eassumption. }
  { now apply settled_start. }
  assert (r2 = r') as ->.
  { rewrite Hrun in Hrun2. injection Hrun2 as Heq.
    apply (f_equal proj) in Heq. now rewrite !proj_inj in Heq. }
  exists r'. rewrite inj_proj in Hrun. unfold storeMapping. rewrite Hrun.
  split; [reflexivity|]. split; [apply Hseed|].
  destruct (seeding_seeded _ _ _ _ Hrest Hseed) as (evs' & Hlog' & _ & Hidem).
  destruct Hseed as ((_ & docs & Hdb & Hproper) & Hlog & Hput & _ & Hdiff).
  assert (evs' = evs) as ->.
  { rewrite Hlog in Hlog'. now apply app_inv_head in Hlog'. }
  destruct Hrest as (_ & docs0 & Hdb0 & _).
  destruct Hset as (_ & _ & Hdocs & Hcache).
  exists evs. split; [exact Hlog|]. split; [exact Hput|].
  split; [|split; [exact Hres|split; [|exact Hidem]]].
  - intros rt pn pid Hin Hnot.
    set (id := join ["k"; rt; pn]) in *.
    assert (Hnone : docs0 !! id = None).
    { destruct (docs0 !! id) as [d0|] eqn:Hd0; [|reflexivity].
      exfalso. apply Hnot. right. exists docs0, d0. split; assumption. }
    assert (Hdoc : ∃ d, docs !! id = Some d).
    { destruct (Hres rt pn pid Hin) as [Hc|(docs1 & d & Hdb1 & Hd)].
      - fold id in Hc. destruct (cache r' !! id) as [v|] eqn:Hv; [|discriminate].
        destruct (Hcache id v Hv) as [H0|(docs1 & d & Hdb1 & Hd & _)].
        + exfalso. apply Hnot. left. now rewrite H0.
        + rewrite Hdb in Hdb1. injection Hdb1 as <-. now exists d.
      - fold id in Hd. rewrite Hdb in Hdb1. injection Hdb1 as <-. now exists d. }
    destruct Hdoc as (d & Hd).
    split.
    + apply (Hdiff docs0 docs Hdb0 Hdb id). rewrite Hd, Hnone. discriminate.
    + exists docs, d. split; [exact Hdb|]. split; [exact Hd|].
      split; [eapply Hproper; exact Hd|].
      intros Hone.
      destruct (Hdocs docs0 docs id d Hdb0 Hdb Hd) as [H0|(_ & rt' & pn' & Hid & Hin')].
      * rewrite Hnone in H0. discriminate.
      * symmetry. eapply (Hone rt pn pid rt' pn'); eassumption.
  - intros docs0' docs' id H0 H1 Hnoput.
    rewrite Hdb0 in H0. injection H0 as <-. rewrite Hdb in H1. injection H1 as <-.
    destruct (decide (docs !! id = docs0 !! id)) as [Heq|Hne]; [exact Heq|].
    exfalso. apply Hnoput. eapply Hdiff; eassumption.
Qed.

End LensSeeds.

Lemma storeMapping_metering_seeds (m : mapping) cb s :
  properMapping m -> atRest (meteringMappings s) ->
  ∃ r',
    storeMapping (fun rt pn => onMetering (mappedMeteringPlan rt pn))
                 (fun rt pn id => onMetering (newMeteringMapping rt pn id))
                 m cb s = cb (setMetering r' s) ∧
    atRest r' ∧ seedsDefaults m (meteringMappings s) r'.
Proof.
  apply (storeMapping_seedsDefaults meteringMappings setMetering); try reflexivity.
  now intros [].
Qed.

Lemma storeMapping_rating_seeds (m : mapping) cb s :
  properMapping m -> atRest (ratingMappings s) ->
  ∃ r',
    storeMapping (fun rt pn => onRating (mappedRatingPlan rt pn))
                 (fun rt pn id => onRating (newRatingMapping rt pn id))
                 m cb s = cb (setRating r' s) ∧
    atRest r' ∧ seedsDefaults m (ratingMappings s) r'.
Proof.
  apply (storeMapping_seedsDefaults ratingMappings setRating); try reflexivity.
  now intros [].
Qed.

Lemma storeMapping_pricing_seeds (m : mapping) cb s :
  properMapping m -> atRest (pricingMappings s) ->
  ∃ r',
    storeMapping (fun rt pn => onPricing (mappedPricingPlan rt pn))
                 (fun rt pn id => onPricing (newPricingMapping rt pn id))
                 m cb s = cb (setPricing r' s) ∧
    atRest r' ∧ seedsDefaults m (pricingMappings s) r'.
Proof.
  apply (storeMapping_seedsDefaults pricingMappings setPricing); try reflexivity.
  now intros [].
Qed.

(** One run of [storeDefaultMappings] on resolvers at rest. *)
Lemma storeDefaultMappings_seeds (d : defaults) cb s0 :
  properMapping (defaultMeteringMapping d) ->
  properMapping (defaultRatingMapping d) ->
  properMapping (defaultPricingMapping d) ->
  atRest (meteringMappings s0) -> atRest (ratingMappings s0) ->
  atRest (pricingMappings s0) ->
  ∃ s',
    storeDefaultMappings d cb s0 = cb s' ∧
    (atRest (meteringMappings s') ∧ atRest (ratingMappings s') ∧
     atRest (pricingMappings s')) ∧
    seedsDefaults (defaultMeteringMapping d) (meteringMappings s0) (meteringMappings s') ∧
    seedsDefaults (defaultRatingMapping d) (ratingMappings s0) (ratingMappings s') ∧
    seedsDefaults (defaultPricingMapping d) (pricingMappings s0) (pricingMappings s').
Proof.
  intros Hm Hr Hp Hrm Hrr Hrp.
  unfold storeDefaultMappings. unfold bind at 1.
  set (c := fresh (dom (counters s0))).
  set (s1 := with_counters (insert c 0%nat) s0).
  destruct (storeMapping_metering_seeds (defaultMeteringMapping d) (countCb c cb) s1 Hm Hrm)
    as (r1 & Hrun1 & Hrest1 & Hseed1).
  unfold bind at 1. rewrite Hrun1.
  rewrite (countCb_run c cb _ 0%nat) by apply lookup_insert_eq.
  cbn [Nat.eqb].
  set (s2 := with_counters (alter S c) (setMetering r1 s1)).
  destruct (storeMapping_rating_seeds (defaultRatingMapping d) (countCb c cb) s2 Hr Hrr)
    as (r2 & Hrun2 & Hrest2 & Hseed2).
  unfold bind at 1. rewrite Hrun2.
  rewrite (countCb_run c cb _ 1%nat)
    by (cbn [setRating counters s2 with_counters setMetering s1];
        now rewrite lookup_alter_eq, lookup_insert_eq).
  cbn [Nat.eqb].
  set (s3 := with_counters (alter S c) (setRating r2 s2)).
  destruct (storeMapping_pricing_seeds (defaultPricingMapping d) (countCb c cb) s3 Hp Hrp)
    as (r3 & Hrun3 & Hrest3 & Hseed3).
  rewrite Hrun3.
  rewrite (countCb_run c cb _ 2%nat)
    by (cbn [setPricing setRating counters s3 s2 with_counters setMetering s1];
        now rewrite !lookup_alter_eq, lookup_insert_eq).
  cbn [Nat.eqb].
  eexists. split; [reflexivity|].
  split; [split; [exact Hrest1 | split; [exact Hrest2 | exact Hrest3]]|].
  split; [exact Hseed1|]. split; [exact Hseed2 | exact Hseed3].
Qed.

Lemma seedsDefaults_again (m : mapping) (r0 r r' : mappings) :
  seedsDefaults m r0 r -> seedsDefaults m r r' -> unwritten r r'.
Proof.
  intros (_ & _ & _ & _ & Hres & _) (evs & Hlog & _ & _ & _ & _ & Hidem).
  destruct Hidem as [Hdb Hnone].
  { intros id Hin. destruct (mappingIds_inTable m id Hin) as (rt & pn & pid & Ht & ->).
    eapply Hres; exact Ht. }
  split; [exact Hdb|]. intros id. rewrite Hlog, drop_app_length. apply Hnone.
Qed.

(** C9: on resolvers at rest and proper default maps,
    [storeDefaultMappings] ends in its callback.  In each of the three
    databases it has written a mapping for every pair of the default map
    that was not resolvable, and for no other: the document of such a pair
    is in the database, and every pair of the map is resolvable
    afterwards; when every pair was resolvable it has written nothing and
    the database is as it was.  Run again from there, it ends in its
    callback once more and writes nothing. *)
Theorem storeDefaultMappings_idempotent (d : defaults) cb s0 :
  properMapping (defaultMeteringMapping d) ->
  properMapping (defaultRatingMapping d) ->
  properMapping (defaultPricingMapping d) ->
  atRest (meteringMappings s0) -> atRest (ratingMappings s0) ->
  atRest (pricingMappings s0) ->
  ∃ s',
    storeDefaultMappings d cb s0 = cb s' ∧
    seedsDefaults (defaultMeteringMapping d) (meteringMappings s0) (meteringMappings s') ∧
    seedsDefaults (defaultRatingMapping d) (ratingMappings s0) (ratingMappings s') ∧
    seedsDefaults (defaultPricingMapping d) (pricingMappings s0) (pricingMappings s') ∧
    ∀ cb', ∃ s'',
      storeDefaultMappings d cb' s' = cb' s'' ∧
      unwritten (meteringMappings s') (meteringMappings s'') ∧
      unwritten (ratingMappings s') (ratingMappings s'') ∧
      unwritten (pricingMappings s') (pricingMappings s'').
Proof.
  intros Hm Hr Hp Hrm Hrr Hrp.
  destruct (storeDefaultMappings_seeds d cb s0 Hm Hr Hp Hrm Hrr Hrp)
    as (s' & Hrun & (Hrm' & Hrr' & Hrp') & Hs1 & Hs2 & Hs3).
  exists s'. split; [exact Hrun|].
  split; [exact Hs1|]. split; [exact Hs2|]. split; [exact Hs3|].
  intros cb'.
  destruct (storeDefaultMappings_seeds d cb' s' Hm Hr Hp Hrm' Hrr' Hrp')
    as (s'' & Hrun' & _ & Ht1 & Ht2 & Ht3).
  exists s''. split; [exact Hrun'|].
  split; [eapply seedsDefaults_again; eassumption|].
  split; eapply seedsDefaults_again; eassumption.
Qed.

Lemma emptyMappings_unresolvable id : ¬ resolvable emptyMappings id.
Proof.
  intros [Hc|(docs & doc & Hdb & Hd)].
  - cbn [emptyMappings cache] in Hc. rewrite lookup_empty in Hc. discriminate.
  - cbn [emptyMappings db] in Hdb. injection Hdb as <-.
    rewrite lookup_empty in Hd. discriminate.
Defined.

Lemma storeDefaultMappings_idempotent_witness :
  ∃ s' s'' docs,
    storeDefaultMappings exampleDefaults (ret tt) (exampleStores emptyMappings)
      = Ok tt s' ∧
    db (meteringMappings s') = Some docs ∧
    docs !! "k/object-storage/standard"%string
      = Some {| planId := "standard-object-storage" |} ∧
    storeDefaultMappings exampleDefaults (ret tt) s' = Ok tt s'' ∧
    db (meteringMappings s'') = db (meteringMappings s').
Proof.
  destruct (storeDefaultMappings_idempotent exampleDefaults (ret tt)
              (exampleStores emptyMappings)
              exampleMapping_proper exampleMapping_proper exampleMapping_proper
              emptyMappings_atRest emptyMappings_atRest emptyMappings_atRest)
    as (s' & Hrun & (evs & _ & _ & Hcreated & _) & _ & _ & Hagain).
  destruct (Hcreated "object-storage"%string "standard"%string
              "standard-object-storage"%string)
    as (_ & docs & d & Hdb & Hd & _ & Hpid).
  { eexists. split; [left|]. right. left. }
  { apply emptyMappings_unresolvable. }
  destruct (Hagain (ret tt)) as (s'' & Hrun' & (Hsame & _) & _).
  exists s', s'', docs. split; [exact Hrun|]. split; [exact Hdb|].
  split; [|split; [exact Hrun' | exact Hsame]].
  destruct d as [p]. cbn [planId] in Hpid.
  rewrite (Hpid exampleMapping_oneIdOnePlan) in Hd. exact Hd.
Defined.

End MappingsFacts.

(** ** More on the usage transformation and the renewer *)

Module RenewerMore.
Import Js Usage Renewer Cycle UsageFacts RenewerFacts.

Lemma pick_spec keys (h : heap) d props :
  h !! d = Some (OObj props) ->
  ∃ p',
    pick (VRef d) keys h = Ok (VRef (fresh (dom h))) (<[fresh (dom h) := OObj p']> h) ∧
    ∀ k, p' !! k = if decide (k ∈ keys) then props !! k else None.
Proof.
  intros Hd. unfold pick.
  rewrite (bind_ok _ _ _ _ _ (deref_ok _ _ _ Hd)).
  eexists. split; [reflexivity|].
  intros k. cbn [enumerable]. rewrite map_lookup_filter.
  destruct (props !! k) as [v|]; simpl.
  - destruct (decide (k ∈ keys)) as [Hin|Hout].
    + now rewrite option_guard_True.
    + now rewrite option_guard_False.
  - now destruct (decide (k ∈ keys)).
Qed.

(** X8: [sanitizeUsageDoc] returns a new object whose properties are exactly
    those of the document that the schema names, with the document's
    values; the store is otherwise as it was. *)
Theorem sanitizeUsageDoc_intersection keys (h : heap) d props :
  h !! d = Some (OObj props) ->
  ∃ c p',
    sanitizeUsageDoc keys (VRef d) h = Ok (VRef c) (<[c := OObj p']> h) ∧
    h !! c = None ∧
    ∀ k, p' !! k = if decide (k ∈ keys) then props !! k else None.
Proof.
  intros Hd. destruct (pick_spec keys h d props Hd) as (p' & Hrun & Hp).
  exists (fresh (dom h)), p'. split; [exact Hrun|]. split; [apply alloc_fresh | exact Hp].
Qed.

Lemma sanitizeUsageDoc_intersection_witness :
  ∃ c p',
    sanitizeUsageDoc ["start"; "end"; "measured_usage"]%string (VRef 1%positive) exampleHeap
      = Ok (VRef c) (<[c := OObj p']> exampleHeap) ∧
    p' !! "id" = None ∧ p' !! "start" = Some (VNum 5).
Proof.
  destruct (sanitizeUsageDoc_intersection ["start"; "end"; "measured_usage"]%string
              exampleHeap 1%positive exampleDocProps eq_refl) as (c & p' & Hrun & _ & Hp).
  exists c, p'. split; [exact Hrun|].
  split; [exact (Hp "id"%string) | exact (Hp "start"%string)].
Defined.

(** X9: The copy [zeroUsage] returns shares its [measured_usage] array with the
    document it was given: the quantities read through the document are
    those of the copy, zeroed entries included. *)
Theorem zeroUsage_shares_entries (h : heap) d props entries :
  usageDoc h d props entries ->
  ∃ c (h' : heap) a,
    zeroUsage (VRef d) h = Ok (VRef c) h' ∧ c ≠ d ∧
    field h' (VRef c) "measured_usage" = Some (VRef a) ∧
    field h' (VRef d) "measured_usage" = Some (VRef a) ∧
    quantities h' (VRef d) = quantities h' (VRef c) ∧
    ∀ e eprops name,
      e ∈ entries -> h !! e = Some (OObj eprops) ->
      eprops !! "measure" = Some (VStr name) -> String.prefix "previous" name = true ->
      field h' (VRef e) "quantity" = Some (VNum 0).
Proof.
  intros Hdoc.
  destruct (zeroUsage_spec h d props entries Hdoc) as (h' & Hrun & Hc & Hlook).
  destruct Hdoc as (Hd & a & aprops & Hmu & Ha & Hent).
  assert (Hne : fresh (dom h) ≠ d).
  { intros Heq. pose proof (alloc_fresh h) as Hf. rewrite Heq in Hf. congruence. }
  assert (Hfc : field h' (VRef (fresh (dom h))) "measured_usage" = Some (VRef a)).
  { unfold field. rewrite Hc. simpl. now rewrite Hmu. }
  assert (Hfd : field h' (VRef d) "measured_usage" = Some (VRef a)).
  { unfold field. rewrite Hlook by congruence. rewrite Hd.
    destruct (decide (d ∈ entries)); simpl.
    - rewrite zeroed_other by discriminate. simpl. now rewrite Hmu.
    - now rewrite Hmu. }
  exists (fresh (dom h)), h', a. split; [exact Hrun|]. split; [exact Hne|].
  split; [exact Hfc|]. split; [exact Hfd|]. split.
  - unfold quantities. now rewrite Hfc, Hfd.
  - intros e eprops name He Hl Hm Hpre.
    assert (He' : e ≠ fresh (dom h)).
    { intros ->. rewrite alloc_fresh in Hl. discriminate. }
    unfold field. rewrite Hlook by exact He'. rewrite decide_True by exact He.
    rewrite Hl. simpl. rewrite (zeroed_quantity (OObj eprops) name Hm), Hpre. reflexivity.
Qed.

Lemma zeroUsage_shares_entries_witness :
  ∃ c (h' : heap),
    zeroUsage (VRef 1%positive) exampleHeap = Ok (VRef c) h' ∧
    quantities h' (VRef 1%positive) = quantities h' (VRef c).
Proof.
  destruct (zeroUsage_shares_entries exampleHeap 1%positive exampleDocProps
              [3%positive; 4%positive] exampleHeap_usageDoc)
    as (c & h' & a & Hrun & _ & _ & _ & Hq & _).
  exists c, h'. split; assumption.
Defined.

(** *** Fetching a document *)

(** X10: [getUsageDoc] sends one request and hands the callback the body of a
    response with status 200 and no error, and otherwise nothing but the
    error and the response.  Only the first resets
    [consecutiveGetFailures] and clears [noGetEverHappened]; everything
    else adds one to [getFailures] and to the streak and records the last
    error. *)
Theorem getUsageDoc_outcome (E : env) id token cb w :
  ∃ w',
    getUsageDoc E id token cb w =
      (if fetchedOk (collectorGet E (requests w) id)
       then cb (bodyOf (collectorGet E (requests w) id).2) None None w'
       else cb VUndefined (collectorGet E (requests w) id).1
               (collectorGet E (requests w) id).2 w') ∧
    events w' = events w ++ [Get id (authHeader token)] ∧
    requests w' = S (requests w) ∧ store w' = store w ∧
    (fetchedOk (collectorGet E (requests w) id) = true ->
       getSuccess (Renewer.usage (stats w')) = S (getSuccess (Renewer.usage (stats w))) ∧
       getFailures (Renewer.usage (stats w')) = getFailures (Renewer.usage (stats w)) ∧
       consecutiveGetFailures (errs w') = 0%nat ∧
       noGetEverHappened (errs w') = false ∧
       lastError (errs w') = lastError (errs w)) ∧
    (fetchedOk (collectorGet E (requests w) id) = false ->
       getFailures (Renewer.usage (stats w')) = S (getFailures (Renewer.usage (stats w))) ∧
       getSuccess (Renewer.usage (stats w')) = getSuccess (Renewer.usage (stats w)) ∧
       consecutiveGetFailures (errs w') = S (consecutiveGetFailures (errs w)) ∧
       noGetEverHappened (errs w') = noGetEverHappened (errs w) ∧
       lastErrorTimestamp (errs w') = Some (now E)).
Proof.
  unfold getUsageDoc. unfold bind at 1. cbn [emit modify].
  unfold bind at 1. cbn [request with_events requests].
  destruct (collectorGet E (requests w) id) as [error response].
  unfold getUsageDocResponse, fetchedOk. cbn [fst snd].
  destruct (negb (present error) && present response && statusIs response 200).
  - eexists. split; [reflexivity|]. simpl.
    repeat split; try reflexivity; discriminate.
  - eexists. split; [reflexivity|]. simpl.
    repeat split; try reflexivity; discriminate.
Qed.

Lemma getUsageDoc_outcome_witness :
  ∃ w',
    getUsageDoc (exampleEnv (scanOf []) 201) "U1" None (fun _ _ _ => onSuccess) exampleWorld
      = onSuccess w' ∧
    consecutiveGetFailures (errs w') = 0%nat ∧ noGetEverHappened (errs w') = false.
Proof.
  destruct (getUsageDoc_outcome (exampleEnv (scanOf []) 201) "U1"%string None
              (fun _ _ _ => onSuccess) exampleWorld)
    as (w' & Hrun & _ & _ & _ & Hok & _).
  destruct (Hok eq_refl) as (_ & _ & Hs & Hn & _).
  exists w'. split; [exact Hrun|]. split; [exact Hs | exact Hn].
Defined.

(** *** A report that fails *)

Lemma reportedOk_false error response :
  reportedOk (error, response) = false ->
  negb (present error) && present response && statusIs response 201 = false ∧
  negb (present error) && present response && statusIs response 409 = false.
Proof.
  unfold reportedOk. cbn [fst snd].
  destruct (negb (present error) && present response); [|now split].
  cbn [andb]. intros [H1 H2]%orb_false_elim. now split.
Qed.

(** X11: When the collector answers a report with an error or with a status
    other than 201 and 409, the record is not counted: the cycle's [failure]
    callback gets the operation, the document as fetched, the error and the
    response.  [reportFailures] and the streak go up by one.  An answer with
    neither an error nor a response is counted as a failure too, but the
    record then counts as reported. *)
Theorem reportUsage_failure_signalled (E : env) w d props entries token
    failure countReportedDocs error response :
  usageDoc (store w) d props entries ->
  (∀ usage, collectorPost E (requests w) usage = (error, response)) ->
  reportedOk (error, response) = false ->
  ∃ w' usage,
    reportUsage E (VRef d) token (reported failure countReportedDocs (VRef d)) w =
      (if present error || present response
       then failure (buildError "report" (Doc (VRef d)) error response)
                    (Response response) w'
       else countReportedDocs w') ∧
    events w' = events w ++ [Post usage (authHeader token)] ∧
    reportFailures (Renewer.usage (stats w')) =
      S (reportFailures (Renewer.usage (stats w))) ∧
    reportSuccess (Renewer.usage (stats w')) = reportSuccess (Renewer.usage (stats w)) ∧
    reportConflict (Renewer.usage (stats w')) = reportConflict (Renewer.usage (stats w)) ∧
    consecutiveReportFailures (errs w') = S (consecutiveReportFailures (errs w)) ∧
    noReportEverHappened (errs w') = noReportEverHappened (errs w) ∧
    lastError (errs w') =
      (if present error || present response
       then Formatted (FailedReportingUsage usage) error response
       else Plain (FailedReportingUsage usage)).
Proof.
  intros Hdoc Hpost Hbad.
  destruct (reportedOk_false _ _ Hbad) as [H201 H409].
  destruct (reportUsage_sends E w d props entries token
              (reported failure countReportedDocs (VRef d)) Hdoc)
    as (u & h' & _ & _ & Hrun).
  rewrite Hpost in Hrun. cbn [fst snd] in Hrun.
  rewrite (reportUsageResponse_failed E _ _ _ _ _ H201 H409) in Hrun.
  rewrite Hrun. unfold reported.
  destruct (present error || present response);
    (eexists _, (VRef u); split; [reflexivity|]; simpl; repeat split; reflexivity).
Qed.

Lemma reportUsage_failure_signalled_witness :
  ∃ w' error detail,
    reportUsage (exampleEnv (scanOf []) 500) (VRef 1%positive) None
                (reported onFailure onSuccess (VRef 1%positive)) exampleWorld
      = onFailure error detail w' ∧
    reportFailures (Renewer.usage (stats w')) = 1%nat.
Proof.
  destruct (reportUsage_failure_signalled (exampleEnv (scanOf []) 500) exampleWorld
              1%positive exampleDocProps [3%positive; 4%positive] None
              onFailure onSuccess None
              (Some {| statusCode := 500; body := VUndefined |})
              exampleHeap_usageDoc (fun _ => eq_refl) eq_refl)
    as (w' & usage & Hrun & _ & Hf & _).
  exists w'. eexists _, _. split; [exact Hrun | exact Hf].
Defined.

(** *** What is posted *)

(** X12: What [reportUsage] posts for a usage document is a new object with
    exactly the properties the schema names: [start] and [end] are the
    beginning of the current month, every other one is as fetched.  So
    [measured_usage] is the array of the fetched document itself, and a
    property outside the schema, like [id], is not sent. *)
Theorem reportUsage_posts_renewed (E : env) w d props entries token cb :
  usageDoc (store w) d props entries ->
  ∃ u (h' : heap) sent,
    reportUsage E (VRef d) token cb w =
      reportUsageResponse E (VRef u) cb
        (collectorPost E (requests w) (VRef u)).1
        (collectorPost E (requests w) (VRef u)).2
        (posted (VRef u) token h' w) ∧
    store w !! u = None ∧ h' !! u = Some (OObj sent) ∧
    (∀ k, k ∉ schemaProps E -> sent !! k = None) ∧
    (∀ k, k ∈ schemaProps E -> k = "start" ∨ k = "end" ->
          sent !! k = Some (VNum (utcStartOfMonth (now E)))) ∧
    (∀ k, k ∈ schemaProps E -> k ≠ "start" -> k ≠ "end" -> sent !! k = props !! k).
Proof.
  intros Hdoc.
  destruct (reportUsage_sends E w d props entries token cb Hdoc)
    as (u & h' & Hren & _ & Hrun).
  destruct (refreshUsage_spec (store w) d props entries (now E) Hdoc)
    as (h1 & Href & Hc & _).
  destruct (pick_spec (schemaProps E) h1 _ _ Hc) as (sent & Hpick & Hsent).
  unfold renewed in Hren. rewrite (bind_ok _ _ _ _ _ Href) in Hren.
  unfold sanitizeUsageDoc in Hren. rewrite Hpick in Hren.
  injection Hren as <- <-.
  exists (fresh (dom h1)), (<[fresh (dom h1) := OObj sent]> h1), sent.
  split; [exact Hrun|].
  split.
  { destruct (store w !! fresh (dom h1)) as [o|] eqn:Hold; [|reflexivity].
    destruct (refreshUsage_grows (store w) d props entries (now E) Hdoc)
      as (h1' & props' & Href' & _ & Hg).
    rewrite Href in Href'. injection Href' as <-.
    destruct (Hg _ _ Hold) as (o' & Ho' & _).
    rewrite alloc_fresh in Ho'. discriminate. }
  split; [apply lookup_insert_eq|].
  split.
  { intros k Hk. rewrite Hsent. now rewrite decide_False by exact Hk. }
  split.
  - intros k Hk [-> | ->]; rewrite Hsent, decide_True by exact Hk.
    + rewrite lookup_insert_ne by discriminate. apply lookup_insert_eq.
    + apply lookup_insert_eq.
  - intros k Hk Hs He. rewrite Hsent, decide_True by exact Hk.
    now rewrite !lookup_insert_ne by congruence.
Qed.

Lemma reportUsage_posts_renewed_witness :
  ∃ u (h' : heap) sent,
    reportUsage (exampleEnv (scanOf []) 201) (VRef 1%positive) None
                (fun _ _ => onSuccess) exampleWorld =
      reportUsageResponse (exampleEnv (scanOf []) 201) (VRef u) (fun _ _ => onSuccess)
        None (Some {| statusCode := 201; body := VUndefined |})
        (posted (VRef u) None h' exampleWorld) ∧
    h' !! u = Some (OObj sent) ∧ sent !! "id" = None ∧
    sent !! "start" = Some (VNum (utcStartOfMonth exampleNow)).
Proof.
  destruct (reportUsage_posts_renewed (exampleEnv (scanOf []) 201) exampleWorld
              1%positive exampleDocProps [3%positive; 4%positive] None
              (fun _ _ => onSuccess) exampleHeap_usageDoc)
    as (u & h' & sent & Hrun & _ & Hu & Hout & Hse & _).
  exists u, h', sent. split; [exact Hrun|]. split; [exact Hu|]. split.
  - apply Hout. cbn [schemaProps exampleEnv]. rewrite !elem_of_cons, elem_of_nil.
    intros [H|[H|[H|[]]]]; discriminate H.
  - apply Hse; [|now left]. cbn [schemaProps exampleEnv]. apply list_elem_of_here.
Defined.

(** *** Documents that cannot be renewed *)

Lemma refreshUsage_no_array now (h : heap) d props :
  h !! d = Some (OObj props) -> props !! "measured_usage" = None ->
  ∃ h' : heap,
    refreshUsage now (VRef d) h = Throw (TypeError "value is not iterable") h' ∧
    field h' (VRef d) "start" = Some (VNum (utcStartOfMonth now)) ∧
    field h' (VRef d) "end" = Some (VNum (utcStartOfMonth now)).
Proof.
  intros Hd Hmu. unfold refreshUsage.
  rewrite (bind_ok _ _ _ _ _ (setProp_ok _ _ _ "start" _ Hd)).
  cbn [withProps propsOf].
  rewrite (bind_ok _ _ _ _ _ (setProp_ok _ _ _ "end" _ (lookup_insert_eq _ _ _))).
  cbn [withProps propsOf]. rewrite insert_insert_eq.
  set (props2 := <["end" := _]> (<["start" := _]> props)).
  set (h2 := <[d := OObj props2]> h).
  assert (Hd2 : h2 !! d = Some (OObj props2)) by apply lookup_insert_eq.
  assert (Hclone : extend_new (VRef d) h2 =
                   Ok (VRef (fresh (dom h2))) (<[fresh (dom h2) := OObj props2]> h2)).
  { unfold extend_new. now rewrite (bind_ok _ _ _ _ _ (deref_ok _ _ _ Hd2)). }
  unfold zeroUsage. rewrite (bind_ok _ _ _ _ _ Hclone).
  rewrite (bind_ok _ _ _ _ _ (getProp_ok _ _ _ "measured_usage" (lookup_insert_eq _ _ _))).
  cbn [propsOf].
  assert (Hmu2 : props2 !! "measured_usage" = None).
  { unfold props2. now rewrite !lookup_insert_ne by discriminate. }
  rewrite Hmu2. cbn [default].
  eexists. split; [reflexivity|].
  assert (Hne : fresh (dom h2) ≠ d).
  { intros Heq. pose proof (alloc_fresh h2) as Hf. rewrite Heq, Hd2 in Hf. discriminate. }
  unfold field. rewrite lookup_insert_ne, Hd2 by exact Hne. cbn [propsOf mbind option_bind].
  unfold props2. rewrite lookup_insert_ne, !lookup_insert_eq by discriminate.
  split; reflexivity.
Qed.

(** X13: A document without [measured_usage] is never posted: [reportUsage]
    sets its [start] and [end] and stops on the array that is not there.
    Nothing is sent, no counter changes and the callback does not run. *)
Theorem reportUsage_no_measured_usage (E : env) w d props token cb :
  store w !! d = Some (OObj props) -> props !! "measured_usage" = None ->
  ∃ msg (h' : heap),
    reportUsage E (VRef d) token cb w =
      Throw (TypeError msg) (with_store (fun _ => h') w) ∧
    field h' (VRef d) "start" = Some (VNum (utcStartOfMonth (now E))) ∧
    field h' (VRef d) "end" = Some (VNum (utcStartOfMonth (now E))).
Proof.
  intros Hd Hmu.
  destruct (refreshUsage_no_array (now E) _ _ _ Hd Hmu) as (h' & Hrun & Hs & He).
  exists "value is not iterable"%string, h'. split; [|split; assumption].
  unfold reportUsage.
  rewrite (bind_ok _ _ _ _ _ (inStore_ok _ _ _ _ (getProp_ok _ _ _ "id" Hd))).
  rewrite with_store_same.
  unfold bind at 1. unfold inStore, zoom. unfold bind at 1. rewrite Hrun. reflexivity.
Qed.

Lemma reportUsage_no_measured_usage_witness :
  ∃ msg (h' : heap),
    reportUsage (exampleEnv (scanOf []) 201) (VRef 3%positive) None
                (fun _ _ => onSuccess) exampleWorld
      = Throw (TypeError msg) (with_store (fun _ => h') exampleWorld) ∧
    field h' (VRef 3%positive) "start" = Some (VNum (utcStartOfMonth exampleNow)).
Proof.
  destruct (reportUsage_no_measured_usage (exampleEnv (scanOf []) 201) exampleWorld
              3%positive _ None (fun _ _ => onSuccess) eq_refl eq_refl)
    as (msg & h' & Hrun & Hs & _).
  exists msg, h'. split; [exact Hrun | exact Hs].
Defined.

(** X14: A fetch answered without error and without a document (no response at
    all, or status 200 and no body) signals no failure: the record goes on to
    [reportUsage], which stops on [doc.id].  The request is the only
    trace. *)
Theorem getUsageDoc_without_document (E : env) id token failure countReportedDocs
    w response :
  collectorGet E (requests w) id = (None, response) ->
  (response = None ∨
   ∃ r, response = Some r ∧ statusCode r = 200 ∧ body r = VUndefined) ->
  ∃ msg w',
    getUsageDoc E id token (fetched E token failure countReportedDocs id) w
      = Throw (TypeError msg) w' ∧
    events w' = events w ++ [Get id (authHeader token)] ∧
    requests w' = S (requests w) ∧ store w' = store w ∧
    reportFailures (Renewer.usage (stats w')) = reportFailures (Renewer.usage (stats w)).
Proof.
  intros Hget Hresp.
  unfold getUsageDoc. unfold bind at 1. cbn [emit modify].
  unfold bind at 1. cbn [request with_events requests]. rewrite Hget.
  destruct Hresp as [->|(r & -> & Hr & Hb)].
  - eexists _, _. split; [reflexivity|]. simpl. repeat split; reflexivity.
  - unfold getUsageDocResponse, statusIs. rewrite Hr, Hb.
    eexists _, _. split; [reflexivity|]. simpl. repeat split; reflexivity.
Qed.

Lemma getUsageDoc_without_document_witness :
  ∃ msg w',
    getUsageDoc silentEnv "U1" None (fetched silentEnv None onFailure onSuccess "U1")
                exampleWorld
      = Throw (TypeError msg) w' ∧
    events w' = [Get "U1" None].
Proof.
  destruct (getUsageDoc_without_document silentEnv "U1"%string None onFailure onSuccess
              exampleWorld None eq_refl (or_introl eq_refl))
    as (msg & w' & Hrun & Hev & _).
  exists msg, w'. split; [exact Hrun | exact Hev].
Defined.

(** *** A page whose fetches fail *)

Lemma fetch_fails (E : env) id token count w :
  fetchFailed (collectorGet E (requests w) id) = true ->
  ∃ w',
    getUsageDoc E id token (fetched E token onFailure count id) w = Ok tt w' ∧
    events w' = events w ++
      [Get id (authHeader token);
       Failure (buildError "get" (CollectorId id)
                  (collectorGet E (requests w) id).1 (collectorGet E (requests w) id).2)
               (Response (collectorGet E (requests w) id).2)] ∧
    requests w' = S (requests w) ∧ store w' = store w ∧ cells w' = cells w ∧
    db (stats w') = db (stats w) ∧
    getFailures (Renewer.usage (stats w')) = S (getFailures (Renewer.usage (stats w))) ∧
    consecutiveGetFailures (errs w') = S (consecutiveGetFailures (errs w)).
Proof.
  intros Hbad.
  unfold getUsageDoc. unfold bind at 1. cbn [emit modify].
  unfold bind at 1. cbn [request with_events requests].
  destruct (collectorGet E (requests w) id) as [error response].
  unfold fetchFailed, fetchedOk in Hbad. cbn [fst snd] in *.
  apply andb_prop in Hbad as [Hnot Hshow]. apply negb_true_iff in Hnot.
  unfold getUsageDocResponse. rewrite Hnot.
  unfold bind at 1. cbn [modify]. unfold bind at 1. cbn [modify].
  unfold bind at 1. cbn [registerError modify].
  unfold fetched. rewrite Hshow.
  eexists. split; [reflexivity|]. simpl.
  rewrite <- app_assoc. repeat split; reflexivity.
Qed.

Lemma fetches_fail (E : env) token count (refs : list carryOver) :
  (∀ n id, fetchFailed (collectorGet E n id) = true) ->
  ∀ w, ∃ w',
    forEach (fun ref => getUsageDoc E (collector_id ref) token
                          (fetched E token onFailure count (collector_id ref))) refs w
      = Ok tt w' ∧
    events w' = events w ++ fetchFailures E token (requests w) refs ∧
    requests w' = (requests w + length refs)%nat ∧ store w' = store w ∧
    db (stats w') = db (stats w) ∧
    getFailures (Renewer.usage (stats w')) =
      (getFailures (Renewer.usage (stats w)) + length refs)%nat ∧
    consecutiveGetFailures (errs w') =
      (consecutiveGetFailures (errs w) + length refs)%nat.
Proof.
  intros Hbad. induction refs as [|ref refs IH]; intros w.
  - exists w. cbn [forEach fetchFailures length]. rewrite app_nil_r, !Nat.add_0_r.
    repeat split; reflexivity.
  - destruct (fetch_fails E (collector_id ref) token count w (Hbad _ _))
      as (w1 & Hrun1 & Hev1 & Hreq1 & Hst1 & _ & Hdb1 & Hgf1 & Hcf1).
    destruct (IH w1) as (w2 & Hrun2 & Hev2 & Hreq2 & Hst2 & Hdb2 & Hgf2 & Hcf2).
    exists w2. cbn [forEach]. unfold bind at 1. rewrite Hrun1.
    split; [exact Hrun2|].
    split.
    { rewrite Hev2, Hev1, Hreq1. cbn [fetchFailures]. now rewrite <- app_assoc. }
    cbn [length]. repeat split; try congruence; lia.
Qed.

Lemma failures_fetchFailures (E : env) token (refs : list carryOver) : ∀ n,
  failures (fetchFailures E token n refs) = length refs ∧
  posts (fetchFailures E token n refs) = 0%nat ∧
  pageReads (fetchFailures E token n refs) = 0%nat ∧
  (Success ∉ fetchFailures E token n refs) ∧
  fetchedIds (fetchFailures E token n refs) = map collector_id refs ∧
  (∀ e, e ∈ fetchFailures E token n refs -> isFailure e = true ->
     ∃ id error response,
       e = Failure (buildError "get" (CollectorId id) error response) (Response response) ∧
       id ∈ map collector_id refs).
Proof.
  induction refs as [|ref refs IH]; intros n.
  - repeat split; try reflexivity; [apply not_elem_of_nil|].
    intros e He. inversion He.
  - destruct (IH (S n)) as (Hf & Hp & Hr & Hs & Hids & Hshape). cbn [fetchFailures].
    assert (Hids' : fetchedIds
                      (Get (collector_id ref) (authHeader token)
                       :: Failure (buildError "get" (CollectorId (collector_id ref))
                                     (collectorGet E n (collector_id ref)).1
                                     (collectorGet E n (collector_id ref)).2)
                                  (Response (collectorGet E n (collector_id ref)).2)
                       :: fetchFailures E token (S n) refs)
                    = map collector_id (ref :: refs)).
    { change (collector_id ref :: fetchedIds (fetchFailures E token (S n) refs)
              = collector_id ref :: map collector_id refs).
      now rewrite Hids. }
    unfold failures, posts, pageReads in *.
    cbn [List.filter isFailure isPost isAllDocs length].
    rewrite Hf, Hp, Hr. repeat split; try reflexivity; try exact Hids'.
    + rewrite !not_elem_of_cons. repeat split; [discriminate | discriminate | exact Hs].
    + intros e He Hfail.
      apply elem_of_cons in He as [->|He]; [discriminate|].
      apply elem_of_cons in He as [->|He].
      * eexists _, _, _. split; [reflexivity | left].
      * destruct (Hshape e He Hfail) as (id & error & response & -> & Hid).
        eexists _, _, _. split; [reflexivity | right; exact Hid].
Qed.

(** X15: When no fetch of a page gives a document, every record of the page
    is fetched once, in the order of the page, and [failure] is signalled
    once for each of them, with the 'get' error of one of the page's ids:
    one failure does not stop the others.  [success] is not called,
    nothing is reported and no further page is read.  Only what does not
    depend on the order in which the callbacks of a page run is stated. *)
Theorem renewUsagePage_failed_fetches (E : env) fuel token startId endId skip w rows :
  allDocs E startId endId (pageSize E) skip = inr rows -> rows ≠ [] ->
  (∀ n id, fetchFailed (collectorGet E n id) = true) ->
  ∃ w' evs,
    renewUsagePage E (S fuel) token startId endId skip onFailure onSuccess w = Ok tt w' ∧
    events w' = events w ++ AllDocs startId endId (pageSize E) skip :: evs ∧
    fetchedIds evs = map (fun r => collector_id (doc r)) rows ∧
    failures evs = length rows ∧
    (∀ e, e ∈ evs -> isFailure e = true ->
       ∃ id error response,
         e = Failure (buildError "get" (CollectorId id) error response)
                     (Response response) ∧
         id ∈ map (fun r => collector_id (doc r)) rows) ∧
    posts evs = 0%nat ∧ pageReads evs = 0%nat ∧
    (Success ∉ evs) ∧
    requests w' = (requests w + length rows)%nat ∧ store w' = store w ∧
    getFailures (Renewer.usage (stats w')) =
      (getFailures (Renewer.usage (stats w)) + length rows)%nat ∧
    consecutiveGetFailures (errs w') =
      (consecutiveGetFailures (errs w) + length rows)%nat ∧
    docsRead (db (stats w')) = (docsRead (db (stats w)) + length rows)%nat.
Proof.
  intros Hscan Hne Hbad.
  cbn [renewUsagePage]. unfold bind at 1. cbn [emit modify].
  rewrite Hscan.
  unfold bind at 1. unfold bind at 1. cbn [modify]. unfold bind at 1. cbn [modify ret].
  unfold bind at 1. cbn [ret]. unfold bind at 1. cbn [lengthOf ret].
  destruct (Nat.eqb_spec (length rows) 0) as [H0|H0].
  { destruct rows; [contradiction | discriminate]. }
  unfold bind at 1. cbn [newCell].
  match goal with
  | |- ∃ w' evs, forEach (fun ref => getUsageDoc _ _ _ (fetched _ _ _ ?count _)) _ ?w1 = _ ∧ _ =>
      destruct (fetches_fail E token count (extractUsageDocs (Some rows)) Hbad w1)
        as (w2 & Hrun & Hev & Hreq & Hst & Hdb & Hgf & Hcf)
  end.
  cbn [extractUsageDocs] in *. rewrite length_map in *.
  destruct (failures_fetchFailures E token (map doc rows) (requests w))
    as (Hf & Hp & Hr & Hs & Hids & Hshape).
  rewrite length_map in Hf. rewrite map_map in Hids, Hshape.
  exists w2, (fetchFailures E token (requests w) (map doc rows)).
  split; [exact Hrun|].
  split; [rewrite Hev; cbn; now rewrite <- app_assoc|].
  split; [exact Hids|].
  split; [exact Hf|]. split; [exact Hshape|].
  split; [exact Hp|]. split; [exact Hr|]. split; [exact Hs|].
  split; [exact Hreq|]. split; [exact Hst|]. split; [exact Hgf|]. split; [exact Hcf|].
  rewrite Hdb. reflexivity.
Qed.

Lemma renewUsagePage_failed_fetches_witness :
  ∃ w' evs,
    renewUsagePage (failingEnv [exampleRow; exampleRow] 404) 1 None "t/0" "t/1" 0
                   onFailure onSuccess exampleWorld = Ok tt w' ∧
    events w' = AllDocs "t/0" "t/1" 2 0 :: evs ∧ failures evs = 2%nat.
Proof.
  destruct (renewUsagePage_failed_fetches (failingEnv [exampleRow; exampleRow] 404)
              0 None "t/0" "t/1" 0 exampleWorld [exampleRow; exampleRow]
              eq_refl ltac:(discriminate) (fun _ _ => eq_refl))
    as (w' & evs & Hrun & Hev & _ & Hf & _).
  exists w', evs. split; [exact Hrun|]. split; [exact Hev | exact Hf].
Defined.

(** *** Every record once *)

Lemma advanced_refl w : advanced 0 w w.
Proof. unfold advanced. repeat split; lia. Qed.

Lemma advanced_trans a b w1 w2 w3 :
  advanced a w1 w2 -> advanced b w2 w3 -> advanced (a + b) w1 w3.
Proof.
  unfold advanced. intros (H1 & H2 & H3 & H4 & H5 & H6 & H7) (G1 & G2 & G3 & G4 & G5 & G6 & G7).
  repeat split; try congruence; lia.
Qed.

Lemma fetchedIds_app es1 es2 : fetchedIds (es1 ++ es2) = fetchedIds es1 ++ fetchedIds es2.
Proof. apply omap_app. Qed.

Lemma posts_app es1 es2 : posts (es1 ++ es2) = (posts es1 + posts es2)%nat.
Proof. unfold posts. now rewrite List.filter_app, length_app. Qed.

(** One record, fetched and reported, with what it leaves behind. *)
Lemma record_renewed (E : env) w token failure (count : M world unit) id :
  fetchesSucceed E (store w) -> reportsSucceed E ->
  ∃ w' u,
    getUsageDoc E id token (fetched E token failure count id) w = count w' ∧
    cells w' = cells w ∧ grows (store w) (store w') ∧
    events w' = events w ++ [Get id (authHeader token); Post u (authHeader token)] ∧
    advanced 1 w w' ∧ db (stats w') = db (stats w).
Proof.
  intros Hf Hp.
  destruct (Hf (requests w) id) as (r & d & props & entries & Hget & Hr & Hb & Hdoc).
  unfold getUsageDoc. unfold bind at 1. cbn [emit modify].
  unfold bind at 1. cbn [request with_events requests]. rewrite Hget.
  unfold getUsageDocResponse, statusIs. rewrite Hr, Hb. cbn [present negb andb Z.eqb Pos.eqb].
  unfold bind at 1. cbn [modify]. unfold bind at 1. cbn [modify].
  unfold bind at 1. cbn [modify].
  unfold fetched at 1. cbn [present orb].
  match goal with
  | |- ∃ w' u, reportUsage E _ _ ?cb ?w1 = _ ∧ _ =>
      destruct (reportUsage_sends E w1 d props entries token cb Hdoc)
        as (u & h' & _ & Hg & Hrun); rewrite Hrun; clear Hrun;
      destruct (Hp (requests w1) (VRef u)) as (r2 & Hpost & Hcode)
  end.
  rewrite Hpost. cbn [fst snd].
  destruct Hcode as [Hcode|Hcode].
  - rewrite (reportUsageResponse_201 _ _ _ _ _ Hcode).
    unfold reported. cbn [present orb].
    eexists _, (VRef u). split; [reflexivity|]. simpl.
    split; [reflexivity|]. split; [exact Hg|]. split; [now rewrite <- app_assoc|].
    split; [|reflexivity]. unfold advanced. simpl. repeat split; lia.
  - rewrite (reportUsageResponse_409 _ _ _ _ _ Hcode).
    unfold reported. cbn [present orb].
    eexists _, (VRef u). split; [reflexivity|]. simpl.
    split; [reflexivity|]. split; [exact Hg|]. split; [now rewrite <- app_assoc|].
    split; [|reflexivity]. unfold advanced. simpl. repeat split; lia.
Qed.

(** The loop of a page whose records all go well. *)
Lemma page_renewed (E : env) token failure c len final (refs : list carryOver) :
  reportsSucceed E ->
  forall w v,
    fetchesSucceed E (store w) ->
    cells w !! c = Some v -> (v + length refs = len)%nat -> refs ≠ [] ->
    ∃ w' evs,
      forEach (fun ref => getUsageDoc E (collector_id ref) token
                            (fetched E token failure (counting c len final)
                                     (collector_id ref))) refs w
        = final len w' ∧
      grows (store w) (store w') ∧
      events w' = events w ++ evs ∧ forallb isRequest evs = true ∧
      fetchedIds evs = map collector_id refs ∧ posts evs = length refs ∧
      advanced (length refs) w w' ∧ db (stats w') = db (stats w).
Proof.
  intros Hp. induction refs as [|ref refs IH]; intros w v Hf Hc Hlen Hne; [congruence|].
  destruct (record_renewed E w token failure (counting c len final) (collector_id ref) Hf Hp)
    as (w1 & u & Hstep & Hcells & Hg1 & Hev1 & Hadv1 & Hdb1).
  cbn [forEach]. unfold bind at 1. rewrite Hstep.
  rewrite (counting_step c len final w1 v) by (now rewrite Hcells).
  destruct refs as [|ref' refs].
  - simpl in Hlen. replace (S v =? len)%nat with true by (symmetry; apply Nat.eqb_eq; lia).
    replace (S v) with len by lia.
    exists (with_cells (alter S c) w1),
           [Get (collector_id ref) (authHeader token); Post u (authHeader token)].
    split.
    { destruct (final len (with_cells (alter S c) w1)) as [[] w2|x w2|]; reflexivity. }
    split; [exact Hg1|]. split; [exact Hev1|]. split; [reflexivity|].
    split; [reflexivity|]. split; [reflexivity|].
    split; [exact Hadv1 | exact Hdb1].
  - cbn [length] in Hlen.
    replace (S v =? len)%nat with false by (symmetry; apply Nat.eqb_neq; lia).
    cbn [ret].
    destruct (IH (with_cells (alter S c) w1) (S v))
      as (w2 & evs2 & Hrun & Hg2 & Hev2 & Hq2 & Hids2 & Hposts2 & Hadv2 & Hdb2).
    + cbn [with_cells store]. eapply fetchesSucceed_grows; eassumption.
    + cbn [with_cells cells]. now rewrite lookup_alter_eq, Hcells, Hc.
    + simpl. lia.
    + discriminate.
    + exists w2, ([Get (collector_id ref) (authHeader token); Post u (authHeader token)] ++ evs2).
      split; [exact Hrun|].
      split; [eapply grows_trans; [exact Hg1 | exact Hg2]|].
      split.
      { rewrite Hev2. cbn [with_cells events]. rewrite Hev1. now rewrite <- app_assoc. }
      split; [cbn [app forallb isRequest andb]; exact Hq2|].
      split.
      { rewrite fetchedIds_app, Hids2. reflexivity. }
      split.
      { rewrite posts_app, Hposts2. reflexivity. }
      split; [|now rewrite Hdb2].
      apply (advanced_trans 1 (length (ref' :: refs)) w w1 w2 Hadv1).
      exact Hadv2.
Qed.

Lemma scan_split (rows : list row) n skip :
  drop skip rows = take n (drop skip rows) ++ drop (skip + n) rows.
Proof. now rewrite <- drop_drop, take_drop. Qed.

(** The pages of a database of [rows] records from offset [skip] on, when
    every fetch and report goes well. *)
Lemma pages_renewed (E : env) (rows : list row) token startId endId :
  (0 < pageSize E)%nat ->
  (∀ limit skip, allDocs E startId endId limit skip = scanOf rows limit skip) ->
  reportsSucceed E ->
  forall fuel skip w,
    ((length rows - skip) / pageSize E < fuel)%nat ->
    fetchesSucceed E (store w) ->
    ∃ w' evs,
      renewUsagePage E fuel token startId endId skip onFailure onSuccess w = Ok tt w' ∧
      events w' = events w ++ evs ++ [Success] ∧
      forallb isProgress evs = true ∧
      fetchedIds evs = map (fun r => collector_id (doc r)) (drop skip rows) ∧
      posts evs = (length rows - skip)%nat ∧
      advanced (length rows - skip) w w' ∧
      docsRead (db (stats w')) = (docsRead (db (stats w)) + (length rows - skip))%nat ∧
      readFailure (db (stats w')) = readFailure (db (stats w)).
Proof.
  intros Hps Hscan Hp. induction fuel as [|fuel IH]; intros skip w Hfuel Hf; [lia|].
  set (m := (length rows - skip)%nat) in *.
  set (page := take (pageSize E) (drop skip rows)).
  assert (Hlen : length page = Nat.min (pageSize E) m) by apply length_scan.
  assert (Hsplit : drop skip rows = page ++ drop (skip + pageSize E) rows)
    by apply scan_split.
  cbn [renewUsagePage]. unfold bind at 1. cbn [emit modify].
  rewrite Hscan. unfold scanOf. fold page.
  unfold bind at 1. unfold bind at 1. cbn [modify]. unfold bind at 1. cbn [modify ret].
  unfold bind at 1. cbn [ret]. unfold bind at 1. cbn [lengthOf ret].
  destruct (Nat.eqb_spec (length page) 0) as [H0|H0].
  - (* nothing left: the empty page *)
    assert (Hm : m = 0%nat) by lia.
    assert (Hnil : drop skip rows = []).
    { apply length_zero_iff_nil. rewrite length_drop. exact Hm. }
    eexists _, [AllDocs startId endId (pageSize E) skip].
    split; [reflexivity|]. cbn [with_stats with_events store events].
    split; [now rewrite <- app_assoc|].
    split; [reflexivity|]. rewrite Hnil, Hm, H0.
    split; [reflexivity|]. split; [reflexivity|].
    split; [unfold advanced; simpl; repeat split; lia|].
    simpl. split; [lia | reflexivity].
  - unfold bind at 1. cbn [newCell].
    match goal with
    | |- ∃ w' evs, forEach _ _ ?w1 = _ ∧ _ => set (w1' := w1)
    end.
    pose (c := fresh (dom (cells w))).
    set (final := fun n : nat =>
           if (length page <? pageSize E)%nat then onSuccess
           else renewUsagePage E fuel token startId endId (skip + n)%nat
                               onFailure onSuccess).
    destruct (page_renewed E token onFailure c (length page) final
                (extractUsageDocs (Some page)) Hp w1' 0%nat)
      as (w2 & evs2 & Hrun & Hg2 & Hev2 & Hq2 & Hids2 & Hposts2 & Hadv2 & Hdb2).
    + exact Hf.
    + subst w1' c; cbn [with_cells with_stats with_events cells].
      apply lookup_insert_eq.
    + cbn [extractUsageDocs]. now rewrite length_map.
    + cbn [extractUsageDocs]. destruct page; [contradiction | discriminate].
    + change (forEach _ (extractUsageDocs (Some page)) w1')
        with (forEach (fun ref => getUsageDoc E (collector_id ref) token
                         (fetched E token onFailure
                            (counting c (length page) final) (collector_id ref)))
                      (extractUsageDocs (Some page)) w1').
      rewrite Hrun. unfold final.
      cbn [extractUsageDocs] in Hids2, Hposts2, Hadv2.
      rewrite length_map in Hposts2, Hadv2. rewrite map_map in Hids2.
      assert (Hev2' : events w2 = events w ++ AllDocs startId endId (pageSize E) skip :: evs2).
      { rewrite Hev2. subst w1'. cbn [with_cells with_stats with_events events].
        now rewrite <- app_assoc. }
      assert (Hadv2' : advanced (length page) w w2).
      { revert Hadv2. subst w1'. unfold advanced. simpl. tauto. }
      assert (Hdocs2 : docsRead (db (stats w2)) =
                       (docsRead (db (stats w)) + length page)%nat).
      { rewrite Hdb2. subst w1'. reflexivity. }
      assert (Hrf2 : readFailure (db (stats w2)) = readFailure (db (stats w))).
      { rewrite Hdb2. subst w1'. reflexivity. }
      destruct (Nat.ltb_spec (length page) (pageSize E)) as [Hlt|Hge].
      * (* a short page: the last one *)
        assert (Hm : length page = m) by lia.
        assert (Hrest : drop (skip + pageSize E) rows = []).
        { apply drop_ge. lia. }
        rewrite Hrest, app_nil_r in Hsplit.
        eexists _, (AllDocs startId endId (pageSize E) skip :: evs2).
        split; [reflexivity|]. cbn [with_events store events].
        split; [now rewrite Hev2', <- app_assoc|].
        split; [cbn [forallb]; now rewrite (requests_progress evs2 Hq2)|].
        split; [rewrite Hsplit; exact Hids2|].
        split.
        { change (AllDocs startId endId (pageSize E) skip :: evs2)
            with ([AllDocs startId endId (pageSize E) skip] ++ evs2).
          rewrite posts_app, Hposts2. exact Hm. }
        rewrite <- Hm.
        split; [exact Hadv2'|]. split; [exact Hdocs2 | exact Hrf2].
      * (* a full page: on to the next one *)
        assert (Hfull : length page = pageSize E) by lia.
        assert (Hm : (pageSize E <= m)%nat) by lia.
        destruct (IH (skip + length page)%nat w2)
          as (w3 & evs3 & Hrun3 & Hev3 & Hq3 & Hids3 & Hposts3 & Hadv3 & Hdocs3 & Hrf3).
        { replace (length rows - (skip + length page))%nat with (m - pageSize E)%nat by lia.
          assert (Hdiv : (m / pageSize E = S ((m - pageSize E) / pageSize E))%nat).
          { replace m with ((m - pageSize E) + 1 * pageSize E)%nat at 1 by lia.
            rewrite Nat.div_add by lia. lia. }
          lia. }
        { eapply fetchesSucceed_grows; [exact Hg2 | exact Hf]. }
        replace (length rows - (skip + length page))%nat with (m - length page)%nat
          in * by lia.
        exists w3, (AllDocs startId endId (pageSize E) skip :: evs2 ++ evs3).
        split; [exact Hrun3|].
        split.
        { rewrite Hev3, Hev2'. rewrite <- !app_assoc. f_equal.
          rewrite <- !app_comm_cons, <- app_assoc. reflexivity. }
        split.
        { cbn [forallb]. rewrite forallb_app, Hq3, (requests_progress evs2 Hq2).
          reflexivity. }
        split.
        { change (AllDocs startId endId (pageSize E) skip :: evs2 ++ evs3)
            with ([AllDocs startId endId (pageSize E) skip] ++ evs2 ++ evs3).
          rewrite !fetchedIds_app, Hids2, Hids3, Hsplit, map_app, Hfull. reflexivity. }
        split.
        { change (AllDocs startId endId (pageSize E) skip :: evs2 ++ evs3)
            with ([AllDocs startId endId (pageSize E) skip] ++ evs2 ++ evs3).
          rewrite !posts_app, Hposts2, Hposts3. cbn. lia. }
        split.
        { replace m with (length page + (m - length page))%nat by lia.
          exact (advanced_trans _ _ _ _ _ Hadv2' Hadv3). }
        split; [rewrite Hdocs3, Hdocs2; lia | now rewrite Hrf3].
Qed.

(** X16: When every fetch and report of a cycle goes well, every record of the
    carry-over database is fetched once, in the order of the database, and
    reported once: the ids fetched are the records' [collector_id]s, there
    are as many reports as records and two requests for each, and the
    counters of documents read, of fetches and of reports (accepted or in
    conflict) go up by the number of records, those of failures by
    nothing. *)
Theorem renewUsagePage_every_record_once (E : env) (rows : list row) token
    startId endId w fuel :
  (0 < pageSize E)%nat ->
  (∀ limit skip, allDocs E startId endId limit skip = scanOf rows limit skip) ->
  fetchesSucceed E (store w) ->
  reportsSucceed E ->
  (length rows / pageSize E < fuel)%nat ->
  ∃ w' evs,
    renewUsagePage E fuel token startId endId 0 onFailure onSuccess w = Ok tt w' ∧
    events w' = events w ++ evs ++ [Success] ∧
    fetchedIds evs = map (fun r => collector_id (doc r)) rows ∧
    posts evs = length rows ∧ failures evs = 0%nat ∧
    advanced (length rows) w w' ∧
    docsRead (db (stats w')) = (docsRead (db (stats w)) + length rows)%nat ∧
    readFailure (db (stats w')) = readFailure (db (stats w)).
Proof.
  intros Hps Hscan Hf Hp Hfuel.
  destruct (pages_renewed E rows token startId endId Hps Hscan Hp fuel 0%nat w)
    as (w' & evs & Hrun & Hev & Hq & Hids & Hposts & Hadv & Hdocs & Hrf).
  { now rewrite Nat.sub_0_r. }
  { exact Hf. }
  rewrite Nat.sub_0_r in *. rewrite drop_0 in Hids.
  exists w', evs. split; [exact Hrun|]. split; [exact Hev|]. split; [exact Hids|].
  split; [exact Hposts|]. split; [|auto].
  clear -Hq. unfold failures. induction evs as [|e evs IH]; [reflexivity|].
  cbn [forallb] in Hq. apply andb_prop in Hq as [He Hq].
  destruct e; try discriminate; cbn [List.filter isFailure]; auto.
Qed.

Lemma renewUsagePage_every_record_once_witness :
  ∃ w' evs,
    renewUsagePage (exampleEnv (scanOf [exampleRow; exampleRow]) 201) 2 None
                   "t/0" "t/1" 0 onFailure onSuccess exampleWorld = Ok tt w' ∧
    events w' = evs ++ [Success] ∧ fetchedIds evs = ["U1"; "U1"]%string ∧
    posts evs = 2%nat.
Proof.
  destruct (renewUsagePage_every_record_once
              (exampleEnv (scanOf [exampleRow; exampleRow]) 201)
              [exampleRow; exampleRow] None "t/0" "t/1" exampleWorld 2)
    as (w' & evs & Hrun & Hev & Hids & Hposts & _).
  - simpl. lia.
  - intros limit skip. reflexivity.
  - apply exampleEnv_fetchesSucceed.
  - intros n usage. eexists. split; [reflexivity|]. left. reflexivity.
  - vm_compute. lia.
  - exists w', evs. split; [exact Hrun|]. split; [exact Hev|].
    split; [exact Hids | exact Hposts].
Defined.

(** *** Starting a cycle *)

(** X17: Without a token on a secured installation a cycle does nothing but
    count and signal it: the next try is set five seconds ahead, the
    [missingToken] counter and flag are set, the last error is the plain
    message, and [failure] runs; nothing is scanned or requested. *)
Theorem renewUsage_missing_token (E : env) fuel failure success w :
  secured E = true ->
  ∃ w',
    renewUsage E fuel None failure success w = failure MissingTokenError NoDetail w' ∧
    timer w' = Some 5000 ∧
    count (retries (stats w')) = S (count (retries (stats w))) ∧
    missingToken (Renewer.usage (stats w')) = S (missingToken (Renewer.usage (stats w))) ∧
    errors_missingToken (errs w') = true ∧
    lastError (errs w') = Plain MissingToken ∧
    lastErrorTimestamp (errs w') = Some (now E) ∧
    events w' = events w ∧ requests w' = requests w ∧ store w' = store w.
Proof.
  intros Hsec. unfold renewUsage. rewrite Hsec. cbn [present negb andb].
  eexists. split; [reflexivity|]. simpl. repeat split; reflexivity.
Qed.

Lemma renewUsage_missing_token_witness :
  ∃ w',
    renewUsage silentEnv 0 None onFailure onSuccess exampleWorld
      = onFailure MissingTokenError NoDetail w' ∧
    timer w' = Some 5000 ∧ events w' = [].
Proof.
  destruct (renewUsage_missing_token silentEnv 0 onFailure onSuccess exampleWorld eq_refl)
    as (w' & Hrun & Ht & _ & _ & _ & _ & _ & Hev & _).
  exists w'. split; [exact Hrun|]. split; [exact Ht | exact Hev].
Defined.

Lemma dayOfMonth_bounds days : 1 <= dayOfMonth days <= 31.
Proof. unfold dayOfMonth. cbv zeta. Z.div_mod_to_equations. lia. Qed.

Lemma utcStartOfMonth_bounds t :
  utcStartOfMonth t <= t ∧ t - 31 * msPerDay < utcStartOfMonth t ∧
  utcStartOfMonth t mod msPerDay = 0.
Proof.
  unfold utcStartOfMonth. cbv zeta.
  pose proof (dayOfMonth_bounds (t / msPerDay)) as Hd.
  split; [|split].
  - unfold msPerDay in *. Z.div_mod_to_equations. lia.
  - unfold msPerDay in *. Z.div_mod_to_equations. lia.
  - apply Z.mod_mul. discriminate.
Qed.

Lemma encode_lt (a b : Z) :
  0 <= a -> a < b -> b < 10 ^ 16 -> Encoder.str_lt (Encoder.encode a) (Encoder.encode b).
Proof.
  intros Ha Hab Hb. unfold Encoder.str_lt, Encoder.encode.
  rewrite !EncoderFacts.pad16_fixedWidth by lia.
  change (String.compare (Encoder.fixedWidth 16 a) (Encoder.fixedWidth 16 b) = Lt).
  apply EncoderFacts.fixedWidth_lt; [lia | lia | exact Hb].
Qed.

Lemma timeoutDelay_range interval : 1 <= timeoutDelay interval <= 2147483647.
Proof.
  unfold timeoutDelay.
  destruct (Z.leb_spec 1 interval); destruct (Z.leb_spec interval 2147483647);
    cbn [andb]; lia.
Qed.

Lemma timeoutDelay_kept interval :
  1 <= interval <= 2147483647 -> timeoutDelay interval = interval.
Proof.
  intros [H1 H2]. unfold timeoutDelay.
  apply Z.leb_le in H1, H2. now rewrite H1, H2.
Qed.

Lemma timeoutDelay_other interval :
  interval < 1 ∨ 2147483647 < interval -> timeoutDelay interval = 1.
Proof.
  intros H. unfold timeoutDelay.
  destruct (Z.leb_spec 1 interval); destruct (Z.leb_spec interval 2147483647);
    cbn [andb]; lia.
Qed.

(** X18: With a token that is not empty, or on an installation that is not
    secured, a cycle sets the timer of the next one, to [retryInterval]
    when that is a delay the runtime keeps (1 to 2^31 - 1 ms) and to 1 ms
    otherwise, and scans from offset 0 between the keys of the window: it
    ends with the last millisecond before the current month, so before
    [now]; it starts [slackLimit] before the month that millisecond lies
    in, which is at most 31 days long.  For times of at most 16 digits the
    first key is below the second. *)
Theorem renewUsage_window (E : env) fuel token failure success w :
  secured E && negb (hasToken token) = false ->
  0 <= slackLimit E ->
  0 <= windowStart (now E) (slackLimit E) ->
  utcStartOfMonth (now E) <= 10 ^ 16 ->
  ∃ w1,
    renewUsage E fuel token failure success w =
      renewUsagePage E fuel token
        (Encoder.encode (windowStart (now E) (slackLimit E)))
        (Encoder.encode (windowEnd (now E))) 0
        (fun error response => failure error (failureResponse error response))
        success w1 ∧
    timer w1 = Some (timeoutDelay (retryInterval E)) ∧
    (1 <= retryInterval E <= 2147483647 -> timer w1 = Some (retryInterval E)) ∧
    (retryInterval E < 1 ∨ 2147483647 < retryInterval E -> timer w1 = Some 1) ∧
    count (retries (stats w1)) = S (count (retries (stats w))) ∧
    events w1 = events w ∧ requests w1 = requests w ∧
    Encoder.str_lt (Encoder.encode (windowStart (now E) (slackLimit E)))
                   (Encoder.encode (windowEnd (now E))) ∧
    windowEnd (now E) < now E ∧
    windowStart (now E) (slackLimit E) + slackLimit E < windowEnd (now E) ∧
    windowEnd (now E) - 31 * msPerDay < windowStart (now E) (slackLimit E) + slackLimit E.
Proof.
  intros Htok Hslack Hpos Hbig.
  destruct (utcStartOfMonth_bounds (now E)) as (Hle & _ & Hmod).
  destruct (utcStartOfMonth_bounds (utcStartOfMonth (now E) - 1)) as (Hle' & Hgt' & Hmod').
  assert (Hstrict : utcStartOfMonth (utcStartOfMonth (now E) - 1)
                    < utcStartOfMonth (now E) - 1).
  { unfold msPerDay in *. Z.div_mod_to_equations. lia. }
  unfold windowStart, windowEnd in *.
  unfold renewUsage. rewrite Htok.
  eexists. split; [reflexivity|]. cbn [with_stats with_timer timer stats events requests].
  split; [reflexivity|].
  split; [intros Hin; now rewrite timeoutDelay_kept|].
  split; [intros Hout; now rewrite timeoutDelay_other|].
  split; [reflexivity|]. split; [reflexivity|].
  split; [reflexivity|].
  split; [apply encode_lt; lia|].
  split; [lia|]. split; lia.
Qed.

Lemma renewUsage_window_witness :
  ∃ w1,
    renewUsage (exampleEnv (scanOf []) 201) 1 None onFailure onSuccess exampleWorld =
      renewUsagePage (exampleEnv (scanOf []) 201) 1 None
        (Encoder.encode (windowStart exampleNow 600000))
        (Encoder.encode (windowEnd exampleNow)) 0
        (fun error response => onFailure error (failureResponse error response))
        onSuccess w1 ∧
    Encoder.str_lt (Encoder.encode (windowStart exampleNow 600000))
                   (Encoder.encode (windowEnd exampleNow)).
Proof.
  destruct (renewUsage_window (exampleEnv (scanOf []) 201) 1 None onFailure onSuccess
              exampleWorld eq_refl)
    as (w1 & Hrun & _ & _ & _ & _ & _ & _ & Hlt & _).
  - vm_compute. discriminate.
  - vm_compute. discriminate.
  - vm_compute. discriminate.
  - exists w1. split; [exact Hrun | exact Hlt].
Defined.

(** A retry interval of 31 days is beyond what the runtime keeps: the next
    cycle is set one millisecond ahead. *)
Example renewUsage_long_interval :
  observe (fun _ w' => timer w')
          (renewUsage {| pageSize := 2; secured := false; retryInterval := 2678400000;
                         slackLimit := 600000; now := exampleNow; schemaProps := [];
                         allDocs := fun _ _ => scanOf [];
                         collectorGet := fun _ _ => (None, None);
                         collectorPost := fun _ _ => (None, None) |}
                      1 None onFailure onSuccess exampleWorld)
  = Some (Some 1).
Proof. vm_compute. reflexivity. Qed.

(** The window of the example: February 2024 with ten minutes of slack. *)
Example renewUsage_window_example :
  windowStart exampleNow 600000 = 1706745600000 - 600000 ∧
  windowEnd exampleNow = 1709251199999.
Proof. vm_compute. split; reflexivity. Qed.

(** *** The schedule *)

Lemma keeps_ret {A} (a : A) : keepsSchedule (ret a).
Proof. intros w. now split. Qed.

Lemma keeps_throw {A} x : keepsSchedule (throw (A := A) x).
Proof. intros w. now split. Qed.

Lemma keeps_bind {A B} (m : M world A) (k : A -> M world B) :
  keepsSchedule m -> (∀ a, keepsSchedule (k a)) -> keepsSchedule (bind m k).
Proof.
  intros Hm Hk w. unfold bind. specialize (Hm w).
  destruct (m w) as [a w1|x w1|]; [|exact Hm|exact I].
  specialize (Hk a w1). destruct (k a w1) as [b w2|x w2|]; [| |exact I];
    (destruct Hm, Hk; split; congruence).
Qed.

Lemma keeps_modify (f : world -> world) :
  (∀ w, timer (f w) = timer w ∧ retries (stats (f w)) = retries (stats w)) ->
  keepsSchedule (modify f).
Proof. intros Hf w. exact (Hf w). Qed.

Lemma keeps_forEach {A} (body : A -> M world unit) xs :
  (∀ x, keepsSchedule (body x)) -> keepsSchedule (forEach body xs).
Proof.
  intros Hbody. induction xs as [|x xs IH]; cbn [forEach].
  - apply keeps_ret.
  - apply keeps_bind; [apply Hbody | intros _; exact IH].
Qed.

Lemma keeps_inStore {A} (m : M heap A) : keepsSchedule (inStore m).
Proof.
  intros w. unfold inStore, zoom. destruct (m (store w)); [| |exact I]; now split.
Qed.

Lemma keeps_emit e : keepsSchedule (emit e).
Proof. apply keeps_modify. intros w. now split. Qed.

Lemma keeps_registerError (E : env) m error response :
  keepsSchedule (registerError E m error response).
Proof. apply keeps_modify. intros w. now split. Qed.

Ltac keeps :=
  repeat first
    [ apply keeps_ret | apply keeps_throw | apply keeps_emit | apply keeps_registerError
    | apply keeps_inStore
    | apply keeps_modify; intros ?; now split
    | apply keeps_bind; [|intros ?] ].

Lemma keeps_getUsageDoc (E : env) id token cb :
  (∀ d e r, keepsSchedule (cb d e r)) -> keepsSchedule (getUsageDoc E id token cb).
Proof.
  intros Hcb. unfold getUsageDoc. apply keeps_bind; [apply keeps_emit|]. intros _.
  apply keeps_bind; [intros w; now split|]. intros [error response].
  unfold getUsageDocResponse.
  destruct (negb (present error) && present response && statusIs response 200);
    keeps; apply Hcb.
Qed.

Lemma keeps_reportUsage (E : env) doc token cb :
  (∀ e r, keepsSchedule (cb e r)) -> keepsSchedule (reportUsage E doc token cb).
Proof.
  intros Hcb. unfold reportUsage.
  apply keeps_bind; [apply keeps_inStore|]. intros _.
  apply keeps_bind; [apply keeps_inStore|]. intros usage.
  apply keeps_bind; [apply keeps_emit|]. intros _.
  apply keeps_bind; [intros w; now split|]. intros [error response].
  unfold reportUsageResponse.
  destruct (negb (present error) && present response && statusIs response 201);
    [keeps; apply Hcb|].
  destruct (negb (present error) && present response && statusIs response 409);
    keeps; apply Hcb.
Qed.

Lemma keeps_renewUsagePage (E : env) token startId endId failure success :
  (∀ e d, keepsSchedule (failure e d)) -> keepsSchedule success ->
  ∀ fuel skip,
    keepsSchedule (renewUsagePage E fuel token startId endId skip failure success).
Proof.
  intros Hfail Hsucc. induction fuel as [|fuel IH]; intros skip; [intros w; exact I|].
  cbn [renewUsagePage].
  apply keeps_bind; [apply keeps_emit|]. intros _.
  apply keeps_bind.
  { destruct (allDocs E startId endId (pageSize E) skip); keeps. }
  intros [error usage].
  apply keeps_bind.
  { destruct error; keeps. apply Hfail. }
  intros _.
  apply keeps_bind.
  { destruct usage; [apply keeps_ret | apply keeps_throw]. }
  intros len.
  destruct (len =? 0)%nat; [exact Hsucc|].
  apply keeps_bind; [intros w; now split|]. intros numDocs.
  apply keeps_forEach. intros ref.
  apply keeps_getUsageDoc. intros d e r. unfold fetched.
  destruct (present e || present r); [apply Hfail|].
  apply keeps_reportUsage. intros e' r'. unfold reported.
  destruct (present e' || present r'); [apply Hfail|].
  apply keeps_bind; [apply keeps_modify; intros ?; now split|]. intros _.
  apply keeps_bind; [intros w; now split|]. intros n.
  destruct (n =? len)%nat; [|apply keeps_ret].
  destruct (len <? pageSize E)%nat; [exact Hsucc | apply IH].
Qed.

(** X19: Whatever the database and the collector answer, and whether a cycle
    ends normally or on an exception, it leaves the next cycle scheduled,
    with the delay the runtime keeps for [retryInterval], or for five
    seconds when the token is missing: [retryInterval] itself when it is 1
    to 2^31 - 1 ms.  Nothing after the first step of [renewUsage] touches
    the timer or the retry counter, which has gone up by one. *)
Theorem renewUsage_reschedules (E : env) fuel token failure success w :
  (∀ e d, keepsSchedule (failure e d)) -> keepsSchedule success ->
  match renewUsage E fuel token failure success w with
  | Ok _ w' | Throw _ w' =>
      timer w' = Some (timeoutDelay (if secured E && negb (hasToken token) then 5000
                                     else retryInterval E)) ∧
      (secured E && negb (hasToken token) = false ->
       1 <= retryInterval E <= 2147483647 -> timer w' = Some (retryInterval E)) ∧
      (∃ delay, timer w' = Some delay ∧ 1 <= delay <= 2147483647) ∧
      count (retries (stats w')) = S (count (retries (stats w)))
  | Pending => True
  end.
Proof.
  intros Hfail Hsucc. unfold renewUsage.
  destruct (secured E && negb (hasToken token)).
  - match goal with
    | |- match (setRenewTimeout ?i;; ?rest) w with _ => _ end =>
        assert (Hrest : keepsSchedule rest) by (keeps; apply Hfail);
        specialize (Hrest (with_stats incr_retries
                             (with_timer (fun _ => Some (timeoutDelay i)) w)));
        change ((setRenewTimeout i;; rest) w)
          with (rest (with_stats incr_retries
                        (with_timer (fun _ => Some (timeoutDelay i)) w)));
        destruct (rest _) as [a w'|x w'|]; [| |exact I];
          (destruct Hrest as [Ht Hr]; rewrite Ht, Hr;
           cbn [with_stats with_timer timer stats incr_retries retries count];
           split; [reflexivity|]; split; [discriminate|];
           split; [eexists; split; [reflexivity | apply timeoutDelay_range] | reflexivity])
    end.
  - match goal with
    | |- match (setRenewTimeout ?i;; ?rest) w with _ => _ end =>
        assert (Hrest : keepsSchedule rest)
          by (apply keeps_renewUsagePage; [intros e d; apply Hfail | exact Hsucc]);
        specialize (Hrest (with_stats incr_retries
                             (with_timer (fun _ => Some (timeoutDelay i)) w)));
        change ((setRenewTimeout i;; rest) w)
          with (rest (with_stats incr_retries
                        (with_timer (fun _ => Some (timeoutDelay i)) w)));
        destruct (rest _) as [a w'|x w'|]; [| |exact I];
          (destruct Hrest as [Ht Hr]; rewrite Ht, Hr;
           cbn [with_stats with_timer timer stats incr_retries retries count];
           split; [reflexivity|];
           split; [intros _ Hin; now rewrite timeoutDelay_kept|];
           split; [eexists; split; [reflexivity | apply timeoutDelay_range] | reflexivity])
    end.
Qed.

Lemma keeps_onFailure e d : keepsSchedule (onFailure e d).
Proof. apply keeps_emit. Defined.

Lemma keeps_onSuccess : keepsSchedule onSuccess.
Proof. apply keeps_emit. Defined.

Lemma renewUsage_reschedules_witness :
  match renewUsage (exampleEnv (fun _ _ => inl "boom"%string) 201) 1 None
                   onFailure onSuccess exampleWorld with
  | Ok _ w' | Throw _ w' => timer w' = Some 86400000 ∧ count (retries (stats w')) = 1%nat
  | Pending => True
  end.
Proof.
  pose proof (renewUsage_reschedules (exampleEnv (fun _ _ => inl "boom"%string) 201) 1 None
                onFailure onSuccess exampleWorld keeps_onFailure keeps_onSuccess) as H.
  destruct (renewUsage _ _ _ _ _ _) as [a w'|x w'|]; [| |exact I];
    (destruct H as (_ & Ht & _ & Hc);
     split; [apply Ht; [reflexivity | cbn [retryInterval exampleEnv]; lia] | exact Hc]).
Defined.

(** The cycle of the witness does end, on the exception of the scan that
    failed. *)
Example renewUsage_reschedules_example :
  match renewUsage (exampleEnv (fun _ _ => inl "boom"%string) 201) 1 None
                   onFailure onSuccess exampleWorld with
  | Throw _ w' => timer w' = Some 86400000
  | _ => False
  end.
Proof. vm_compute. reflexivity. Qed.

End RenewerMore.

(** ** The slack of the scan window *)

Module SlackFacts.
Import Encoder Slack EncoderFacts.

Lemma isScale_not_digit c : isScale c = true -> isDigit c = false.
Proof.
  destruct c as [[] [] [] [] [] [] [] []]; try discriminate; intros _; reflexivity.
Qed.

Lemma isScale_dimension c : isScale c = true -> ∃ d, msDimensions c = Some d ∧ 0 < d.
Proof.
  destruct c as [[] [] [] [] [] [] [] []]; try discriminate; intros _;
    eexists; (split; [reflexivity | reflexivity]).
Qed.

Lemma isDigit_digitChar d : 0 <= d < 10 ->
  isDigit (digitChar d) = true ∧ Z.of_N (N_of_ascii (digitChar d)) - 48 = d.
Proof.
  intros Hd. unfold isDigit, digitChar. rewrite N_ascii_embedding by lia.
  split; [|lia].
  apply andb_true_intro. split; apply N.leb_le; lia.
Qed.

Lemma allDigits_app s t : allDigits (String.append s t) = allDigits s && allDigits t.
Proof.
  induction s as [|c s IH]; sapp; [reflexivity|]. cbn [allDigits].
  now rewrite IH, andb_assoc.
Qed.

Lemma digitsValue_app s t acc :
  allDigits s = true ->
  digitsValue acc (String.append s t) = digitsValue (digitsValue acc s) t.
Proof.
  revert acc. induction s as [|c s IH]; intros acc Hs; sapp; [reflexivity|].
  cbn [allDigits] in Hs. apply andb_prop in Hs as [Hc Hs].
  cbn [digitsValue]. rewrite Hc. now apply IH.
Qed.

(** The decimal digits of a number are digits, and stand for it. *)
Lemma decimal_fuel_digits f : ∀ n,
  0 <= n < 10 ^ Z.of_nat f ->
  allDigits (decimal_fuel f n) = true ∧ digitsValue 0 (decimal_fuel f n) = n.
Proof.
  induction f as [|f IH]; intros n Hn.
  - simpl in Hn. split; [reflexivity | simpl; lia].
  - cbn [decimal_fuel]. destruct (Z.ltb_spec n 10) as [Hlt|Hge].
    + destruct (isDigit_digitChar n ltac:(lia)) as [Hd Hv].
      cbn [allDigits digitsValue]. rewrite Hd. split; [reflexivity | lia].
    + assert (Hdiv : 0 <= n / 10 < 10 ^ Z.of_nat f).
      { split; [apply Z.div_pos; lia|].
        apply Z.div_lt_upper_bound; [lia|].
        replace (10 * 10 ^ Z.of_nat f) with (10 ^ Z.of_nat (S f)); [lia|].
        rewrite Nat2Z.inj_succ, Z.pow_succ_r; lia. }
      destruct (IH _ Hdiv) as [Hall Hval].
      destruct (isDigit_digitChar (n mod 10) ltac:(apply Z.mod_pos_bound; lia)) as [Hd Hv].
      split.
      * rewrite allDigits_app, Hall. cbn [allDigits]. now rewrite Hd.
      * rewrite digitsValue_app by exact Hall. rewrite Hval.
        cbn [digitsValue]. rewrite Hd, Hv. rewrite (Z.div_mod n 10) at 3 by lia. lia.
Qed.

Lemma app_snoc_not_empty (s : string) c :
  String.append s (String c EmptyString) ≠ EmptyString.
Proof. destruct s; sapp; intros H; discriminate H. Qed.

Lemma toString_digits n :
  0 <= n ->
  allDigits (toString n) = true ∧ digitsValue 0 (toString n) = n ∧
  toString n ≠ EmptyString.
Proof.
  intros Hn. unfold toString.
  destruct (decimal_fuel_digits _ n (conj Hn (toString_fuel n Hn))) as [Hall Hval].
  split; [exact Hall|]. split; [exact Hval|].
  cbn [decimal_fuel]. destruct (n <? 10); [intros H; discriminate H|].
  apply app_snoc_not_empty.
Qed.

Lemma wellFormed_digits_scale s c :
  allDigits s = true -> s ≠ EmptyString -> isScale c = true ->
  wellFormed (String.append s (String c EmptyString)) = true ∧
  lastChar (String.append s (String c EmptyString)) = c.
Proof.
  intros Hs Hne Hc. induction s as [|d s IH]; [contradiction|].
  cbn [allDigits] in Hs. apply andb_prop in Hs as [Hd Hs].
  destruct s as [|d' s].
  - sapp. cbn [wellFormed lastChar]. now rewrite Hd, Hc.
  - destruct (IH Hs ltac:(discriminate)) as [Hw Hl].
    revert Hw Hl. sapp. intros Hw Hl.
    split.
    + change (isDigit d &&
              match String.append s (String c EmptyString) with
              | EmptyString => isScale d'
              | String _ _ => wellFormed (String d' (String.append s (String c EmptyString)))
              end = true).
      rewrite Hd. cbn [andb].
      destruct (String.append s (String c EmptyString)) eqn:Hrest; [|exact Hw].
      now apply app_snoc_not_empty in Hrest.
    + exact Hl.
Qed.

(** X20: [slackLimit] is ten minutes when [SLACK] is unset or is not digits
    followed by one of [M], [D], [h], [m], [s]; for the decimal digits of
    [n] followed by such a unit it is [n] times the milliseconds of the
    unit, as long as the product is an exact number (below 2^53); and it is
    always a number, never below zero. *)
Theorem slackLimit_value :
  slackLimit None = Some 600000 ∧
  (∀ s, wellFormed s = false -> slackLimit (Some s) = Some 600000) ∧
  (∀ n c, 0 <= n -> isScale c = true ->
     ∃ d, msDimensions c = Some d ∧ 0 < d ∧
          (d * n < 2 ^ 53 ->
           slackLimit (Some (String.append (toString n) (String c EmptyString)))
             = Some (d * n))) ∧
  (∀ SLACK, ∃ l, slackLimit SLACK = Some l ∧ 0 <= l).
Proof.
  split; [reflexivity|]. split.
  { intros s Hs. unfold slackLimit, slack. rewrite Hs. reflexivity. }
  split.
  { intros n c Hn Hc.
    destruct (toString_digits n Hn) as (Hall & Hval & Hne).
    destruct (wellFormed_digits_scale _ c Hall Hne Hc) as [Hw Hl].
    destruct (isScale_dimension c Hc) as (d & Hd & Hpos).
    exists d. split; [exact Hd|]. split; [exact Hpos|]. intros _.
    unfold slackLimit, slack. rewrite Hw. cbn [scale width]. rewrite Hl, Hd.
    cbn [mbind option_bind]. rewrite digitsValue_app by exact Hall. rewrite Hval.
    cbn [digitsValue]. now rewrite (isScale_not_digit c Hc). }
  intros [s|]; [|exists 600000; split; [reflexivity | lia]].
  unfold slackLimit, slack. destruct (wellFormed s) eqn:Hw;
    [|exists 600000; split; [reflexivity | lia]].
  cbn [scale width].
  assert (Hscale : isScale (lastChar s) = true).
  { clear -Hw. induction s as [|d s IH]; [discriminate|].
    cbn [wellFormed] in Hw. apply andb_prop in Hw as [_ Hw].
    destruct s as [|c s]; [discriminate|].
    destruct s as [|c' s]; [exact Hw|]. exact (IH Hw). }
  destruct (isScale_dimension _ Hscale) as (d & Hd & Hpos). rewrite Hd.
  cbn [mbind option_bind]. eexists. split; [reflexivity|].
  assert (Hval : ∀ t acc, 0 <= acc -> 0 <= digitsValue acc t).
  { clear. induction t as [|c t IH]; intros acc Hacc; cbn [digitsValue]; [exact Hacc|].
    destruct (isDigit c) eqn:Hc; [|exact Hacc]. apply IH.
    unfold isDigit in Hc. apply andb_prop in Hc as [Hlo _]. apply N.leb_le in Hlo. lia. }
  specialize (Hval s 0 ltac:(lia)). nia.
Qed.

Lemma slackLimit_value_witness :
  slackLimit (Some (String.append (toString 90) "s")) = Some (1000 * 90).
Proof.
  destruct slackLimit_value as (_ & _ & Hwell & _).
  destruct (Hwell 90 "s"%char ltac:(lia) eq_refl) as (d & Hd & _ & Hrun).
  injection Hd as <-. apply Hrun. reflexivity.
Defined.

(** [SLACK=2D] gives two days. *)
Example slackLimit_example : slackLimit (Some "2D"%string) = Some 172800000.
Proof. vm_compute. reflexivity. Qed.

End SlackFacts.

(** ** Plans and routes of the provisioning plugin *)

Module RoutesFacts.
Import Js Resolver Provisioning Mappings Routes ResolverFacts.

Lemma added_released {Plan} (s : resolver Plan Plan) id evs c :
  added s (released id evs c s) = [Locked id] ++ evs ++ [Unlocked id].
Proof. unfold added, released. cbn [log]. apply drop_app_length. Qed.

(** A plan put under [id], then looked up as the resolvers do. *)
Lemma stored_then_served {Plan} (b : @bundle Plan) id p (s : resolver Plan Plan) docs :
  db s = Some docs -> id ∉ held s ->
  ∃ s1 s2,
    dbPut (join ["k"; id]) p s = Ok tt s1 ∧
    resolveSpec (localResource b) undbify (fun k => join ["k"; k]) id s1
      = Ok (Some (served b id p s)) s2 ∧
    (id ∉ held s1) ∧
    cache s2 !! id = Some (served b id p s) ∧
    db s2 = Some (<[join ["k"; id] := p]> docs) ∧ held s2 = held s ∧
    (DbGet (join ["k"; id]) ∈ added s1 s2 ↔
     cache s !! id = None ∧ localResource b id = None).
Proof.
  intros Hdb Hfree. unfold dbPut. rewrite Hdb. unfold served.
  destruct (cache s !! id) as [c|] eqn:Hc.
  - eexists _, _. split; [reflexivity|].
    unfold resolveSpec. cbn [cache db]. rewrite Hc.
    split; [reflexivity|]. split; [exact Hfree|].
    cbn [released cache db held]. split; [exact Hc|]. split; [reflexivity|].
    split; [now apply held_released|].
    rewrite added_released. cbn [app]. rewrite !elem_of_cons, elem_of_nil.
    split; [intros [H|[H|[H|[]]]]; discriminate H | intros [H _]; discriminate H].
  - destruct (localResource b id) as [p0|] eqn:Hloc.
    + eexists _, _. split; [reflexivity|].
      unfold resolveSpec. cbn [cache db]. rewrite Hc, Hloc.
      split; [reflexivity|]. split; [exact Hfree|].
      cbn [released cache db held]. split; [apply lookup_insert_eq|].
      split; [reflexivity|]. split; [now apply held_released|].
      rewrite added_released. cbn [app]. rewrite !elem_of_cons, elem_of_nil.
      split; [intros [H|[H|[H|[H|[]]]]]; discriminate H | intros [_ H]; discriminate H].
    + eexists _, _. split; [reflexivity|].
      unfold resolveSpec. cbn [cache db]. rewrite Hc, Hloc, lookup_insert_eq.
      unfold undbify.
      split; [reflexivity|]. split; [exact Hfree|].
      cbn [released cache db held]. split; [apply lookup_insert_eq|].
      split; [reflexivity|]. split; [now apply held_released|].
      rewrite added_released. cbn [app]. rewrite !elem_of_cons.
      split; [now split | intros _; right; right; now left].
Qed.

(** X21: After a plan that conforms is stored under an id, the resolver of its
    kind serves, and caches, the plan it had cached for the id; else the
    plan bundled with the plugin; else the plan just stored.  The database is
    read only in the last case: a stored plan never replaces a bundled one,
    and reaches a warm cache only when the entry is gone. *)
Theorem plans_stored_then_served {Plan} (mb rb pb : @bundle Plan) id p
    (s : resolver Plan Plan) docs :
  db s = Some docs -> id ∉ held s ->
  (valid mb p = true ->
   ∃ s1 s2,
     newMetering mb id p s = Ok tt s1 ∧
     metering mb id s1 = Ok (Some (served mb id p s)) s2 ∧
     cache s2 !! id = Some (served mb id p s) ∧
     (DbGet (join ["k"; id]) ∈ added s1 s2 ↔
      cache s !! id = None ∧ localResource mb id = None)) ∧
  (valid rb p = true ->
   ∃ s1 s2,
     newRating rb id p s = Ok tt s1 ∧
     rating rb id s1 = Ok (Some (served rb id p s)) s2 ∧
     cache s2 !! id = Some (served rb id p s) ∧
     (DbGet (join ["k"; id]) ∈ added s1 s2 ↔
      cache s !! id = None ∧ localResource rb id = None)) ∧
  (valid pb p = true ->
   ∃ s1 s2,
     newPricing pb id p s = Ok tt s1 ∧
     pricing pb id s1 = Ok (Some (served pb id p s)) s2 ∧
     cache s2 !! id = Some (served pb id p s) ∧
     (DbGet (join ["k"; id]) ∈ added s1 s2 ↔
      cache s !! id = None ∧ localResource pb id = None)).
Proof.
  intros Hdb Hfree. split; [|split]; intros Hvalid.
  - destruct (stored_then_served mb id p s docs Hdb Hfree)
      as (s1 & s2 & Hput & Hget & Hfree1 & Hc & _ & _ & Hread).
    exists s1, s2. unfold newMetering. rewrite Hvalid.
    split; [exact Hput|]. rewrite metering_resolveSpec by exact Hfree1. auto.
  - destruct (stored_then_served rb id p s docs Hdb Hfree)
      as (s1 & s2 & Hput & Hget & Hfree1 & Hc & _ & _ & Hread).
    exists s1, s2. unfold newRating. rewrite Hvalid.
    split; [exact Hput|]. rewrite rating_resolveSpec by exact Hfree1. auto.
  - destruct (stored_then_served pb id p s docs Hdb Hfree)
      as (s1 & s2 & Hput & Hget & Hfree1 & Hc & _ & _ & Hread).
    exists s1, s2. unfold newPricing. rewrite Hvalid.
    split; [exact Hput|]. rewrite pricing_resolveSpec by exact Hfree1. auto.
Qed.

Lemma not_held_empty (id : string) : id ∉ (∅ : gset string).
Proof. apply not_elem_of_empty. Defined.

Lemma plans_stored_then_served_witness :
  ∃ s1 s2,
    newMetering basicBundle "basic" "stored basic"%string emptyPlans = Ok tt s1 ∧
    metering basicBundle "basic" s1 = Ok (Some "bundled basic"%string) s2.
Proof.
  destruct (plans_stored_then_served basicBundle basicBundle basicBundle "basic"
              "stored basic"%string emptyPlans ∅ eq_refl (not_held_empty _))
    as (Hm & _ & _).
  destruct (Hm eq_refl) as (s1 & s2 & Hput & Hget & _).
  exists s1, s2. split; [exact Hput | exact Hget].
Defined.

(** *** The resource instance route *)

Lemma mapped_then_resolved rt pn pid (s : mappings) docs :
  db s = Some docs ->
  join ["k"; rt; pn] ∉ held s ->
  truthyId (cache s !! join ["k"; rt; pn]) = false ->
  ∃ s1 s2,
    newMeteringMapping rt pn pid s = Ok tt s1 ∧
    mappedMeteringPlan rt pn s1 = Ok (Some pid) s2 ∧
    cache s2 !! join ["k"; rt; pn] = Some pid ∧
    join ["k"; rt; pn] ∉ held s2.
Proof.
  intros Hdb Hfree Hcold. set (id := join ["k"; rt; pn]) in *.
  unfold newMeteringMapping, dbPut. fold id. rewrite Hdb.
  eexists _, _. split; [reflexivity|].
  rewrite mappedMeteringPlan_run by exact Hfree. fold id.
  cbn [cache db]. rewrite Hcold, lookup_insert_eq. cbn [planId].
  split; [reflexivity|]. cbn [released cache db held].
  split; [apply lookup_insert_eq|].
  now rewrite held_released.
Qed.

(** X22: Once a plan id is mapped to a resource type and plan name through the
    mapping route, and a plan that conforms is stored under that id through
    the plan route, the resource instance route answers 200 with the path
    for that resource and plan, and the mapping route answers the plan
    id. *)
Theorem getInstance_after_provisioning {Plan Path} (mb : @bundle Plan)
    (req : instanceRequest Path) pid plan (s : plugin Plan) mdocs pdocs :
  db (meteringMappings (planMappings s)) = Some mdocs ->
  join ["k"; resource_id req; plan_id req] ∉ held (meteringMappings (planMappings s)) ->
  truthyId (cache (meteringMappings (planMappings s))
              !! join ["k"; resource_id req; plan_id req]) = false ->
  db (meteringStore s) = Some pdocs ->
  pid ∉ held (meteringStore s) ->
  nonEmpty pid = true -> valid mb plan = true ->
  ∃ s1 s2 s3 s4,
    postMeteringMapping (resource_id req) (plan_id req) pid s
      = Ok {| status := 200; content := None |} s1 ∧
    postMeteringPlan mb pid plan s1 = Ok {| status := 201; content := None |} s2 ∧
    getInstance mb req s2 = Ok {| status := 200; content := Some (path req) |} s3 ∧
    getMeteringMapping (resource_id req) (plan_id req) s3
      = Ok {| status := 200; content := Some pid |} s4.
Proof.
  intros Hmdb Hmfree Hcold Hpdb Hpfree Hpid Hvalid.
  destruct (mapped_then_resolved _ _ pid _ _ Hmdb Hmfree Hcold)
    as (m1 & m2 & Hnew & Hres & Hcache & Hm2free).
  destruct (stored_then_served mb pid plan _ _ Hpdb Hpfree)
    as (t1 & t2 & Hput & Hget & Hfree1 & _).
  rewrite <- (metering_resolveSpec mb pid t1 Hfree1) in Hget.
  eexists _, _, _, _.
  split.
  { unfold postMeteringMapping, bind, onMappings, onMetering, zoom. rewrite Hnew.
    reflexivity. }
  split.
  { unfold postMeteringPlan, bind, onMeteringStore, zoom, newMetering.
    cbn [meteringStore]. rewrite Hvalid, Hput. reflexivity. }
  split.
  { unfold getInstance, rtype. unfold bind at 1. cbn [ret].
    unfold bind at 1. unfold onMappings, onMetering, zoom.
    cbn [planMappings meteringMappings setMetering]. rewrite Hres. rewrite Hpid.
    unfold bind at 1. unfold onMeteringStore, zoom. cbn [meteringStore]. rewrite Hget.
    reflexivity. }
  unfold getMeteringMapping, bind, onMappings, onMetering, zoom.
  cbn [planMappings meteringMappings setMetering].
  rewrite mappedMeteringPlan_run by exact Hm2free.
  rewrite Hcache. cbn [truthyId]. rewrite Hpid. cbn [truthyId]. rewrite Hpid.
  reflexivity.
Qed.

Lemma getInstance_after_provisioning_witness :
  ∃ s1 s2 s3,
    postMeteringMapping "object-storage" "basic" "basic-object-storage" examplePlugin
      = Ok {| status := 200; content := None |} s1 ∧
    postMeteringPlan noBundle "basic-object-storage" "a plan"%string s1
      = Ok {| status := 201; content := None |} s2 ∧
    getInstance noBundle exampleRequest s2
      = Ok {| status := 200; content := Some "object-storage/basic"%string |} s3.
Proof.
  destruct (getInstance_after_provisioning noBundle exampleRequest "basic-object-storage"
              "a plan"%string examplePlugin ∅ ∅ eq_refl (not_held_empty _) eq_refl eq_refl
              (not_held_empty _) eq_refl eq_refl)
    as (s1 & s2 & s3 & s4 & H1 & H2 & H3 & _).
  exists s1, s2, s3. split; [exact H1|]. split; [exact H2 | exact H3].
Defined.

(** X23: The route answers 404 without a body when no plan id is mapped to the
    resource and plan, and then does not look for a plan at all; it
    answers 404 with the path when a plan id is mapped but no plan is cached,
    bundled or stored under it. *)
Theorem getInstance_not_found {Plan Path} (mb : @bundle Plan)
    (req : instanceRequest Path) (s : plugin Plan) mdocs :
  db (meteringMappings (planMappings s)) = Some mdocs ->
  join ["k"; resource_id req; plan_id req] ∉ held (meteringMappings (planMappings s)) ->
  truthyId (cache (meteringMappings (planMappings s))
              !! join ["k"; resource_id req; plan_id req]) = false ->
  (mdocs !! join ["k"; resource_id req; plan_id req] = None ->
   ∃ s', getInstance mb req s = Ok {| status := 404; content := None |} s' ∧
         meteringStore s' = meteringStore s) ∧
  (∀ pid pdocs,
     mdocs !! join ["k"; resource_id req; plan_id req] = Some {| planId := pid |} ->
     nonEmpty pid = true ->
     db (meteringStore s) = Some pdocs -> pid ∉ held (meteringStore s) ->
     cache (meteringStore s) !! pid = None -> localResource mb pid = None ->
     pdocs !! join ["k"; pid] = None ->
     ∃ s', getInstance mb req s = Ok {| status := 404; content := Some (path req) |} s').
Proof.
  intros Hmdb Hmfree Hcold. split.
  - intros Hnone.
    unfold getInstance, rtype. unfold bind at 1. cbn [ret].
    unfold bind at 1. unfold onMappings, onMetering, zoom.
    rewrite mappedMeteringPlan_run by exact Hmfree.
    rewrite Hcold, Hmdb, Hnone.
    eexists. split; reflexivity.
  - intros pid pdocs Hsome Hpid Hpdb Hpfree Hpc Hloc Hpnone.
    unfold getInstance, rtype. unfold bind at 1. cbn [ret].
    unfold bind at 1. unfold onMappings, onMetering, zoom.
    rewrite mappedMeteringPlan_run by exact Hmfree.
    rewrite Hcold, Hmdb, Hsome. cbn [planId]. rewrite Hpid.
    unfold bind at 1. unfold onMeteringStore, zoom. cbn [meteringStore].
    rewrite metering_resolveSpec by exact Hpfree.
    unfold resolveSpec. rewrite Hpc, Hloc, Hpdb, Hpnone.
    eexists. reflexivity.
Qed.

Lemma getInstance_not_found_witness :
  ∃ s', getInstance noBundle exampleRequest examplePlugin
          = Ok {| status := 404; content := None |} s' ∧
        meteringStore s' = meteringStore examplePlugin.
Proof.
  destruct (getInstance_not_found noBundle exampleRequest examplePlugin ∅
              eq_refl (not_held_empty _) eq_refl) as [Hnone _].
  exact (Hnone eq_refl).
Defined.

(** *** The plan routes *)

(** X24: A plan that conforms, posted through the route of its kind, is
    answered 201 and then served by the GET route of that kind with 200
    (the plan the resolver serves: cached, else bundled, else the one
    posted); the stores of the other kinds and the mappings are as they
    were.  A plan that does not conform is not stored: the handler throws
    and the store is as it was. *)
Theorem plan_routes_round_trip {Plan} (mb rb pb : @bundle Plan) id p (s : plugin Plan) :
  (∀ docs, db (meteringStore s) = Some docs -> id ∉ held (meteringStore s) ->
     if valid mb p then
       ∃ s1 s2,
         postMeteringPlan mb id p s = Ok {| status := 201; content := None |} s1 ∧
         getMeteringPlan mb id s1
           = Ok {| status := 200; content := Some (served mb id p (meteringStore s)) |} s2 ∧
         ratingStore s1 = ratingStore s ∧ pricingStore s1 = pricingStore s ∧
         planMappings s1 = planMappings s
     else ∃ e s1, postMeteringPlan mb id p s = Throw e s1 ∧
                  meteringStore s1 = meteringStore s) ∧
  (∀ docs, db (ratingStore s) = Some docs -> id ∉ held (ratingStore s) ->
     if valid rb p then
       ∃ s1 s2,
         postRatingPlan rb id p s = Ok {| status := 201; content := None |} s1 ∧
         getRatingPlan rb id s1
           = Ok {| status := 200; content := Some (served rb id p (ratingStore s)) |} s2 ∧
         meteringStore s1 = meteringStore s ∧ pricingStore s1 = pricingStore s ∧
         planMappings s1 = planMappings s
     else ∃ e s1, postRatingPlan rb id p s = Throw e s1 ∧
                  ratingStore s1 = ratingStore s) ∧
  (∀ docs, db (pricingStore s) = Some docs -> id ∉ held (pricingStore s) ->
     if valid pb p then
       ∃ s1 s2,
         postPricingPlan pb id p s = Ok {| status := 201; content := None |} s1 ∧
         getPricingPlan pb id s1
           = Ok {| status := 200; content := Some (served pb id p (pricingStore s)) |} s2 ∧
         meteringStore s1 = meteringStore s ∧ ratingStore s1 = ratingStore s ∧
         planMappings s1 = planMappings s
     else ∃ e s1, postPricingPlan pb id p s = Throw e s1 ∧
                  pricingStore s1 = pricingStore s).
Proof.
  split; [|split]; intros docs Hdb Hfree.
  - destruct (valid mb p) eqn:Hvalid.
    + destruct (stored_then_served mb id p _ _ Hdb Hfree)
        as (t1 & t2 & Hput & Hget & Hfree1 & _).
      rewrite <- (metering_resolveSpec mb id t1 Hfree1) in Hget.
      eexists _, _. split.
      { unfold postMeteringPlan, bind, onMeteringStore, zoom, newMetering.
        rewrite Hvalid, Hput. reflexivity. }
      split.
      { unfold getMeteringPlan, bind, onMeteringStore, zoom. cbn [meteringStore].
        rewrite Hget. reflexivity. }
      repeat split; reflexivity.
    + eexists _, _. split.
      { unfold postMeteringPlan, bind, onMeteringStore, zoom, newMetering.
        rewrite Hvalid. reflexivity. }
      reflexivity.
  - destruct (valid rb p) eqn:Hvalid.
    + destruct (stored_then_served rb id p _ _ Hdb Hfree)
        as (t1 & t2 & Hput & Hget & Hfree1 & _).
      rewrite <- (rating_resolveSpec rb id t1 Hfree1) in Hget.
      eexists _, _. split.
      { unfold postRatingPlan, bind, onRatingStore, zoom, newRating.
        rewrite Hvalid, Hput. reflexivity. }
      split.
      { unfold getRatingPlan, bind, onRatingStore, zoom. cbn [ratingStore].
        rewrite Hget. reflexivity. }
      repeat split; reflexivity.
    + eexists _, _. split.
      { unfold postRatingPlan, bind, onRatingStore, zoom, newRating.
        rewrite Hvalid. reflexivity. }
      reflexivity.
  - destruct (valid pb p) eqn:Hvalid.
    + destruct (stored_then_served pb id p _ _ Hdb Hfree)
        as (t1 & t2 & Hput & Hget & Hfree1 & _).
      rewrite <- (pricing_resolveSpec pb id t1 Hfree1) in Hget.
      eexists _, _. split.
      { unfold postPricingPlan, bind, onPricingStore, zoom, newPricing.
        rewrite Hvalid, Hput. reflexivity. }
      split.
      { unfold getPricingPlan, bind, onPricingStore, zoom. cbn [pricingStore].
        rewrite Hget. reflexivity. }
      repeat split; reflexivity.
    + eexists _, _. split.
      { unfold postPricingPlan, bind, onPricingStore, zoom, newPricing.
        rewrite Hvalid. reflexivity. }
      reflexivity.
Qed.

Lemma plan_routes_round_trip_witness :
  ∃ s1 s2,
    postRatingPlan noBundle "basic" "a rating plan"%string examplePlugin
      = Ok {| status := 201; content := None |} s1 ∧
    getRatingPlan noBundle "basic" s1
      = Ok {| status := 200; content := Some "a rating plan"%string |} s2.
Proof.
  destruct (plan_routes_round_trip noBundle noBundle noBundle "basic"
              "a rating plan"%string examplePlugin) as (_ & Hr & _).
  destruct (Hr ∅ eq_refl (not_held_empty _)) as (s1 & s2 & Hpost & Hget & _).
  exists s1, s2. split; [exact Hpost | exact Hget].
Defined.

End RoutesFacts.
